(** * The page cache core of BusTub: clock replacer, buffer pool manager and
      hash-index block page, embedded shallowly and verified.

    Source files embedded here:
    - [src/buffer/clock_replacer.cpp]
    - [src/buffer/buffer_pool_manager.cpp]
    - [src/storage/page/hash_table_block_page.cpp] (with its header)

    The model is sequential: latches ([latch_], [WLatch], [WUnlatch],
    [std::lock_guard]) are not represented, every operation runs to its end
    before the next one starts. *)

From stdpp Require Import base option list gmap.
From Stdlib Require Import ZArith Lia.

(** ** Outcomes of a call

    A call of the source either returns, trips an [assert], runs into
    undefined behaviour (an access outside an array, the dereference of an
    end iterator, the use of an uninitialised local), or has not left its
    loop when the fuel of the model is used up. *)

Inductive Outcome (A : Type) : Type :=
| Ok (a : A)
| AssertFail
| Undefined
| Diverge.

Arguments Ok {A} a.
Arguments AssertFail {A}.
Arguments Undefined {A}.
Arguments Diverge {A}.

#[global] Instance Outcome_ret : MRet Outcome := λ A a, Ok a.

#[global] Instance Outcome_bind : MBind Outcome := λ A B (k : A → Outcome B) m,
  match m with
  | Ok a => k a
  | AssertFail => AssertFail
  | Undefined => Undefined
  | Diverge => Diverge
  end.

Definition returns {A : Type} (m : Outcome A) : Prop := ∃ a, m = Ok a.

(** ** Constants of [common/config.h] *)

(** Modelled from the spec: [common/config.h] is not among the sources; the
    spec gives [PAGE_SIZE] as 4096 bytes. *)
Definition PAGE_SIZE : nat := 4096.

Arguments PAGE_SIZE : simpl never.

(** Modelled from the spec: [INVALID_PAGE_ID] is -1 (also from the missing
    [common/config.h]). *)
Definition INVALID_PAGE_ID : Z := (-1)%Z.

(** The largest [int], the type of a pin count. *)
Definition INT_MAX : Z := (2 ^ 31 - 1)%Z.

(** ** Hash table block page *)

Module HashTableBlockPage.

(** A [char] of the bit maps is modelled by its bit pattern, an integer in
    [0, 256): [&] and [|] act on the pattern, and the conversion of the
    [int] operand [~mask] to [char] keeps its low eight bits. *)
Definition to_char (z : Z) : Z := (z mod 256)%Z.

Definition N_TH_BIT_MASK : list Z := [128; 64; 32; 16; 8; 4; 2; 1]%Z.

(** Modelled from the spec: the macro [BLOCK_ARRAY_SIZE] is defined in
    [storage/page/hash_table_page_defs.h], which is not among the sources;
    the spec gives floor((PAGE_SIZE * 8) / (8 * sizeof(pair) + 2)). *)
Definition BLOCK_ARRAY_SIZE (sizeof_MappingType : nat) : nat :=
  (PAGE_SIZE * 8) / (8 * sizeof_MappingType + 2).

(** The block page: the two bit maps and the slot array.  [None] as the
    result of an operation stands for an access outside one of the arrays,
    which the source does not check. *)
Record Block (K V : Type) : Type := mkBlock {
  occupied_ : list Z;
  readable_ : list Z;
  array_ : list (K * V)
}.

Arguments mkBlock {K V} _ _ _.
Arguments occupied_ {K V} _.
Arguments readable_ {K V} _.
Arguments array_ {K V} _.

Definition GET_N_TH_BIT (char_arr : list Z) (bucket_ind : nat) : option bool :=
  let arr_index := bucket_ind / 8 in
  let bit_offset := bucket_ind mod 8 in
  c ← char_arr !! arr_index;
  m ← N_TH_BIT_MASK !! bit_offset;
  Some (negb (Z.land c m =? 0)%Z).

Definition SET_N_TH_BIT (char_arr : list Z) (bucket_ind : nat) : option (list Z) :=
  let arr_index := bucket_ind / 8 in
  let bit_offset := bucket_ind mod 8 in
  c ← char_arr !! arr_index;
  m ← N_TH_BIT_MASK !! bit_offset;
  Some (<[arr_index := Z.lor c m]> char_arr).

Definition UNSET_N_TH_BIT (char_arr : list Z) (bucket_ind : nat) : option (list Z) :=
  let arr_index := bucket_ind / 8 in
  let bit_offset := bucket_ind mod 8 in
  c ← char_arr !! arr_index;
  m ← N_TH_BIT_MASK !! bit_offset;
  Some (<[arr_index := Z.land c (to_char (Z.lnot m))]> char_arr).

Section Operations.
Context {K V : Type}.

Definition KeyAt (b : Block K V) (bucket_ind : nat) : option K :=
  fst <$> array_ b !! bucket_ind.

Definition ValueAt (b : Block K V) (bucket_ind : nat) : option V :=
  snd <$> array_ b !! bucket_ind.

Definition Insert (b : Block K V) (bucket_ind : nat) (key : K) (value : V)
  : option (bool * Block K V) :=
  r ← GET_N_TH_BIT (readable_ b) bucket_ind;
  if r : bool then Some (false, b)
  else
    occ ← SET_N_TH_BIT (occupied_ b) bucket_ind;
    rd ← SET_N_TH_BIT (readable_ b) bucket_ind;
    _ ← array_ b !! bucket_ind;
    Some (true, mkBlock occ rd (<[bucket_ind := (key, value)]> (array_ b))).

Definition Remove (b : Block K V) (bucket_ind : nat) : option (Block K V) :=
  rd ← UNSET_N_TH_BIT (readable_ b) bucket_ind;
  Some (mkBlock (occupied_ b) rd (array_ b)).

Definition IsOccupied (b : Block K V) (bucket_ind : nat) : option bool :=
  GET_N_TH_BIT (occupied_ b) bucket_ind.

Definition IsReadable (b : Block K V) (bucket_ind : nat) : option bool :=
  GET_N_TH_BIT (readable_ b) bucket_ind.

(** The shape the header declares: both bit maps have
    [(BLOCK_ARRAY_SIZE - 1) / 8 + 1] chars and the slot array has
    [BLOCK_ARRAY_SIZE] slots. *)
Definition block_shape (sizeof_MappingType : nat) (b : Block K V) : Prop :=
  length (occupied_ b) = (BLOCK_ARRAY_SIZE sizeof_MappingType - 1) / 8 + 1 ∧
  length (readable_ b) = (BLOCK_ARRAY_SIZE sizeof_MappingType - 1) / 8 + 1 ∧
  length (array_ b) = BLOCK_ARRAY_SIZE sizeof_MappingType.
End Operations.

(** Every live slot is marked occupied. *)
Definition live_is_occupied {K V : Type} (b : Block K V) : Prop :=
  ∀ j, GET_N_TH_BIT (readable_ b) j = Some true →
       GET_N_TH_BIT (occupied_ b) j = Some true.

End HashTableBlockPage.

(** ** Clock replacer *)

Module ClockReplacer.

(** The header [buffer/clock_replacer.h] is not among the sources.  From the
    uses in [clock_replacer.cpp]: [clock] is a vector of pairs of booleans
    (first: the frame is a candidate; second: its reference bit), [hand] an
    index into it and [size] the number of candidates, both [size_t].
    [hand] is a natural number here: it is only ever incremented right after
    [assert(hand < clock.size())] and reduced modulo the size, so it cannot
    wrap; [size] is decremented and incremented, with the wrap-around of
    [size_t] written out.  The four constants are the truth values the tests
    of the source give them ([if (entry.first) // exist],
    [if (!pair.first) pair.first = EXISTS]). *)
Definition EXISTS : bool := true.
Definition NOT_EXISTS : bool := false.
Definition REF : bool := true.
Definition NO_REF : bool := false.

Record t : Type := mk {
  clock : list (bool * bool);
  hand : nat;
  size : Z
}.

(** Arithmetic of [size_t] (64 bits) and the two casts of the source. *)
Definition size_t_wrap (z : Z) : Z := (z mod 2 ^ 64)%Z.

(** [static_cast<size_t>(frame_id)], [frame_id] a 32-bit signed integer. *)
Definition static_cast_size_t (frame_id : Z) : Z := size_t_wrap frame_id.

(** [static_cast<frame_id_t>(hand)]: the low 32 bits, read as signed. *)
Definition static_cast_frame_id_t (h : nat) : Z :=
  let z := (Z.of_nat h mod 2 ^ 32)%Z in
  if (z <? 2 ^ 31)%Z then z else (z - 2 ^ 32)%Z.

(** Modelled from the spec: the member initialisers of [hand] and [size] are
    in the missing header; a new replacer has no candidate ([size] is the
    count of present entries) and its hand is at slot 0. *)
Definition new (num_pages : nat) : t :=
  mk (replicate num_pages (NOT_EXISTS, NO_REF)) 0 0.

(** The [while (true)] loop of [Victim]; [fuel] bounds the number of slots
    inspected.  The result is the value written to [*frame_id] and the
    replacer on return. *)
Fixpoint Victim_loop (fuel : nat) (r : t) : Outcome (Z * t) :=
  match fuel with
  | O => Diverge
  | S fuel' =>
    if negb (hand r <? length (clock r)) then AssertFail
    else
      match clock r !! hand r with
      | None => Undefined
      | Some (first, second) =>
        if first : bool then
          if second : bool then
            Victim_loop fuel'
              (mk (<[hand r := (first, NO_REF)]> (clock r))
                  ((hand r + 1) mod length (clock r))
                  (size r))
          else
            Ok (static_cast_frame_id_t (hand r),
                mk (<[hand r := (NOT_EXISTS, second)]> (clock r))
                   (hand r)
                   (size_t_wrap (size r - 1)))
        else
          Victim_loop fuel'
            (mk (clock r) ((hand r + 1) mod length (clock r)) (size r))
      end
  end.

(** [Victim]: [Some f] is the return value [true] with [*frame_id = f];
    [None] is [false], [*frame_id] untouched. *)
Definition Victim_fuel (fuel : nat) (r : t) : Outcome (option Z * t) :=
  if (size r =? 0)%Z then Ok (None, r)
  else '(f, r') ← Victim_loop fuel r; Ok (Some f, r').

(** Two sweeps are all the loop can need: after one sweep every reference
    bit is clear.  With this fuel the model returns whenever the loop does
    ([Victim_loop_stable]) and [Diverge] is a loop that never ends
    ([Victim_loop_never]). *)
Definition Victim (r : t) : Outcome (option Z * t) :=
  Victim_fuel (S (2 * length (clock r))) r.

(** The condition of the [assert] of [Pin] and [Unpin]. *)
Definition frame_assert (r : t) (frame_id : Z) : bool :=
  (static_cast_size_t frame_id <=? Z.of_nat (length (clock r)))%Z.

(** The slot [clock[frame_id]] names: the index is converted to [size_t]. *)
Definition slot_of (frame_id : Z) : nat := Z.to_nat (static_cast_size_t frame_id).

Definition Pin (r : t) (frame_id : Z) : Outcome t :=
  if negb (frame_assert r frame_id) then AssertFail
  else
    match clock r !! slot_of frame_id with
    | None => Undefined
    | Some (first, second) =>
      if first : bool then
        Ok (mk (<[slot_of frame_id := (NOT_EXISTS, NO_REF)]> (clock r))
               (hand r) (size_t_wrap (size r - 1)))
      else
        Ok (mk (<[slot_of frame_id := (first, NO_REF)]> (clock r))
               (hand r) (size r))
    end.

Definition Unpin (r : t) (frame_id : Z) : Outcome t :=
  if negb (frame_assert r frame_id) then AssertFail
  else
    match clock r !! slot_of frame_id with
    | None => Undefined
    | Some (first, second) =>
      if negb (first : bool) then
        Ok (mk (<[slot_of frame_id := (EXISTS, REF)]> (clock r))
               (hand r) (size_t_wrap (size r + 1)))
      else
        Ok (mk (<[slot_of frame_id := (first, REF)]> (clock r))
               (hand r) (size r))
    end.

Definition Size (r : t) : Z := size r.

(** *** Well-formed replacers *)

Definition present (e : bool * bool) : bool := e.1.

Definition present_count (c : list (bool * bool)) : nat :=
  length (filter (λ e, present e = true) c).

(** The state the operations keep: the hand is inside the array (when there
    is one), [size] counts the present entries, and every slot index is a
    frame id. *)
Record wf (r : t) : Prop := {
  wf_hand : clock r ≠ [] → hand r < length (clock r);
  wf_size : size r = Z.of_nat (present_count (clock r));
  wf_bound : (Z.of_nat (length (clock r)) ≤ 2 ^ 31)%Z
}.

(** [passed r k i]: slot [i] is one of the [k] slots the hand leaves behind
    when it starts at [hand r] and advances [k] times. *)
Definition passed (r : t) (k i : nat) : Prop :=
  ∃ j, j < k ∧ i = (hand r + j) mod length (clock r).

(** The replacer once the hand has left the slot it stood on: the slot lost
    its reference bit if it was present and referenced. *)
Definition advance (r : t) : t :=
  match clock r !! hand r with
  | Some (true, true) =>
    mk (<[hand r := (true, NO_REF)]> (clock r))
       ((hand r + 1) mod length (clock r)) (size r)
  | _ => mk (clock r) ((hand r + 1) mod length (clock r)) (size r)
  end.

(** Between two clocks, slot [i] is untouched or lost its reference bit. *)
Definition cleared_or_same (c c' : list (bool * bool)) (i : nat) : Prop :=
  c' !! i = c !! i ∨ (c !! i = Some (true, true) ∧ c' !! i = Some (true, false)).

(** [selected r k c_sel f r']: from [r], the sweep left [k] slots behind,
    stood on a present slot with a clear reference bit in the clock [c_sel]
    (the clock at the moment of selection), wrote that slot's index to the
    output [f] and left the replacer [r']. *)
Record selected (r : t) (k : nat) (c_sel : list (bool * bool)) (f : Z) (r' : t)
  : Prop := {
  sel_hand : hand r' = (hand r + k) mod length (clock r);
  sel_in : hand r' < length (clock r);
  sel_out : f = static_cast_frame_id_t (hand r');
  sel_len : length c_sel = length (clock r);
  sel_entry : c_sel !! hand r' = Some (true, false);
  sel_orig : ∃ b, clock r !! hand r' = Some (true, b);
  sel_clock : clock r' = <[hand r' := (false, false)]> c_sel;
  sel_size : size r' = size_t_wrap (size r - 1);
  sel_cleared : ∀ i, cleared_or_same (clock r) c_sel i;
  sel_passed : ∀ i, passed r k i → c_sel !! i ≠ Some (true, true);
  sel_rest : ∀ i, ¬ passed r k i → c_sel !! i = clock r !! i
}.

End ClockReplacer.

(** ** Disk manager *)

Module DiskManager.

(** Modelled from the spec: [DiskManager] is an external collaborator, only
    its four operations are named.  [ReadPage] fills the buffer with the
    [PAGE_SIZE] bytes stored under the id (zero bytes where nothing was
    written), [WritePage] stores the buffer under the id, [AllocatePage]
    returns a fresh dense id (a counter), [DeallocatePage] releases an id
    (a no-op on the store).  Every call is recorded in [calls], newest
    first, so that what was asked of the disk, and in which order, can be
    stated. *)
Inductive call : Type :=
| ReadPage_call (page_id : Z)
| WritePage_call (page_id : Z) (bytes : list Z)
| AllocatePage_call (page_id : Z)
| DeallocatePage_call (page_id : Z).

Record t : Type := mk {
  next_page_id : Z;
  store : gmap Z (list Z);
  calls : list call
}.

Definition ReadPage (d : t) (page_id : Z) : list Z * t :=
  (default (replicate PAGE_SIZE 0%Z) (store d !! page_id),
   mk (next_page_id d) (store d) (ReadPage_call page_id :: calls d)).

Definition WritePage (d : t) (page_id : Z) (bytes : list Z) : t :=
  mk (next_page_id d) (<[page_id := bytes]> (store d))
     (WritePage_call page_id bytes :: calls d).

Definition AllocatePage (d : t) : Z * t :=
  (next_page_id d,
   mk (next_page_id d + 1)%Z (store d) (AllocatePage_call (next_page_id d) :: calls d)).

Definition DeallocatePage (d : t) (page_id : Z) : t :=
  mk (next_page_id d) (store d) (DeallocatePage_call page_id :: calls d).

End DiskManager.

(** ** Buffer pool manager *)

Module BufferPoolManager.

Local Open Scope Z_scope.

(** Modelled from the spec: the class [Page] ([storage/page/page.h]) is not
    among the sources.  A frame has a buffer of [PAGE_SIZE] bytes, the id of
    the resident page, a pin count ([int]) and a dirty flag; [ResetMemory]
    zeroes the buffer; a frame that never held a page is empty
    ([INVALID_PAGE_ID], pin count 0, clean, zeroed buffer). *)
Record Page : Type := mkPage {
  data_ : list Z;
  page_id_ : Z;
  pin_count_ : Z;
  is_dirty_ : bool
}.

(** A buffer of [PAGE_SIZE] zero bytes. *)
Definition zero_bytes : list Z := replicate PAGE_SIZE 0.

Arguments zero_bytes : simpl never.

(** Modelled from the spec: [Page::ResetMemory] (missing [page.h]) zeroes the
    frame's [data]. *)
Definition ResetMemory (page : Page) : Page :=
  mkPage zero_bytes (page_id_ page) (pin_count_ page) (is_dirty_ page).

(** Modelled from the spec: the frame [new Page[pool_size_]] creates (missing
    [page.h]): no page, no pin, clean, and a zeroed buffer, which is what
    [NewPage] hands out from the initial free list. *)
Definition new_Page : Page := mkPage zero_bytes INVALID_PAGE_ID 0 false.

Record t : Type := mk {
  pages_ : list Page;
  page_table_ : gmap Z Z;
  free_list_ : list Z;
  replacer_ : ClockReplacer.t;
  disk_manager_ : DiskManager.t
}.

Definition pool_size_ (s : t) : nat := length (pages_ s).

(** The constructor: every frame starts in the free list. *)
Definition new (pool_size : nat) (disk_manager : DiskManager.t) : t :=
  mk (replicate pool_size new_Page)
     ∅
     (ClockReplacer.static_cast_frame_id_t <$> seq 0 pool_size)
     (ClockReplacer.new pool_size)
     disk_manager.

(** [pages_ + index]: outside the array the pointer is invalid. *)
Definition frame (s : t) (index : Z) : Outcome Page :=
  if index <? 0 then Undefined
  else match pages_ s !! Z.to_nat index with
       | Some page => Ok page
       | None => Undefined
       end.

Definition set_frame (pages : list Page) (index : Z) (page : Page) : list Page :=
  <[Z.to_nat index := page]> pages.

(** [std::unordered_map::emplace]: nothing happens when the key is there. *)
Definition emplace (k v : Z) (m : gmap Z Z) : gmap Z Z :=
  match m !! k with
  | Some _ => m
  | None => <[k := v]> m
  end.

(** [ReplaceAndUpdate], lines 45-73: pick the frame (free list first, then
    the replacer), install the mapping, write a dirty victim back, load or
    zero the buffer.  The frame's meta-data is not touched yet. *)
Definition FindReplacement (s : t) (new_page_id : Z) (new_page : bool)
  : Outcome (Z * t) :=
  match free_list_ s with
  | index :: rest =>
    let table := emplace new_page_id index (page_table_ s) in
    page ← frame s index;
    if new_page then
      Ok (index, mk (pages_ s) table rest (replacer_ s) (disk_manager_ s))
    else
      let rd := DiskManager.ReadPage (disk_manager_ s) new_page_id in
      let page1 := mkPage rd.1 (page_id_ page) (pin_count_ page) (is_dirty_ page) in
      Ok (index, mk (set_frame (pages_ s) index page1) table rest (replacer_ s) rd.2)
  | [] =>
    vr ← ClockReplacer.Victim (replacer_ s);
    match vr.1 with
    | None => Undefined
    | Some index =>
      page ← frame s index;
      let table := emplace new_page_id index (delete (page_id_ page) (page_table_ s)) in
      r2 ← ClockReplacer.Pin vr.2 index;
      let disk1 :=
        if is_dirty_ page
        then DiskManager.WritePage (disk_manager_ s) (page_id_ page) (data_ page)
        else disk_manager_ s in
      if new_page then
        Ok (index, mk (set_frame (pages_ s) index (ResetMemory page))
                      table [] r2 disk1)
      else
        let rd := DiskManager.ReadPage disk1 new_page_id in
        let page1 := mkPage rd.1 (page_id_ page) (pin_count_ page) (is_dirty_ page) in
        Ok (index, mk (set_frame (pages_ s) index page1) table [] r2 rd.2)
    end
  end.

(** [ReplaceAndUpdate], lines 75-79: the meta-data of the chosen frame. *)
Definition UpdateMetadata (s : t) (index : Z) (new_page_id : Z) (new_page : bool)
  : Outcome (Z * t) :=
  page ← frame s index;
  Ok (index,
      mk (set_frame (pages_ s) index (mkPage (data_ page) new_page_id 1 new_page))
         (page_table_ s) (free_list_ s) (replacer_ s) (disk_manager_ s)).

(** The result is the index of the frame the returned pointer names. *)
Definition ReplaceAndUpdate (s : t) (new_page_id : Z) (new_page : bool)
  : Outcome (Z * t) :=
  if negb (negb (bool_decide (free_list_ s = []))
           || negb (ClockReplacer.Size (replacer_ s) =? 0))
  then AssertFail
  else
    fs ← FindReplacement s new_page_id new_page;
    UpdateMetadata fs.2 fs.1 new_page_id new_page.

(** [None] is the null pointer.  [pin_count_++] on the largest [int] is a
    signed overflow, which is undefined. *)
Definition FetchPageImpl (s : t) (page_id : Z) : Outcome (option Z * t) :=
  match page_table_ s !! page_id with
  | Some index =>
    page ← frame s index;
    if pin_count_ page =? INT_MAX then Undefined
    else
      let page1 := mkPage (data_ page) (page_id_ page) (pin_count_ page + 1) (is_dirty_ page) in
      r1 ← (if pin_count_ page1 >? 0 then ClockReplacer.Pin (replacer_ s) index
            else Ok (replacer_ s));
      Ok (Some index,
          mk (set_frame (pages_ s) index page1) (page_table_ s) (free_list_ s)
             r1 (disk_manager_ s))
  | None =>
    if bool_decide (free_list_ s = []) && (ClockReplacer.Size (replacer_ s) =? 0)
    then Ok (None, s)
    else
      fs ← ReplaceAndUpdate s page_id false;
      Ok (Some fs.1, fs.2)
  end.

(** [page_table_.find(page_id)] is dereferenced unchecked: for a page that
    is not in the table this is the dereference of [end()]. *)
Definition UnpinPageImpl (s : t) (page_id : Z) (is_dirty : bool) : Outcome (bool * t) :=
  match page_table_ s !! page_id with
  | None => Undefined
  | Some frame_index =>
    page ← frame s frame_index;
    if pin_count_ page <=? 0 then Ok (false, s)
    else
      let count := pin_count_ page - 1 in
      r1 ← (if count =? 0 then ClockReplacer.Unpin (replacer_ s) frame_index
            else Ok (replacer_ s));
      Ok (true,
          mk (set_frame (pages_ s) frame_index
                (mkPage (data_ page) (page_id_ page) count (is_dirty_ page || is_dirty)))
             (page_table_ s) (free_list_ s) r1 (disk_manager_ s))
  end.

Definition FlushPageImpl (s : t) (page_id : Z) : Outcome (bool * t) :=
  match page_table_ s !! page_id with
  | None => Ok (false, s)
  | Some index =>
    page ← frame s index;
    if negb (page_id_ page =? INVALID_PAGE_ID) && is_dirty_ page then
      Ok (true,
          mk (set_frame (pages_ s) index
                (mkPage (data_ page) (page_id_ page) (pin_count_ page) false))
             (page_table_ s) (free_list_ s) (replacer_ s)
             (DiskManager.WritePage (disk_manager_ s) (page_id_ page) (data_ page)))
    else Ok (true, s)
  end.

(** The result: the returned pointer (a frame index, [None] for null), the
    value written to [*page_id], and the pool. *)
Definition NewPageImpl (s : t) : Outcome (option Z * Z * t) :=
  if bool_decide (free_list_ s = []) && (ClockReplacer.Size (replacer_ s) =? 0)
  then Ok (None, INVALID_PAGE_ID, s)
  else
    let al := DiskManager.AllocatePage (disk_manager_ s) in
    let s1 := mk (pages_ s) (page_table_ s) (free_list_ s) (replacer_ s) al.2 in
    fs ← ReplaceAndUpdate s1 al.1 true;
    Ok (Some fs.1, al.1, fs.2).

Definition DeletePageImpl (s : t) (page_id : Z) : Outcome (bool * t) :=
  match page_table_ s !! page_id with
  | None =>
    Ok (true,
        mk (pages_ s) (page_table_ s) (free_list_ s) (replacer_ s)
           (DiskManager.DeallocatePage (disk_manager_ s) page_id))
  | Some index =>
    page ← frame s index;
    if pin_count_ page >? 0 then Ok (false, s)
    else
      r1 ← ClockReplacer.Pin (replacer_ s) index;
      Ok (false,
          mk (set_frame (pages_ s) index
                (mkPage zero_bytes INVALID_PAGE_ID (pin_count_ page) false))
             (delete page_id (page_table_ s))
             (free_list_ s ++ [index])
             r1
             (DiskManager.DeallocatePage (disk_manager_ s) page_id))
  end.

(** The test of [FlushPageImpl] and [FlushAllPagesImpl] on a frame, and the
    frame once it is flushed. *)
Definition needs_flush (page : Page) : bool :=
  negb (page_id_ page =? INVALID_PAGE_ID) && is_dirty_ page.

Definition flushed (page : Page) : Page :=
  if needs_flush page
  then mkPage (data_ page) (page_id_ page) (pin_count_ page) false
  else page.

(** One turn of the loop of [FlushAllPagesImpl], at frame [i]. *)
Definition flush_frame (s : t) (i : nat) : t :=
  match pages_ s !! i with
  | Some page =>
    if negb (page_id_ page =? INVALID_PAGE_ID) && is_dirty_ page then
      mk (<[i := mkPage (data_ page) (page_id_ page) (pin_count_ page) false]> (pages_ s))
         (page_table_ s) (free_list_ s) (replacer_ s)
         (DiskManager.WritePage (disk_manager_ s) (page_id_ page) (data_ page))
    else s
  | None => s
  end.

Definition FlushAllPagesImpl (s : t) : t :=
  foldl flush_frame s (seq 0 (pool_size_ s)).

(** *** Residency, the pool invariant and the reachable pools *)

(** Page [p] is resident in frame [f], whose content is [page]. *)
Definition resident (s : t) (p f : Z) (page : Page) : Prop :=
  page_table_ s !! p = Some f ∧ frame s f = Ok page.

Definition in_pool (s : t) (f : Z) : Prop := 0 ≤ f < Z.of_nat (length (pages_ s)).

(** What every operation keeps.  The free list names each free frame once;
    a free frame holds a zeroed buffer and is clean; the page table points
    into the pool, never at a free frame, and at a frame that carries the id
    it is filed under. *)
Record bpm_inv (s : t) : Prop := {
  inv_replacer : ClockReplacer.wf (replacer_ s);
  inv_clock : length (ClockReplacer.clock (replacer_ s)) = length (pages_ s);
  inv_free_nodup : NoDup (free_list_ s);
  inv_free_pool : ∀ f, f ∈ free_list_ s → in_pool s f;
  inv_free_zero : ∀ f page, f ∈ free_list_ s → frame s f = Ok page →
                            data_ page = zero_bytes;
  inv_free_clean : ∀ f page, f ∈ free_list_ s → frame s f = Ok page →
                             is_dirty_ page = false;
  inv_table_pool : ∀ p f, page_table_ s !! p = Some f → in_pool s f;
  inv_table_free : ∀ p f, page_table_ s !! p = Some f → f ∉ free_list_ s;
  inv_table_id : ∀ p f page, page_table_ s !! p = Some f → frame s f = Ok page →
                             page_id_ page = p;
  inv_disk : 0 ≤ DiskManager.next_page_id (disk_manager_ s)
}.

(** A client that holds a pin on a page may overwrite its buffer through the
    pointer [FetchPage] or [NewPage] gave it. *)
Definition client_write (s : t) (f : Z) (page : Page) (bytes : list Z) : t :=
  mk (set_frame (pages_ s) f
        (mkPage bytes (page_id_ page) (pin_count_ page) (is_dirty_ page)))
     (page_table_ s) (free_list_ s) (replacer_ s) (disk_manager_ s).

(** One call that returns, or one write of a client. *)
Inductive step : t → t → Prop :=
| step_Fetch s p res s' : FetchPageImpl s p = Ok (res, s') → step s s'
| step_Unpin s p d res s' : UnpinPageImpl s p d = Ok (res, s') → step s s'
| step_Flush s p res s' : FlushPageImpl s p = Ok (res, s') → step s s'
| step_New s res id s' : NewPageImpl s = Ok (res, id, s') → step s s'
| step_Delete s p res s' : DeletePageImpl s p = Ok (res, s') → step s s'
| step_FlushAll s : step s (FlushAllPagesImpl s)
| step_write s p f page bytes :
    resident s p f page → 0 < pin_count_ page → length bytes = PAGE_SIZE →
    step s (client_write s f page bytes).

(** The pools the operations produce from a new pool whose frames an [int]
    can number, over a disk that has handed out the ids below its counter. *)
Inductive reachable : t → Prop :=
| reachable_new pool_size disk :
    Z.of_nat pool_size ≤ 2 ^ 31 → 0 ≤ DiskManager.next_page_id disk →
    reachable (new pool_size disk)
| reachable_step s s' : reachable s → step s s' → reachable s'.

(** The candidates of the replacer are frames of unpinned resident pages:
    a present slot [i] of the clock is a frame with pin count 0 whose page
    the page table files under frame [i]. *)
Definition cand_inv (s : t) : Prop :=
  ∀ i b, ClockReplacer.clock (replacer_ s) !! i = Some (true, b) →
    ∃ page, frame s (Z.of_nat i) = Ok page ∧ pin_count_ page = 0 ∧
            page_table_ s !! page_id_ page = Some (Z.of_nat i).

(** A caller holds a pin on page [p]: frame [f] carries the id [p] and its
    pin count is positive. *)
Definition holds_pin (s : t) (p f : Z) (page : Page) : Prop :=
  frame s f = Ok page ∧ page_id_ page = p ∧ 0 < pin_count_ page.

(** Every pinned frame is filed in the page table under the id it carries,
    and the page table holds only ids below the counter of the disk manager,
    so that the id [AllocatePage] hands out next is not in it. *)
Record pin_inv (s : t) : Prop := {
  pin_filed : ∀ f page, frame s f = Ok page → 0 < pin_count_ page →
                        page_table_ s !! page_id_ page = Some f;
  pin_below : ∀ p f, page_table_ s !! p = Some f →
                     p < DiskManager.next_page_id (disk_manager_ s)
}.

(** One call that returns, or one write of a client, where [FetchPage] is
    asked only for ids below the counter of the disk manager: the ids that
    [AllocatePage] has handed out.  The other calls are as in [step]. *)
Inductive step_allocated : t → t → Prop :=
| allocated_Fetch s p res s' :
    p < DiskManager.next_page_id (disk_manager_ s) →
    FetchPageImpl s p = Ok (res, s') → step_allocated s s'
| allocated_Unpin s p d res s' :
    UnpinPageImpl s p d = Ok (res, s') → step_allocated s s'
| allocated_Flush s p res s' :
    FlushPageImpl s p = Ok (res, s') → step_allocated s s'
| allocated_New s res id s' :
    NewPageImpl s = Ok (res, id, s') → step_allocated s s'
| allocated_Delete s p res s' :
    DeletePageImpl s p = Ok (res, s') → step_allocated s s'
| allocated_FlushAll s : step_allocated s (FlushAllPagesImpl s)
| allocated_write s p f page bytes :
    resident s p f page → 0 < pin_count_ page → length bytes = PAGE_SIZE →
    step_allocated s (client_write s f page bytes).

(** The pools these calls produce from a new pool. *)
Inductive reachable_allocated : t → Prop :=
| reachable_allocated_new pool_size disk :
    Z.of_nat pool_size ≤ 2 ^ 31 → 0 ≤ DiskManager.next_page_id disk →
    reachable_allocated (new pool_size disk)
| reachable_allocated_step s s' :
    reachable_allocated s → step_allocated s s' → reachable_allocated s'.

End BufferPoolManager.

(** ** Concrete states

    The states at which the theorems below are instantiated. *)

Module Examples.

(** An [int]-[int] block page (8-byte pairs, 496 slots), all bits clear. *)
Definition empty_block : HashTableBlockPage.Block Z Z :=
  HashTableBlockPage.mkBlock (replicate 62 0%Z) (replicate 62 0%Z) (replicate 496 (0%Z, 0%Z)).

(** A replacer of three frames after [Unpin(0)]: frame 0 is the only
    candidate, its reference bit is set, the hand is at slot 0. *)
Definition one_candidate : ClockReplacer.t :=
  ClockReplacer.mk [(true, true); (false, false); (false, false)] 0 1.

(** A disk on which nothing was allocated yet. *)
Definition disk0 : DiskManager.t := DiskManager.mk 0 ∅ [].

(** A pool of three frames: new; after [NewPage] (page 0 in frame 0, pinned);
    after [UnpinPage(0, false)]; after [DeletePage(0)]. *)
Definition pool0 : BufferPoolManager.t := BufferPoolManager.new 3 disk0.

Definition pool_pinned : BufferPoolManager.t :=
  BufferPoolManager.mk
    [BufferPoolManager.mkPage BufferPoolManager.zero_bytes 0 1 true;
     BufferPoolManager.new_Page; BufferPoolManager.new_Page]
    {[ 0%Z := 0%Z ]} [1%Z; 2%Z] (ClockReplacer.new 3)
    (DiskManager.mk 1 ∅ [DiskManager.AllocatePage_call 0]).

Definition pool_unpinned : BufferPoolManager.t :=
  BufferPoolManager.mk
    [BufferPoolManager.mkPage BufferPoolManager.zero_bytes 0 0 true;
     BufferPoolManager.new_Page; BufferPoolManager.new_Page]
    {[ 0%Z := 0%Z ]} [1%Z; 2%Z] one_candidate
    (DiskManager.mk 1 ∅ [DiskManager.AllocatePage_call 0]).

Definition pool_deleted : BufferPoolManager.t :=
  BufferPoolManager.mk
    [BufferPoolManager.new_Page; BufferPoolManager.new_Page; BufferPoolManager.new_Page]
    ∅ [1%Z; 2%Z; 0%Z] (ClockReplacer.new 3)
    (DiskManager.mk 1 ∅ [DiskManager.DeallocatePage_call 0;
                          DiskManager.AllocatePage_call 0]).

(** A pool of one frame whose only page, page 0, is dirty and unpinned: the
    free list is empty and the replacer has one candidate. *)
Definition pool_full : BufferPoolManager.t :=
  BufferPoolManager.mk
    [BufferPoolManager.mkPage BufferPoolManager.zero_bytes 0 0 true]
    {[ 0%Z := 0%Z ]} [] (ClockReplacer.mk [(true, true)] 0 1)
    (DiskManager.mk 1 ∅ [DiskManager.AllocatePage_call 0]).

(** The same pool while page 0 is still pinned: no frame can be had. *)
Definition pool_full_pinned : BufferPoolManager.t :=
  BufferPoolManager.mk
    [BufferPoolManager.mkPage BufferPoolManager.zero_bytes 0 1 true]
    {[ 0%Z := 0%Z ]} [] (ClockReplacer.new 1)
    (DiskManager.mk 1 ∅ [DiskManager.AllocatePage_call 0]).

(** A replacer of three frames with two candidates: frame 0, under the
    hand, has its reference bit set; frame 1 has it clear. *)
Definition two_candidates : ClockReplacer.t :=
  ClockReplacer.mk [(true, true); (true, false); (false, false)] 0 2.

(** The pool of three frames after [FetchPage(0)] on the disk that has not
    allocated page 0 yet: the id the disk hands out next is in the page
    table already. *)
Definition pool_stale : BufferPoolManager.t :=
  BufferPoolManager.mk
    [BufferPoolManager.mkPage BufferPoolManager.zero_bytes 0 1 false;
     BufferPoolManager.new_Page; BufferPoolManager.new_Page]
    {[ 0%Z := 0%Z ]} [1%Z; 2%Z] (ClockReplacer.new 3)
    (DiskManager.mk 0 ∅ [DiskManager.ReadPage_call 0]).

(** A pool of two frames on [disk0], where a client asks for page 0 before
    the disk manager has handed that id out: after [FetchPage(0)] (page 0 in
    frame 0); after [NewPage], which receives the id 0 and frame 1 while the
    page table keeps its entry for frame 0; after [UnpinPage(0, false)],
    which releases frame 0; after a second [NewPage], which receives the id
    1, evicts frame 0 and erases the entry of page 0. *)
Definition pool_two_fetched : BufferPoolManager.t :=
  BufferPoolManager.mk
    [BufferPoolManager.mkPage BufferPoolManager.zero_bytes 0 1 false;
     BufferPoolManager.new_Page]
    {[ 0%Z := 0%Z ]} [1%Z] (ClockReplacer.new 2)
    (DiskManager.mk 0 ∅ [DiskManager.ReadPage_call 0]).

Definition pool_two_twice : BufferPoolManager.t :=
  BufferPoolManager.mk
    [BufferPoolManager.mkPage BufferPoolManager.zero_bytes 0 1 false;
     BufferPoolManager.mkPage BufferPoolManager.zero_bytes 0 1 true]
    {[ 0%Z := 0%Z ]} [] (ClockReplacer.new 2)
    (DiskManager.mk 1 ∅ [DiskManager.AllocatePage_call 0;
                          DiskManager.ReadPage_call 0]).

Definition pool_two_released : BufferPoolManager.t :=
  BufferPoolManager.mk
    [BufferPoolManager.mkPage BufferPoolManager.zero_bytes 0 0 false;
     BufferPoolManager.mkPage BufferPoolManager.zero_bytes 0 1 true]
    {[ 0%Z := 0%Z ]} [] (ClockReplacer.mk [(true, true); (false, false)] 0 1)
    (DiskManager.mk 1 ∅ [DiskManager.AllocatePage_call 0;
                          DiskManager.ReadPage_call 0]).

Definition pool_lost_entry : BufferPoolManager.t :=
  BufferPoolManager.mk
    [BufferPoolManager.mkPage BufferPoolManager.zero_bytes 1 1 true;
     BufferPoolManager.mkPage BufferPoolManager.zero_bytes 0 1 true]
    {[ 1%Z := 0%Z ]} [] (ClockReplacer.new 2)
    (DiskManager.mk 2 ∅ [DiskManager.AllocatePage_call 1;
                          DiskManager.AllocatePage_call 0;
                          DiskManager.ReadPage_call 0]).

End Examples.
(** * Theorems *)

(** ** Hash table block page *)

Module HashTableBlockPageFacts.
Import HashTableBlockPage Examples.

Lemma mask_lookup (i : nat) :
  ∃ m, N_TH_BIT_MASK !! (i mod 8) = Some m ∧
       (∀ c, Z.land (Z.lor c m) m ≠ 0%Z) ∧
       (∀ c, Z.land (Z.land c (to_char (Z.lnot m))) m = 0%Z).
Proof.
  assert (Hlt : i mod 8 < 8) by (apply Nat.mod_upper_bound; lia).
  assert (Hset : ∀ c m, (0 < m)%Z → Z.land (Z.lor c m) m ≠ 0%Z).
  { intros c m Hm Heq.
    assert (Z.land (Z.lor c m) m = m) as Habs.
    { apply Z.bits_inj'. intros n _.
      rewrite Z.land_spec, Z.lor_spec. destruct (Z.testbit c n), (Z.testbit m n); done. }
    lia. }
  assert (Hunset : ∀ c m, Z.land (to_char (Z.lnot m)) m = 0%Z →
                          Z.land (Z.land c (to_char (Z.lnot m))) m = 0%Z).
  { intros c m Hm. by rewrite <- Z.land_assoc, Hm, Z.land_0_r. }
  destruct (i mod 8) as [|[|[|[|[|[|[|[|n]]]]]]]]; try lia;
    (eexists; split; [reflexivity | split; intros c; [apply Hset; lia | apply Hunset; reflexivity]]).
Qed.

Lemma byte_index_bound (n i : nat) : i < n → i / 8 < (n - 1) / 8 + 1.
Proof.
  intros Hi.
  assert (i / 8 ≤ (n - 1) / 8) by (apply Nat.Div0.div_le_mono; lia).
  lia.
Qed.

Lemma get_after_set (arr : list Z) (i : nat) :
  i / 8 < length arr →
  ∃ arr', SET_N_TH_BIT arr i = Some arr' ∧ length arr' = length arr ∧
          GET_N_TH_BIT arr' i = Some true.
Proof.
  intros Hlen. unfold SET_N_TH_BIT, GET_N_TH_BIT.
  destruct (lookup_lt_is_Some_2 arr (i / 8) Hlen) as [c Hc].
  destruct (mask_lookup i) as (m & Hm & Hset & _).
  rewrite Hc, Hm. simpl. eexists. split; [reflexivity|].
  rewrite length_insert. split; [done|].
  rewrite list_lookup_insert_eq by done. simpl.
  specialize (Hset c). destruct (Z.eqb_spec (Z.land (Z.lor c m) m) 0); done.
Qed.

Lemma get_after_unset (arr : list Z) (i : nat) :
  i / 8 < length arr →
  ∃ arr', UNSET_N_TH_BIT arr i = Some arr' ∧ length arr' = length arr ∧
          GET_N_TH_BIT arr' i = Some false.
Proof.
  intros Hlen. unfold UNSET_N_TH_BIT, GET_N_TH_BIT.
  destruct (lookup_lt_is_Some_2 arr (i / 8) Hlen) as [c Hc].
  destruct (mask_lookup i) as (m & Hm & _ & Hunset).
  rewrite Hc, Hm. simpl. eexists. split; [reflexivity|].
  rewrite length_insert. split; [done|].
  rewrite list_lookup_insert_eq by done. simpl.
  by rewrite Hunset.
Qed.

Lemma get_in_range (arr : list Z) (i : nat) :
  i / 8 < length arr → ∃ bit, GET_N_TH_BIT arr i = Some bit.
Proof.
  intros Hlen. unfold GET_N_TH_BIT.
  destruct (lookup_lt_is_Some_2 arr (i / 8) Hlen) as [c Hc].
  destruct (mask_lookup i) as (m & Hm & _).
  rewrite Hc, Hm. simpl. eauto.
Qed.

Section Laws.
Context {K V : Type}.
Variable sizeof_MappingType : nat.

Lemma Insert_in_range (b : Block K V) (i : nat) (k : K) (v : V) :
  block_shape sizeof_MappingType b → i < BLOCK_ARRAY_SIZE sizeof_MappingType →
  ∃ was, IsReadable b i = Some was ∧
    if was then Insert b i k v = Some (false, b)
    else ∃ b1, Insert b i k v = Some (true, b1) ∧ block_shape sizeof_MappingType b1 ∧
               IsReadable b1 i = Some true ∧ IsOccupied b1 i = Some true ∧
               KeyAt b1 i = Some k ∧ ValueAt b1 i = Some v.
Proof.
  intros (Hocc & Hrd & Harr) Hi.
  pose proof (byte_index_bound _ _ Hi) as Hbyte.
  destruct (get_in_range (readable_ b) i) as [was Hwas]; [lia|].
  exists was. split; [done|].
  unfold Insert. unfold IsReadable in Hwas. rewrite Hwas. simpl.
  destruct was; [done|].
  destruct (get_after_set (occupied_ b) i) as (occ & Hso & Hlo & Hgo); [lia|].
  destruct (get_after_set (readable_ b) i) as (rd & Hsr & Hlr & Hgr); [lia|].
  destruct (lookup_lt_is_Some_2 (array_ b) i) as [kv Hkv]; [lia|].
  rewrite Hso, Hsr, Hkv. simpl.
  eexists. split; [reflexivity|].
  unfold block_shape, IsReadable, IsOccupied, KeyAt, ValueAt. simpl.
  rewrite length_insert, list_lookup_insert_eq by lia.
  repeat split; try done;
    [rewrite Hlo; exact Hocc | rewrite Hlr; exact Hrd].
Qed.

Lemma Remove_in_range (b : Block K V) (i : nat) :
  block_shape sizeof_MappingType b → i < BLOCK_ARRAY_SIZE sizeof_MappingType →
  ∃ b2, Remove b i = Some b2 ∧ block_shape sizeof_MappingType b2 ∧
        IsReadable b2 i = Some false ∧ IsOccupied b2 i = IsOccupied b i ∧
        occupied_ b2 = occupied_ b ∧ array_ b2 = array_ b.
Proof.
  intros (Hocc & Hrd & Harr) Hi.
  pose proof (byte_index_bound _ _ Hi) as Hbyte.
  destruct (get_after_unset (readable_ b) i) as (rd & Hur & Hlr & Hgr); [lia|].
  unfold Remove. rewrite Hur. simpl.
  eexists. split; [reflexivity|].
  unfold block_shape, IsReadable, IsOccupied. simpl.
  repeat split; try done. rewrite Hlr; exact Hrd.
Qed.

(** C8.  For a slot [i] below [BLOCK_ARRAY_SIZE] of a block page of the
    declared shape: [Insert(i, k, v)] returns false exactly when the readable
    bit of [i] is set; when it returns true, the slot is readable and
    occupied and holds [k] and [v]; [Remove(i)] clears the readable bit and
    leaves the occupied bit as it was, so that a slot that was inserted is a
    tombstone afterwards; and an [Insert] at [i] right after [Remove(i)]
    succeeds. *)
Theorem Insert_Remove_laws (b : Block K V) (i : nat) (k : K) (v : V) :
  block_shape sizeof_MappingType b → i < BLOCK_ARRAY_SIZE sizeof_MappingType →
  (∃ was res b1,
      IsReadable b i = Some was ∧ Insert b i k v = Some (res, b1) ∧
      (res = false ↔ was = true) ∧
      (res = true →
         IsReadable b1 i = Some true ∧ IsOccupied b1 i = Some true ∧
         KeyAt b1 i = Some k ∧ ValueAt b1 i = Some v ∧
         ∃ b2, Remove b1 i = Some b2 ∧
               IsReadable b2 i = Some false ∧ IsOccupied b2 i = Some true)) ∧
  (∃ b2, Remove b i = Some b2 ∧
         IsReadable b2 i = Some false ∧ IsOccupied b2 i = IsOccupied b i ∧
         ∀ k' v', ∃ b3, Insert b2 i k' v' = Some (true, b3) ∧
                        KeyAt b3 i = Some k' ∧ ValueAt b3 i = Some v').
Proof.
  intros Hshape Hi. split.
  - destruct (Insert_in_range b i k v Hshape Hi) as (was & Hwas & Hins).
    destruct was.
    + exists true, false, b. repeat split; try done.
    + destruct Hins as (b1 & Hins & Hshape1 & Hr & Ho & Hk & Hv).
      exists false, true, b1. repeat split; try done.
      destruct (Remove_in_range b1 i Hshape1 Hi) as (b2 & Hrem & _ & Hr2 & Ho2 & _).
      exists b2. by rewrite Ho2.
  - destruct (Remove_in_range b i Hshape Hi) as (b2 & Hrem & Hshape2 & Hr2 & Ho2 & _).
    exists b2. repeat split; try done.
    intros k' v'.
    destruct (Insert_in_range b2 i k' v' Hshape2 Hi) as (was & Hwas & Hins).
    rewrite Hr2 in Hwas. injection Hwas as <-.
    destruct Hins as (b3 & Hins & _ & _ & _ & Hk & Hv). eauto.
Qed.

End Laws.

Lemma Insert_Remove_laws_witness :
  block_shape 8 empty_block ∧ 3 < BLOCK_ARRAY_SIZE 8 ∧
  ∃ b2, Remove empty_block 3 = Some b2 ∧ IsReadable b2 3 = Some false.
Proof.
  assert (Hs : block_shape 8 empty_block) by (vm_compute; done).
  assert (Hi : 3 < BLOCK_ARRAY_SIZE 8) by (vm_compute; lia).
  split; [exact Hs|]. split; [exact Hi|].
  destruct (Insert_Remove_laws 8 empty_block 3 7%Z 9%Z Hs Hi) as [_ (b2 & Hrem & Hr & _)].
  exists b2. done.
Defined.

(** *** Slots do not disturb each other *)

Lemma mask_pair (a b : nat) :
  a < 8 → b < 8 → a ≠ b →
  ∃ ma mb, N_TH_BIT_MASK !! a = Some ma ∧ N_TH_BIT_MASK !! b = Some mb ∧
           Z.land ma mb = 0%Z ∧ Z.land (to_char (Z.lnot ma)) mb = mb.
Proof.
  intros Ha Hb Hab.
  destruct a as [|[|[|[|[|[|[|[|a]]]]]]]]; try lia;
    destruct b as [|[|[|[|[|[|[|[|b]]]]]]]]; try lia;
    (eexists _, _; split; [reflexivity|split; [reflexivity|split; reflexivity]]).
Qed.

Lemma same_byte_other_bit (i j : nat) : i ≠ j → i / 8 = j / 8 → i mod 8 ≠ j mod 8.
Proof.
  intros Hne Hdiv Hmod. apply Hne.
  rewrite (Nat.div_mod_eq i 8), (Nat.div_mod_eq j 8). congruence.
Qed.

Lemma GET_unfold (arr : list Z) (j : nat) (c m : Z) :
  arr !! (j / 8) = Some c → N_TH_BIT_MASK !! (j mod 8) = Some m →
  GET_N_TH_BIT arr j = Some (negb (Z.land c m =? 0)%Z).
Proof. intros Hc Hm. unfold GET_N_TH_BIT. by rewrite Hc, Hm. Qed.

Lemma GET_SET_same (arr arr' : list Z) (i : nat) :
  SET_N_TH_BIT arr i = Some arr' → GET_N_TH_BIT arr' i = Some true.
Proof.
  intros Hset.
  assert (Hlt : i / 8 < length arr).
  { unfold SET_N_TH_BIT in Hset. destruct (arr !! (i / 8)) eqn:Hc; [|done].
    by eapply lookup_lt_Some. }
  destruct (get_after_set arr i Hlt) as (arr0 & Hset0 & _ & Hget).
  congruence.
Qed.

Lemma GET_UNSET_same (arr arr' : list Z) (i : nat) :
  UNSET_N_TH_BIT arr i = Some arr' → GET_N_TH_BIT arr' i = Some false.
Proof.
  intros Hunset.
  assert (Hlt : i / 8 < length arr).
  { unfold UNSET_N_TH_BIT in Hunset. destruct (arr !! (i / 8)) eqn:Hc; [|done].
    by eapply lookup_lt_Some. }
  destruct (get_after_unset arr i Hlt) as (arr0 & Hunset0 & _ & Hget).
  congruence.
Qed.

Lemma GET_SET_other (arr arr' : list Z) (i j : nat) :
  i ≠ j → SET_N_TH_BIT arr i = Some arr' →
  GET_N_TH_BIT arr' j = GET_N_TH_BIT arr j.
Proof.
  intros Hne Hset. unfold SET_N_TH_BIT in Hset.
  destruct (arr !! (i / 8)) as [c|] eqn:Hc; [|done].
  destruct (mask_lookup i) as (m & Hm & _). rewrite Hm in Hset. simpl in Hset.
  injection Hset as <-.
  destruct (decide (i / 8 = j / 8)) as [Heq|Hbyte].
  - destruct (mask_pair (i mod 8) (j mod 8)) as (ma & mb & Hma & Hmb & Hdis & _);
      [apply Nat.mod_upper_bound; lia..|by apply same_byte_other_bit|].
    rewrite Hm in Hma. injection Hma as <-.
    rewrite (GET_unfold _ j (Z.lor c m) mb), (GET_unfold arr j c mb); try done.
    + by rewrite Z.land_lor_distr_l, Hdis, Z.lor_0_r.
    + by rewrite <- Heq.
    + rewrite <- Heq. apply list_lookup_insert_eq. by eapply lookup_lt_Some.
  - unfold GET_N_TH_BIT. by rewrite list_lookup_insert_ne.
Qed.

Lemma GET_UNSET_other (arr arr' : list Z) (i j : nat) :
  i ≠ j → UNSET_N_TH_BIT arr i = Some arr' →
  GET_N_TH_BIT arr' j = GET_N_TH_BIT arr j.
Proof.
  intros Hne Hset. unfold UNSET_N_TH_BIT in Hset.
  destruct (arr !! (i / 8)) as [c|] eqn:Hc; [|done].
  destruct (mask_lookup i) as (m & Hm & _). rewrite Hm in Hset. simpl in Hset.
  injection Hset as <-.
  destruct (decide (i / 8 = j / 8)) as [Heq|Hbyte].
  - destruct (mask_pair (i mod 8) (j mod 8)) as (ma & mb & Hma & Hmb & _ & Hkeep);
      [apply Nat.mod_upper_bound; lia..|by apply same_byte_other_bit|].
    rewrite Hm in Hma. injection Hma as <-.
    rewrite (GET_unfold _ j (Z.land c (to_char (Z.lnot m))) mb),
      (GET_unfold arr j c mb); try done.
    + by rewrite <- Z.land_assoc, Hkeep.
    + by rewrite <- Heq.
    + rewrite <- Heq. apply list_lookup_insert_eq. by eapply lookup_lt_Some.
  - unfold GET_N_TH_BIT. by rewrite list_lookup_insert_ne.
Qed.

Section Frames.
Context {K V : Type}.

Lemma Insert_inv (b : Block K V) (i : nat) (k : K) (v : V) (res : bool) (b1 : Block K V) :
  Insert b i k v = Some (res, b1) →
  (res = false ∧ b1 = b ∧ IsReadable b i = Some true) ∨
  (res = true ∧ IsReadable b i = Some false ∧
   ∃ occ rd, SET_N_TH_BIT (occupied_ b) i = Some occ ∧
             SET_N_TH_BIT (readable_ b) i = Some rd ∧
             i < length (array_ b) ∧
             b1 = mkBlock occ rd (<[i := (k, v)]> (array_ b))).
Proof.
  unfold Insert, IsReadable. intros Hins.
  destruct (GET_N_TH_BIT (readable_ b) i) as [[]|]; simpl in Hins; [|right|done].
  - injection Hins as <- <-. by left.
  - destruct (SET_N_TH_BIT (occupied_ b) i) as [occ|]; [|done].
    destruct (SET_N_TH_BIT (readable_ b) i) as [rd|]; [|done].
    destruct (array_ b !! i) as [kv|] eqn:Hkv; [|done].
    simpl in Hins. injection Hins as <- <-.
    split; [done|]. split; [done|]. exists occ, rd.
    split; [done|]. split; [done|]. split; [by eapply lookup_lt_Some|done].
Qed.

Lemma Remove_inv (b : Block K V) (i : nat) (b2 : Block K V) :
  Remove b i = Some b2 →
  ∃ rd, UNSET_N_TH_BIT (readable_ b) i = Some rd ∧
        b2 = mkBlock (occupied_ b) rd (array_ b).
Proof.
  unfold Remove. intros Hrem.
  destruct (UNSET_N_TH_BIT (readable_ b) i) as [rd|]; [|done].
  injection Hrem as <-. eauto.
Qed.

(** X1.  [Insert] and [Remove] at slot [i] leave every other slot [j] as it
    was: its readable bit, its occupied bit (also when both slots share a
    byte of the bit maps), its key and its value. *)
Theorem other_slots_untouched (b : Block K V) (i j : nat) :
  i ≠ j →
  (∀ k v res b1, Insert b i k v = Some (res, b1) →
     IsReadable b1 j = IsReadable b j ∧ IsOccupied b1 j = IsOccupied b j ∧
     KeyAt b1 j = KeyAt b j ∧ ValueAt b1 j = ValueAt b j) ∧
  (∀ b2, Remove b i = Some b2 →
     IsReadable b2 j = IsReadable b j ∧ IsOccupied b2 j = IsOccupied b j ∧
     KeyAt b2 j = KeyAt b j ∧ ValueAt b2 j = ValueAt b j).
Proof.
  intros Hne. split.
  - intros k v res b1 Hins.
    destruct (Insert_inv _ _ _ _ _ _ Hins)
      as [(_ & -> & _)|(_ & _ & occ & rd & Hocc & Hrd & _ & ->)]; [done|].
    unfold IsReadable, IsOccupied, KeyAt, ValueAt. simpl.
    rewrite (GET_SET_other _ _ _ _ Hne Hocc), (GET_SET_other _ _ _ _ Hne Hrd).
    by rewrite list_lookup_insert_ne.
  - intros b2 Hrem. destruct (Remove_inv _ _ _ Hrem) as (rd & Hrd & ->).
    unfold IsReadable, IsOccupied, KeyAt, ValueAt. simpl.
    by rewrite (GET_UNSET_other _ _ _ _ Hne Hrd).
Qed.

(** X2.  A slot that holds a live pair is not overwritten: after
    [Insert(i, k, v)] has returned true, a second [Insert(i, k', v')] returns
    false and leaves the block as it is, so that the slot still holds [k] and
    [v]; and [Remove(i)] leaves the pair in the slot array (only the readable
    bit tells that it is gone). *)
Theorem live_slot_kept (b : Block K V) (i : nat) (k : K) (v : V) (b1 : Block K V) :
  Insert b i k v = Some (true, b1) →
  (∀ k' v', Insert b1 i k' v' = Some (false, b1)) ∧
  KeyAt b1 i = Some k ∧ ValueAt b1 i = Some v ∧
  ∃ b2, Remove b1 i = Some b2 ∧ KeyAt b2 i = Some k ∧ ValueAt b2 i = Some v ∧
        IsReadable b2 i = Some false.
Proof.
  intros Hins.
  destruct (Insert_inv _ _ _ _ _ _ Hins)
    as [(Hres & _)|(_ & _ & occ & rd & Hocc & Hrd & Hlt & ->)]; [done|].
  pose proof (GET_SET_same _ _ _ Hrd) as Hget.
  assert (Hk : KeyAt (mkBlock occ rd (<[i:=(k, v)]> (array_ b))) i = Some k)
    by (unfold KeyAt; simpl; by rewrite list_lookup_insert_eq).
  assert (Hv : ValueAt (mkBlock occ rd (<[i:=(k, v)]> (array_ b))) i = Some v)
    by (unfold ValueAt; simpl; by rewrite list_lookup_insert_eq).
  split; [|split; [done|split; [done|]]].
  - intros k' v'. unfold Insert. simpl. by rewrite Hget.
  - assert (Hbyte : i / 8 < length rd).
    { unfold GET_N_TH_BIT in Hget. destruct (rd !! (i / 8)) eqn:Hc; [|done].
      by eapply lookup_lt_Some. }
    destruct (get_after_unset rd i Hbyte) as (rd' & Hunset & _ & Hget').
    eexists. unfold Remove. simpl. rewrite Hunset. simpl.
    split; [reflexivity|]. done.
Qed.

(** X3.  The occupied bit is sticky and covers the live slots.  [Insert] and
    [Remove], at whatever slot, never clear an occupied bit; and if every
    readable slot of a block is occupied, as in a zeroed page, this is still
    so after [Insert] and after [Remove]. *)
Theorem occupied_is_sticky (b : Block K V) (i : nat) :
  (∀ k v res b1, Insert b i k v = Some (res, b1) →
     (∀ j, IsOccupied b j = Some true → IsOccupied b1 j = Some true) ∧
     (live_is_occupied b → live_is_occupied b1)) ∧
  (∀ b2, Remove b i = Some b2 →
     (∀ j, IsOccupied b j = Some true → IsOccupied b2 j = Some true) ∧
     (live_is_occupied b → live_is_occupied b2)) ∧
  (∀ n m (arr : list (K * V)),
     live_is_occupied (mkBlock (replicate n 0%Z) (replicate m 0%Z) arr)).
Proof.
  split; [|split].
  - intros k v res b1 Hins.
    destruct (Insert_inv _ _ _ _ _ _ Hins)
      as [(_ & -> & _)|(_ & _ & occ & rd & Hocc & Hrd & _ & ->)]; [done|].
    assert (Hsticky : ∀ j, GET_N_TH_BIT (occupied_ b) j = Some true →
                           GET_N_TH_BIT occ j = Some true).
    { intros j Hj. destruct (decide (i = j)) as [<-|Hne].
      - by eapply GET_SET_same.
      - by rewrite (GET_SET_other _ _ _ _ Hne Hocc). }
    split; [exact Hsticky|].
    intros Hlive j. unfold live_is_occupied in *. simpl.
    destruct (decide (i = j)) as [<-|Hne].
    + intros _. by eapply GET_SET_same.
    + rewrite (GET_SET_other _ _ _ _ Hne Hrd). intros Hj. by apply Hsticky, Hlive.
  - intros b2 Hrem. destruct (Remove_inv _ _ _ Hrem) as (rd & Hrd & ->).
    split; [done|].
    intros Hlive j. unfold live_is_occupied in *. simpl.
    destruct (decide (i = j)) as [<-|Hne].
    + rewrite (GET_UNSET_same _ _ _ Hrd). done.
    + rewrite (GET_UNSET_other _ _ _ _ Hne Hrd). apply Hlive.
  - intros n m arr j Hj. exfalso. unfold GET_N_TH_BIT in Hj.
    cbn [readable_] in Hj.
    destruct (replicate m 0%Z !! (j / 8)) as [c|] eqn:Hc; [|done].
    apply lookup_replicate in Hc as [-> _].
    destruct (N_TH_BIT_MASK !! (j mod 8)) as [mask|]; [|done].
    cbn in Hj. done.
Qed.

End Frames.

Lemma other_slots_untouched_witness :
  3 ≠ 4 ∧
  ∃ b1, Insert empty_block 3 7%Z 9%Z = Some (true, b1) ∧
        IsReadable b1 4 = IsReadable empty_block 4.
Proof.
  assert (Hne : 3 ≠ 4) by lia.
  split; [exact Hne|].
  eexists. split; [vm_compute; reflexivity|].
  eapply (proj1 (other_slots_untouched empty_block 3 4 Hne)).
  vm_compute. reflexivity.
Defined.

Lemma live_slot_kept_witness :
  ∃ b1, Insert empty_block 3 7%Z 9%Z = Some (true, b1) ∧ KeyAt b1 3 = Some 7%Z.
Proof.
  eexists. split; [vm_compute; reflexivity|].
  eapply (live_slot_kept empty_block 3 7%Z 9%Z). vm_compute. reflexivity.
Defined.

Lemma occupied_is_sticky_witness :
  ∃ b1, Insert empty_block 3 7%Z 9%Z = Some (true, b1) ∧ live_is_occupied b1.
Proof.
  eexists. split; [vm_compute; reflexivity|].
  destruct (occupied_is_sticky empty_block 3) as (Hins & _ & Hzero).
  eapply Hins; [vm_compute; reflexivity|]. apply (Hzero 62%nat 62%nat).
Defined.

End HashTableBlockPageFacts.

(** ** Clock replacer *)

Module ClockReplacerFacts.
Import ClockReplacer Examples.

(** *** Counting the present entries *)

Lemma present_count_app (c1 c2 : list (bool * bool)) :
  present_count (c1 ++ c2) = present_count c1 + present_count c2.
Proof. unfold present_count. by rewrite filter_app, length_app. Qed.

Lemma present_count_cons (e : bool * bool) (c : list (bool * bool)) :
  present_count (e :: c) = (if present e then 1 else 0) + present_count c.
Proof.
  unfold present_count. rewrite filter_cons.
  destruct (decide (present e = true)) as [->|Hn]; [done|].
  by destruct (present e).
Qed.

Lemma present_count_insert (c : list (bool * bool)) (i : nat) (e e' : bool * bool) :
  c !! i = Some e →
  present_count (<[i := e']> c) + (if present e then 1 else 0)
  = present_count c + (if present e' then 1 else 0).
Proof.
  intros Hi.
  assert (Hlt : i < length c) by (by eapply lookup_lt_Some).
  rewrite insert_take_drop by done.
  rewrite <- (take_drop_middle c i e Hi) at 3.
  rewrite !present_count_app, !present_count_cons. lia.
Qed.

Lemma present_count_le (c : list (bool * bool)) : present_count c ≤ length c.
Proof. apply length_filter. Qed.

Lemma present_count_pos (c : list (bool * bool)) :
  0 < present_count c → ∃ i b, c !! i = Some (true, b).
Proof.
  induction c as [|[p b] c IH]; [unfold present_count; simpl; lia|].
  rewrite present_count_cons. intros Hpos. destruct p.
  - exists 0, b. done.
  - simpl in Hpos. destruct (IH Hpos) as (i & b' & Hi). exists (S i), b'. done.
Qed.

Lemma present_count_zero (c : list (bool * bool)) (i : nat) (e : bool * bool) :
  present_count c = 0 → c !! i = Some e → present e = false.
Proof.
  intros Hz Hi. pose proof (present_count_insert c i e (false, false) Hi) as Hins.
  simpl in Hins. destruct (present e); [lia|done].
Qed.

(** *** The casts *)

Lemma static_cast_frame_id_t_small (h : nat) :
  (Z.of_nat h < 2 ^ 31)%Z → static_cast_frame_id_t h = Z.of_nat h.
Proof.
  intros Hh. unfold static_cast_frame_id_t.
  rewrite Z.mod_small by lia.
  destruct (Z.ltb_spec (Z.of_nat h) (2 ^ 31)); [done|lia].
Qed.

Lemma static_cast_size_t_nonneg (f : Z) :
  (0 ≤ f < 2 ^ 64)%Z → static_cast_size_t f = f.
Proof. intros Hf. unfold static_cast_size_t, size_t_wrap. by rewrite Z.mod_small. Qed.

Lemma static_cast_size_t_neg (f : Z) :
  (- 2 ^ 31 ≤ f < 0)%Z → static_cast_size_t f = (f + 2 ^ 64)%Z.
Proof.
  intros Hf. unfold static_cast_size_t, size_t_wrap.
  symmetry. apply Z.mod_unique with (q := (-1)%Z); lia.
Qed.

Lemma slot_of_nat (i : nat) :
  (Z.of_nat i < 2 ^ 64)%Z → slot_of (Z.of_nat i) = i.
Proof.
  intros Hi. unfold slot_of. rewrite static_cast_size_t_nonneg by lia. lia.
Qed.


(** *** [Pin] and [Unpin] *)

Lemma wf_size_bounds (r : t) :
  wf r → (0 ≤ size r ≤ Z.of_nat (length (clock r)))%Z ∧ (size r < 2 ^ 64 - 1)%Z.
Proof.
  intros [_ Hsize Hbound]. pose proof (present_count_le (clock r)). lia.
Qed.

Lemma wf_update (r : t) (i h : nat) (e e' : bool * bool) (z : Z) :
  wf r → clock r !! i = Some e → h < length (clock r) →
  (z + (if present e then 1 else 0) = size r + (if present e' then 1 else 0))%Z →
  wf (mk (<[i := e']> (clock r)) h z).
Proof.
  intros [Hhand Hsize Hbound] Hi Hh Hz.
  pose proof (present_count_insert (clock r) i e e' Hi) as Hcount.
  split; simpl.
  - by rewrite length_insert.
  - destruct (present e), (present e'); lia.
  - by rewrite length_insert.
Qed.

Lemma wf_hand_lt (r : t) (i : nat) (e : bool * bool) :
  wf r → clock r !! i = Some e → hand r < length (clock r).
Proof.
  intros Hwf Hi. apply (wf_hand r Hwf). intros Hnil. by rewrite Hnil in Hi.
Qed.

Lemma frame_in_range (r : t) (f : Z) :
  wf r → (0 ≤ f < Z.of_nat (length (clock r)))%Z →
  frame_assert r f = true ∧ ∃ e, clock r !! slot_of f = Some e ∧ slot_of f = Z.to_nat f.
Proof.
  intros Hwf Hf. pose proof (wf_bound r Hwf).
  unfold frame_assert, slot_of. rewrite static_cast_size_t_nonneg by lia.
  split; [apply Z.leb_le; lia|].
  destruct (lookup_lt_is_Some_2 (clock r) (Z.to_nat f)) as [e He]; [lia|]. eauto.
Qed.

Lemma Pin_in_range (r : t) (f : Z) :
  wf r → (0 ≤ f < Z.of_nat (length (clock r)))%Z →
  ∃ r', Pin r f = Ok r' ∧ wf r' ∧
        length (clock r') = length (clock r) ∧ hand r' = hand r ∧
        clock r' = <[Z.to_nat f := (NOT_EXISTS, NO_REF)]> (clock r).
Proof.
  intros Hwf Hf.
  destruct (frame_in_range r f Hwf Hf) as (Hassert & [first second] & He & Hslot).
  pose proof (wf_size_bounds r Hwf) as Hsz.
  pose proof (present_count_insert (clock r) _ _ (false, false) He) as Hcount.
  pose proof (wf_size r Hwf) as Hsize.
  unfold Pin. rewrite Hassert, He. simpl. rewrite Hslot in *.
  destruct first; eexists; (split; [reflexivity|]); simpl; rewrite ?length_insert;
    (split; [|done]).
  - eapply wf_update; [done|done|by eapply wf_hand_lt|]. simpl in *.
    unfold size_t_wrap. rewrite Z.mod_small; lia.
  - eapply wf_update; [done|done|by eapply wf_hand_lt|]. simpl. lia.
Qed.

Lemma Unpin_in_range (r : t) (f : Z) :
  wf r → (0 ≤ f < Z.of_nat (length (clock r)))%Z →
  ∃ r', Unpin r f = Ok r' ∧ wf r' ∧
        length (clock r') = length (clock r) ∧ hand r' = hand r ∧
        clock r' = <[Z.to_nat f := (EXISTS, REF)]> (clock r).
Proof.
  intros Hwf Hf.
  destruct (frame_in_range r f Hwf Hf) as (Hassert & [first second] & He & Hslot).
  pose proof (wf_size_bounds r Hwf) as Hsz.
  pose proof (present_count_insert (clock r) _ _ (true, true) He) as Hcount.
  pose proof (present_count_le (<[slot_of f := (true, true)]> (clock r))) as Hle.
  rewrite length_insert in Hle.
  pose proof (wf_size r Hwf) as Hsize. pose proof (wf_bound r Hwf) as Hbound.
  unfold Unpin. rewrite Hassert, He. simpl. rewrite Hslot in *.
  destruct first; eexists; (split; [reflexivity|]); simpl; rewrite ?length_insert;
    (split; [|done]).
  - eapply wf_update; [done|done|by eapply wf_hand_lt|]. simpl. lia.
  - eapply wf_update; [done|done|by eapply wf_hand_lt|]. simpl in *.
    unfold size_t_wrap. rewrite Z.mod_small; lia.
Qed.

Lemma wf_new (num_pages : nat) : (Z.of_nat num_pages ≤ 2 ^ 31)%Z → wf (new num_pages).
Proof.
  intros Hn. split; simpl.
  - rewrite length_replicate. destruct num_pages; [done|lia].
  - unfold present_count. induction num_pages as [|n IH]; [done|].
    simpl. rewrite filter_cons. simpl.
    destruct (decide (present (NOT_EXISTS, NO_REF) = true)) as [Hp|_]; [done|].
    apply IH. lia.
  - by rewrite length_replicate.
Qed.

(** C10.  [Pin(f)] and [Unpin(f)] assert [f <= clock.size()] and then index
    [clock[f]].  For a frame id [f] (a 32-bit integer) and a clock no longer
    than the frame ids reach: the assertion holds exactly for
    [0 <= f <= num_pages], the access is inside the array exactly for
    [0 <= f < num_pages], both calls return exactly then, and at
    [f = num_pages] the assertion passes and the access is out of bounds. *)
Theorem Pin_Unpin_bounds (r : t) (f : Z) :
  (Z.of_nat (length (clock r)) ≤ 2 ^ 31)%Z → (- 2 ^ 31 ≤ f < 2 ^ 31)%Z →
  (frame_assert r f = true ↔ (0 ≤ f ≤ Z.of_nat (length (clock r)))%Z) ∧
  (is_Some (clock r !! slot_of f) ↔ (0 ≤ f < Z.of_nat (length (clock r)))%Z) ∧
  (returns (Pin r f) ↔ (0 ≤ f < Z.of_nat (length (clock r)))%Z) ∧
  (returns (Unpin r f) ↔ (0 ≤ f < Z.of_nat (length (clock r)))%Z) ∧
  (f = Z.of_nat (length (clock r)) →
     frame_assert r f = true ∧ Pin r f = Undefined ∧ Unpin r f = Undefined).
Proof.
  intros Hlen Hf.
  assert (Hassert : frame_assert r f = true ↔ (0 ≤ f ≤ Z.of_nat (length (clock r)))%Z).
  { unfold frame_assert. rewrite Z.leb_le.
    destruct (Z.lt_ge_cases f 0).
    - rewrite static_cast_size_t_neg by lia. lia.
    - rewrite static_cast_size_t_nonneg by lia. lia. }
  assert (Hslot : is_Some (clock r !! slot_of f) ↔ (0 ≤ f < Z.of_nat (length (clock r)))%Z).
  { rewrite lookup_lt_is_Some. unfold slot_of.
    destruct (Z.lt_ge_cases f 0).
    - rewrite static_cast_size_t_neg by lia. lia.
    - rewrite static_cast_size_t_nonneg by lia. lia. }
  assert (HPin : returns (Pin r f) ↔ is_Some (clock r !! slot_of f)).
  { unfold Pin, returns. split.
    - intros [r' Hr']. destruct (clock r !! slot_of f); [eauto|].
      by destruct (negb (frame_assert r f)).
    - intros Hs. pose proof Hs as [[first second] He].
      apply Hslot in Hs. assert (frame_assert r f = true) as -> by (apply Hassert; lia).
      rewrite He. simpl. destruct first; eauto. }
  assert (HUnpin : returns (Unpin r f) ↔ is_Some (clock r !! slot_of f)).
  { unfold Unpin, returns. split.
    - intros [r' Hr']. destruct (clock r !! slot_of f); [eauto|].
      by destruct (negb (frame_assert r f)).
    - intros Hs. pose proof Hs as [[first second] He].
      apply Hslot in Hs. assert (frame_assert r f = true) as -> by (apply Hassert; lia).
      rewrite He. simpl. destruct first; eauto. }
  split; [done|]. split; [done|].
  split; [by rewrite HPin|]. split; [by rewrite HUnpin|].
  intros Heq.
  assert (Ha : frame_assert r f = true) by (apply Hassert; lia).
  assert (Hnone : clock r !! slot_of f = None).
  { apply eq_None_not_Some. rewrite Hslot. lia. }
  unfold Pin, Unpin. rewrite Ha, Hnone. done.
Qed.

(** At a replacer of three frames, frame id 3 passes the assertion of [Pin]
    and is out of bounds. *)
Lemma Pin_Unpin_bounds_witness :
  frame_assert (new 3) 3 = true ∧ Pin (new 3) 3 = Undefined ∧ Unpin (new 3) 3 = Undefined.
Proof.
  assert (Hlen : (Z.of_nat (length (clock (new 3))) ≤ 2 ^ 31)%Z) by (vm_compute; done).
  assert (Hf : (- 2 ^ 31 ≤ 3 < 2 ^ 31)%Z) by lia.
  destruct (Pin_Unpin_bounds (new 3) 3 Hlen Hf) as (_ & _ & _ & _ & Hedge).
  apply Hedge. reflexivity.
Defined.


(** *** The sweep of [Victim] *)

Lemma Victim_loop_step (fuel : nat) (r : t) (p b : bool) :
  hand r < length (clock r) → clock r !! hand r = Some (p, b) →
  Victim_loop (S fuel) r =
    if p && negb b
    then Ok (static_cast_frame_id_t (hand r),
             mk (<[hand r := (NOT_EXISTS, b)]> (clock r)) (hand r)
                (size_t_wrap (size r - 1)))
    else Victim_loop fuel (advance r).
Proof.
  intros Hh He. simpl. unfold advance. rewrite He.
  destruct (Nat.ltb_spec (hand r) (length (clock r))); [|lia].
  simpl. by destruct p, b.
Qed.

Lemma Victim_loop_assert (fuel : nat) (r : t) :
  ¬ hand r < length (clock r) → Victim_loop (S fuel) r = AssertFail.
Proof.
  intros Hh. simpl. by destruct (Nat.ltb_spec (hand r) (length (clock r))).
Qed.

Lemma advance_length (r : t) : length (clock (advance r)) = length (clock r).
Proof.
  unfold advance. destruct (clock r !! hand r) as [[[] []]|]; simpl;
    by rewrite ?length_insert.
Qed.

Lemma advance_hand (r : t) :
  hand (advance r) = (hand r + 1) mod length (clock r).
Proof. unfold advance. by destruct (clock r !! hand r) as [[[] []]|]. Qed.

Lemma advance_size (r : t) : size (advance r) = size r.
Proof. unfold advance. by destruct (clock r !! hand r) as [[[] []]|]. Qed.

Lemma advance_hand_lt (r : t) :
  hand r < length (clock r) → hand (advance r) < length (clock (advance r)).
Proof.
  intros Hh. rewrite advance_length, advance_hand.
  apply Nat.mod_upper_bound. lia.
Qed.

Lemma advance_other (r : t) (i : nat) :
  i ≠ hand r → clock (advance r) !! i = clock r !! i.
Proof.
  intros Hi. unfold advance. destruct (clock r !! hand r) as [[[] []]|]; simpl;
    by rewrite ?list_lookup_insert_ne.
Qed.

Lemma advance_here (r : t) (p b : bool) :
  clock r !! hand r = Some (p, b) →
  clock (advance r) !! hand r = Some (p, if p then false else b).
Proof.
  intros He. unfold advance. rewrite He.
  assert (hand r < length (clock r)) by (by eapply lookup_lt_Some).
  destruct p, b; simpl; rewrite ?list_lookup_insert_eq; done.
Qed.

Lemma advance_cleared (r : t) (i : nat) :
  cleared_or_same (clock r) (clock (advance r)) i.
Proof.
  destruct (decide (i = hand r)) as [->|Hne].
  - destruct (clock r !! hand r) as [[p b]|] eqn:He.
    + pose proof (advance_here r p b He) as H.
      destruct p, b; simpl in H; [right; split|left..]; congruence.
    + left. unfold advance. by rewrite He.
  - left. by apply advance_other.
Qed.

Lemma cleared_or_same_trans (c1 c2 c3 : list (bool * bool)) (i : nat) :
  cleared_or_same c1 c2 i → cleared_or_same c2 c3 i → cleared_or_same c1 c3 i.
Proof.
  intros [H12|[H1 H2]] [H23|[H2' H3]].
  - left. congruence.
  - right. split; congruence.
  - right. split; congruence.
  - congruence.
Qed.

Lemma offset_shift (h n k : nat) :
  ((h + 1) mod n + k) mod n = (h + S k) mod n.
Proof.
  rewrite Nat.Div0.add_mod_idemp_l. f_equal. lia.
Qed.

Lemma passed_S (r : t) (k i : nat) :
  hand r < length (clock r) →
  passed r (S k) i ↔ i = hand r ∨ passed (advance r) k i.
Proof.
  intros Hh. unfold passed. rewrite advance_length, advance_hand. split.
  - intros (j & Hj & ->). destruct j as [|j].
    + left. rewrite Nat.add_0_r. by apply Nat.mod_small.
    + right. exists j. split; [lia|]. by rewrite offset_shift.
  - intros [->|(j & Hj & ->)].
    + exists 0. split; [lia|]. rewrite Nat.add_0_r. symmetry. by apply Nat.mod_small.
    + exists (S j). split; [lia|]. by rewrite offset_shift.
Qed.

(** What the loop has done when it returns. *)
Lemma Victim_loop_post (fuel : nat) (r : t) (f : Z) (r' : t) :
  Victim_loop fuel r = Ok (f, r') →
  ∃ k c_sel, k < fuel ∧ Victim_loop (S k) r = Ok (f, r') ∧ selected r k c_sel f r'.
Proof.
  revert r. induction fuel as [|fuel IH]; intros r Hrun; [done|].
  destruct (decide (hand r < length (clock r))) as [Hh|Hh];
    [|by rewrite Victim_loop_assert in Hrun].
  destruct (lookup_lt_is_Some_2 (clock r) (hand r) Hh) as [[p b] He].
  rewrite (Victim_loop_step fuel r p b Hh He) in Hrun.
  destruct (p && negb b) eqn:Hsel.
  - apply andb_prop in Hsel as [-> Hb]. apply negb_true_iff in Hb as ->.
    injection Hrun as <- <-.
    exists 0, (clock r). split; [lia|].
    split; [by rewrite (Victim_loop_step 0 r true false Hh He)|].
    split; simpl; try done.
    + rewrite Nat.add_0_r. symmetry. by apply Nat.mod_small.
    + eauto.
    + intros i. by left.
    + intros i (j & Hj & _). lia.
  - destruct (IH _ Hrun) as (k & c_sel & Hk & Hrunk & Hs).
    destruct Hs as [Hhand Hin Hout Hlen Hentry [b0 Horig] Hclock Hsize Hcl Hpass Hrest].
    rewrite advance_length in *. rewrite advance_hand in Hhand.
    rewrite advance_size in Hsize. rewrite offset_shift in Hhand.
    exists (S k), c_sel. split; [lia|].
    split; [by rewrite (Victim_loop_step (S k) r p b Hh He), Hsel|].
    split; try done.
    + destruct (decide (hand r' = hand r)) as [Heq|Hne].
      * rewrite Heq in *. rewrite (advance_here r p b He) in Horig.
        injection Horig as -> _. eauto.
      * rewrite advance_other in Horig by done. eauto.
    + intros i. eapply cleared_or_same_trans; [apply advance_cleared|apply Hcl].
    + intros i Hi. apply passed_S in Hi as [->|Hi]; [|by apply Hpass|done].
      destruct (Hcl (hand r)) as [Hsame|[_ Hc]]; [|congruence].
      rewrite Hsame.
      rewrite (advance_here r p b He). by destruct p.
    + intros i Hi.
      assert (i ≠ hand r ∧ ¬ passed (advance r) k i) as [Hne Hnp].
      { split; intros H; apply Hi; apply passed_S; auto. }
      rewrite Hrest by done. by apply advance_other.
Qed.


(** *** Termination of the sweep *)

(** More fuel does not change a result. *)
Lemma Victim_loop_stable (fuel fuel' : nat) (r : t) :
  Victim_loop fuel r ≠ Diverge → fuel ≤ fuel' →
  Victim_loop fuel' r = Victim_loop fuel r.
Proof.
  revert fuel' r. induction fuel as [|fuel IH]; intros fuel' r Hnd Hle; [done|].
  destruct fuel' as [|fuel']; [lia|].
  destruct (decide (hand r < length (clock r))) as [Hh|Hh];
    [|by rewrite !Victim_loop_assert].
  destruct (lookup_lt_is_Some_2 (clock r) (hand r) Hh) as [[p b] He].
  rewrite (Victim_loop_step fuel r p b Hh He) in *.
  rewrite (Victim_loop_step fuel' r p b Hh He).
  destruct (p && negb b); [done|]. apply IH; [done|lia].
Qed.

(** A present slot with a clear reference bit [k] slots ahead of the hand
    ends the loop after at most [k] slots. *)
Lemma Victim_loop_finds_clear (k : nat) (r : t) :
  hand r < length (clock r) →
  clock r !! ((hand r + k) mod length (clock r)) = Some (true, false) →
  returns (Victim_loop (S k) r).
Proof.
  revert r. induction k as [|k IH]; intros r Hh Ht;
    destruct (lookup_lt_is_Some_2 (clock r) (hand r) Hh) as [[p b] He];
    rewrite (Victim_loop_step _ r p b Hh He).
  - rewrite Nat.add_0_r, Nat.mod_small in Ht by done.
    rewrite He in Ht. injection Ht as -> ->. simpl. by eexists.
  - destruct (p && negb b) eqn:Hsel; [by eexists|].
    apply IH; [by apply advance_hand_lt|].
    rewrite advance_length, advance_hand, offset_shift.
    rewrite advance_other; [done|].
    intros Heq. rewrite Heq, He in Ht. injection Ht as -> ->. done.
Qed.

(** A present slot [k] slots ahead of the hand ends the loop after at most
    one more sweep. *)
Lemma Victim_loop_finds_present (k : nat) (r : t) (b0 : bool) :
  hand r < length (clock r) →
  clock r !! ((hand r + k) mod length (clock r)) = Some (true, b0) →
  returns (Victim_loop (S (k + length (clock r))) r).
Proof.
  revert r b0. induction k as [|k IH]; intros r b0 Hh Ht;
    destruct (lookup_lt_is_Some_2 (clock r) (hand r) Hh) as [[p b] He];
    rewrite (Victim_loop_step _ r p b Hh He);
    (destruct (p && negb b) eqn:Hsel; [by eexists|]).
  - rewrite Nat.add_0_r, Nat.mod_small in Ht by done.
    rewrite He in Ht. injection Ht as -> ->. destruct b0; [|done].
    replace (0 + length (clock r)) with (S (length (clock r) - 1)) by lia.
    rewrite <- (advance_length r).
    apply Victim_loop_finds_clear; [by apply advance_hand_lt|].
    rewrite advance_hand. rewrite !advance_length.
    rewrite Nat.Div0.add_mod_idemp_l.
    replace (hand r + 1 + (length (clock r) - 1))
      with (hand r + 1 * length (clock r)) by lia.
    rewrite Nat.Div0.mod_add, Nat.mod_small by done.
    by rewrite (advance_here r true true He).
  - replace (S k + length (clock r)) with (S (k + length (clock (advance r))))
      by (rewrite advance_length; lia).
    destruct (decide ((hand r + S k) mod length (clock r) = hand r)) as [Heq|Hne].
    + rewrite Heq, He in Ht. injection Ht as -> ->.
      apply (IH _ false); [by apply advance_hand_lt|].
      rewrite advance_length, advance_hand, offset_shift, Heq.
      by rewrite (advance_here r true b0 He).
    + apply (IH _ b0); [by apply advance_hand_lt|].
      rewrite advance_length, advance_hand, offset_shift.
      by rewrite advance_other.
Qed.

Lemma offset_exists (h i n : nat) :
  h < n → i < n → ∃ k, k < n ∧ (h + k) mod n = i.
Proof.
  intros Hh Hi. destruct (decide (h ≤ i)).
  - exists (i - h). split; [lia|]. replace (h + (i - h)) with i by lia.
    by apply Nat.mod_small.
  - exists (i + n - h). split; [lia|].
    replace (h + (i + n - h)) with (i + 1 * n) by lia.
    rewrite Nat.Div0.mod_add. by apply Nat.mod_small.
Qed.

(** With a candidate in a well-formed replacer the loop ends within two
    sweeps. *)
Lemma Victim_loop_returns (r : t) :
  wf r → size r ≠ 0%Z → returns (Victim_loop (2 * length (clock r)) r).
Proof.
  intros Hwf Hsize.
  pose proof (wf_size r Hwf) as Hcount.
  destruct (present_count_pos (clock r)) as (i & b & Hi); [lia|].
  assert (Hilt : i < length (clock r)) by (by eapply lookup_lt_Some).
  assert (Hh : hand r < length (clock r)).
  { apply (wf_hand r Hwf). intros Hnil. by rewrite Hnil in Hi. }
  destruct (offset_exists (hand r) i _ Hh Hilt) as (k & Hk & Hoff).
  rewrite <- Hoff in Hi.
  destruct (Victim_loop_finds_present k r b Hh Hi) as [x Hx].
  exists x. rewrite <- Hx. apply Victim_loop_stable; [by rewrite Hx|lia].
Qed.

(** Without a present slot the loop never ends. *)
Lemma Victim_loop_spins (fuel : nat) (r : t) :
  hand r < length (clock r) → present_count (clock r) = 0 →
  Victim_loop fuel r = Diverge.
Proof.
  revert r. induction fuel as [|fuel IH]; intros r Hh Hz; [done|].
  destruct (lookup_lt_is_Some_2 (clock r) (hand r) Hh) as [[p b] He].
  rewrite (Victim_loop_step _ r p b Hh He).
  pose proof (present_count_zero _ _ _ Hz He) as Hp. simpl in Hp. subst p. simpl.
  apply IH; [by apply advance_hand_lt|].
  unfold advance. by rewrite He.
Qed.

(** The fuel [Victim] runs the loop with is exact: where the model says
    [Diverge], no amount of fuel ends the loop. *)
Lemma Victim_loop_never (r : t) (fuel : nat) :
  Victim_loop (S (2 * length (clock r))) r = Diverge → Victim_loop fuel r = Diverge.
Proof.
  intros Hdiv.
  destruct (decide (hand r < length (clock r))) as [Hh|Hh];
    [|by rewrite Victim_loop_assert in Hdiv].
  destruct (decide (present_count (clock r) = 0)) as [Hz|Hnz];
    [by apply Victim_loop_spins|].
  destruct (present_count_pos (clock r)) as (i & b & Hi); [lia|].
  assert (Hilt : i < length (clock r)) by (by eapply lookup_lt_Some).
  destruct (offset_exists (hand r) i _ Hh Hilt) as (k & Hk & Hoff).
  rewrite <- Hoff in Hi.
  destruct (Victim_loop_finds_present k r b Hh Hi) as [x Hx].
  rewrite (Victim_loop_stable (S (k + length (clock r)))) in Hdiv;
    [congruence|by rewrite Hx|lia].
Qed.


(** *** [Victim] on well-formed replacers *)

Lemma advance_wf (r : t) :
  wf r → hand r < length (clock r) → wf (advance r).
Proof.
  intros Hwf Hh.
  assert (Hh' : (hand r + 1) mod length (clock r) < length (clock r))
    by (apply Nat.mod_upper_bound; lia).
  unfold advance. destruct (clock r !! hand r) as [[p b]|] eqn:He.
  - destruct p, b; try (destruct Hwf; split; simpl; done).
    eapply wf_update; [done|done|done|]. simpl. lia.
  - destruct Hwf; split; simpl; done.
Qed.

Lemma Victim_loop_wf (fuel : nat) (r : t) (f : Z) (r' : t) :
  wf r → Victim_loop fuel r = Ok (f, r') → wf r'.
Proof.
  revert r. induction fuel as [|fuel IH]; intros r Hwf Hrun; [done|].
  destruct (decide (hand r < length (clock r))) as [Hh|Hh];
    [|by rewrite Victim_loop_assert in Hrun].
  destruct (lookup_lt_is_Some_2 (clock r) (hand r) Hh) as [[p b] He].
  rewrite (Victim_loop_step fuel r p b Hh He) in Hrun.
  destruct (p && negb b) eqn:Hsel.
  - apply andb_prop in Hsel as [-> Hb]. injection Hrun as _ <-.
    pose proof (wf_size_bounds r Hwf) as Hsz.
    pose proof (present_count_insert (clock r) _ _ (false, false) He) as Hcount.
    pose proof (wf_size r Hwf) as Hsize.
    eapply wf_update; [done|done|done|]. simpl in *.
    unfold size_t_wrap. rewrite Z.mod_small; lia.
  - eapply IH; [|done]. by apply advance_wf.
Qed.

(** With a candidate, [Victim] returns a frame of the replacer; the loop
    has then run as [selected] says. *)
Lemma Victim_returns (r : t) :
  wf r → size r ≠ 0%Z →
  ∃ k c_sel f r',
    k < 2 * length (clock r) ∧
    (∀ fuel, k < fuel → Victim_fuel fuel r = Ok (Some f, r')) ∧
    selected r k c_sel f r' ∧
    f = Z.of_nat (hand r') ∧ size r' = (size r - 1)%Z ∧ wf r'.
Proof.
  intros Hwf Hsize.
  destruct (Victim_loop_returns r Hwf Hsize) as [[f r'] Hrun].
  destruct (Victim_loop_post _ _ _ _ Hrun) as (k & c_sel & Hk & Hrunk & Hsel).
  exists k, c_sel, f, r'. split; [done|].
  pose proof (wf_bound r Hwf) as Hbound.
  pose proof (wf_size_bounds r Hwf) as Hsz.
  split; [|split; [done|split; [|split]]].
  - intros fuel Hfuel. unfold Victim_fuel.
    destruct (Z.eqb_spec (size r) 0); [done|].
    rewrite (Victim_loop_stable (S k)); [by rewrite Hrunk|by rewrite Hrunk|lia].
  - rewrite (sel_out _ _ _ _ _ Hsel). apply static_cast_frame_id_t_small.
    pose proof (sel_in _ _ _ _ _ Hsel). lia.
  - rewrite (sel_size _ _ _ _ _ Hsel). unfold size_t_wrap.
    rewrite Z.mod_small; lia.
  - by eapply Victim_loop_wf.
Qed.

(** C5.  On a well-formed replacer: with [size == 0], [Victim] returns
    false (whatever the fuel) and changes nothing, and it returns false in
    no other case; with [size > 0] the sweep ends within two turns of the
    clock and [Victim] returns true.  The output is then the index of a slot
    that was present and whose reference bit was clear when it was selected
    ([sel_orig], [sel_entry]); that slot is no longer present ([sel_clock]),
    [size] is one less, every slot the hand passed over is no longer
    present-and-referenced ([sel_passed]), and nothing else changed
    ([sel_cleared], [sel_rest]). *)
Theorem Victim_spec (r : t) :
  wf r →
  (size r = 0%Z → ∀ fuel, Victim_fuel fuel r = Ok (None, r)) ∧
  (∀ fuel r', Victim_fuel fuel r = Ok (None, r') → size r = 0%Z) ∧
  (size r ≠ 0%Z →
     ∃ k c_sel f r',
       k < 2 * length (clock r) ∧
       (∀ fuel, k < fuel → Victim_fuel fuel r = Ok (Some f, r')) ∧
       Victim r = Ok (Some f, r') ∧
       selected r k c_sel f r' ∧
       f = Z.of_nat (hand r') ∧
       clock r' !! hand r' = Some (false, false) ∧
       size r' = (size r - 1)%Z ∧ wf r').
Proof.
  intros Hwf. split; [|split].
  - intros Hz fuel. unfold Victim_fuel. by rewrite Hz.
  - intros fuel r' Hrun. unfold Victim_fuel in Hrun.
    destruct (Z.eqb_spec (size r) 0); [done|].
    destruct (Victim_loop fuel r) as [[f r'']| | |]; done.
  - intros Hsize.
    destruct (Victim_returns r Hwf Hsize) as (k & c_sel & f & r' & Hk & Hrun & Hsel & Hf & Hsz & Hwf').
    exists k, c_sel, f, r'.
    split; [done|]. split; [done|]. split; [apply Hrun; lia|].
    split; [done|]. split; [done|]. split; [|done].
    rewrite (sel_clock _ _ _ _ _ Hsel). apply list_lookup_insert_eq.
    rewrite (sel_len _ _ _ _ _ Hsel). apply (sel_in _ _ _ _ _ Hsel).
Qed.

(** C3, as the code has it.  When [Victim] returns true the hand stands on
    the slot it selected, the slot whose index is the output: the hand has
    advanced once for each of the [k] slots it inspected and passed over
    ([sel_hand], [sel_passed]) and not after the selection. *)
Theorem Victim_hand_on_victim (r : t) (fuel : nat) (f : Z) (r' : t) :
  wf r → Victim_fuel fuel r = Ok (Some f, r') →
  Z.of_nat (hand r') = f ∧
  clock r' !! hand r' = Some (false, false) ∧
  ∃ k c_sel, k < fuel ∧ selected r k c_sel f r' ∧
             hand r' = (hand r + k) mod length (clock r).
Proof.
  intros Hwf Hrun. unfold Victim_fuel in Hrun.
  destruct (Z.eqb_spec (size r) 0); [done|].
  destruct (Victim_loop fuel r) as [[f0 r0]| | |] eqn:Hloop; try done.
  simpl in Hrun. injection Hrun as -> ->.
  destruct (Victim_loop_post _ _ _ _ Hloop) as (k & c_sel & Hk & _ & Hsel).
  pose proof (wf_bound r Hwf) as Hbound.
  pose proof (sel_in _ _ _ _ _ Hsel) as Hin.
  split; [|split].
  - rewrite (sel_out _ _ _ _ _ Hsel). symmetry.
    apply static_cast_frame_id_t_small. lia.
  - rewrite (sel_clock _ _ _ _ _ Hsel). apply list_lookup_insert_eq.
    by rewrite (sel_len _ _ _ _ _ Hsel).
  - exists k, c_sel. split; [done|]. split; [done|]. apply (sel_hand _ _ _ _ _ Hsel).
Qed.

(** *** The replacer of three frames with one candidate *)

Lemma one_candidate_Unpin : Unpin (new 3) 0 = Ok one_candidate.
Proof. reflexivity. Qed.

Lemma one_candidate_wf : wf one_candidate.
Proof. split; [simpl; lia | reflexivity | simpl; lia]. Qed.

Lemma Victim_spec_witness :
  wf one_candidate ∧
  ∃ f r', Victim one_candidate = Ok (Some f, r') ∧ size r' = 0%Z.
Proof.
  split; [exact one_candidate_wf|].
  destruct (Victim_spec one_candidate one_candidate_wf) as (_ & _ & Hpos).
  destruct Hpos as (k & c_sel & f & r' & _ & _ & Hrun & _ & _ & _ & Hsize & _);
    [simpl; lia|].
  exists f, r'. split; [exact Hrun|]. rewrite Hsize. reflexivity.
Defined.

Lemma Victim_hand_on_victim_witness :
  wf one_candidate ∧
  Victim_fuel 7 one_candidate = Ok (Some 0%Z, mk (replicate 3 (false, false)) 0 0) ∧
  Z.of_nat (hand (mk (replicate 3 (false, false)) 0 0)) = 0%Z.
Proof.
  assert (Hrun : Victim_fuel 7 one_candidate
                 = Ok (Some 0%Z, mk (replicate 3 (false, false)) 0 0))
    by (vm_compute; reflexivity).
  split; [exact one_candidate_wf|]. split; [exact Hrun|].
  exact (proj1 (Victim_hand_on_victim one_candidate 7 0 _ one_candidate_wf Hrun)).
Defined.

(** C3 as the specification words it does not hold: from [one_candidate] the sweep clears
    the reference bit of slot 0, passes slots 1 and 2, comes back to slot 0
    and selects it; the hand is left on slot 0, not on slot 1. *)
Lemma Victim_hand_not_past_victim :
  wf one_candidate ∧
  ∃ r', Victim one_candidate = Ok (Some 0%Z, r') ∧
        hand r' = 0 ∧
        hand r' ≠ (Z.to_nat 0 + 1) mod length (clock one_candidate).
Proof.
  split; [exact one_candidate_wf|].
  exists (mk (replicate 3 (false, false)) 0 0).
  split; [vm_compute; reflexivity|]. split; [reflexivity|]. simpl. lia.
Qed.

(** *** The invariant of the replacer *)

Lemma Pin_wf (r : t) (f : Z) (r' : t) :
  wf r → Pin r f = Ok r' →
  wf r' ∧ length (clock r') = length (clock r) ∧ hand r' = hand r.
Proof.
  intros Hwf Hrun. unfold Pin in Hrun.
  destruct (negb (frame_assert r f)); [done|].
  destruct (clock r !! slot_of f) as [[first second]|] eqn:He; [|done].
  pose proof (wf_size_bounds r Hwf) as Hsz.
  pose proof (present_count_insert (clock r) _ _ (false, false) He) as Hcount.
  pose proof (wf_size r Hwf) as Hsize.
  pose proof (wf_hand_lt r _ _ Hwf He) as Hh.
  destruct first; injection Hrun as <-; simpl; rewrite length_insert;
    (split; [|done]).
  - eapply wf_update; [done|done|done|]. simpl in *.
    unfold size_t_wrap. rewrite Z.mod_small; lia.
  - eapply wf_update; [done|done|done|]. simpl. lia.
Qed.

Lemma Unpin_wf (r : t) (f : Z) (r' : t) :
  wf r → Unpin r f = Ok r' →
  wf r' ∧ length (clock r') = length (clock r) ∧ hand r' = hand r.
Proof.
  intros Hwf Hrun. unfold Unpin in Hrun.
  destruct (negb (frame_assert r f)); [done|].
  destruct (clock r !! slot_of f) as [[first second]|] eqn:He; [|done].
  pose proof (wf_size_bounds r Hwf) as Hsz.
  pose proof (present_count_insert (clock r) _ _ (true, true) He) as Hcount.
  pose proof (present_count_le (<[slot_of f := (true, true)]> (clock r))) as Hle.
  rewrite length_insert in Hle.
  pose proof (wf_size r Hwf) as Hsize. pose proof (wf_bound r Hwf) as Hbound.
  pose proof (wf_hand_lt r _ _ Hwf He) as Hh.
  destruct first; injection Hrun as <-; simpl; rewrite length_insert;
    (split; [|done]).
  - eapply wf_update; [done|done|done|]. simpl. lia.
  - eapply wf_update; [done|done|done|]. simpl in *.
    unfold size_t_wrap. rewrite Z.mod_small; lia.
Qed.

Lemma Victim_fuel_wf (fuel : nat) (r : t) (out : option Z) (r' : t) :
  wf r → Victim_fuel fuel r = Ok (out, r') →
  wf r' ∧ length (clock r') = length (clock r).
Proof.
  intros Hwf Hrun. unfold Victim_fuel in Hrun.
  destruct (size r =? 0)%Z; [by injection Hrun as _ <-|].
  destruct (Victim_loop fuel r) as [[f r0]| | |] eqn:Hloop; try done.
  simpl in Hrun. injection Hrun as _ <-.
  split; [by eapply Victim_loop_wf|].
  destruct (Victim_loop_post _ _ _ _ Hloop) as (k & c_sel & _ & _ & Hsel).
  rewrite (sel_clock _ _ _ _ _ Hsel), length_insert.
  apply (sel_len _ _ _ _ _ Hsel).
Qed.

(** X4.  The replacer keeps its books: a new replacer is well formed with
    [Size() == 0], and whenever [Pin], [Unpin] or [Victim] returns on a
    well-formed replacer the result is well formed again, with as many
    slots.  So [Size()] is always the number of present entries, between 0
    and [num_pages], and no decrement or increment of [size] ever wraps. *)
Theorem replacer_invariant :
  (∀ num_pages, (Z.of_nat num_pages ≤ 2 ^ 31)%Z →
     wf (new num_pages) ∧ Size (new num_pages) = 0%Z ∧
     length (clock (new num_pages)) = num_pages) ∧
  (∀ r f r', wf r → Pin r f = Ok r' →
     wf r' ∧ length (clock r') = length (clock r)) ∧
  (∀ r f r', wf r → Unpin r f = Ok r' →
     wf r' ∧ length (clock r') = length (clock r)) ∧
  (∀ r fuel out r', wf r → Victim_fuel fuel r = Ok (out, r') →
     wf r' ∧ length (clock r') = length (clock r)) ∧
  (∀ r, wf r →
     Size r = Z.of_nat (present_count (clock r)) ∧
     (0 ≤ Size r ≤ Z.of_nat (length (clock r)))%Z).
Proof.
  split; [|split; [|split; [|split]]].
  - intros n Hn. split; [by apply wf_new|]. split; [done|].
    simpl. by rewrite length_replicate.
  - intros r f r' Hwf Hrun. destruct (Pin_wf r f r' Hwf Hrun) as (? & ? & _). done.
  - intros r f r' Hwf Hrun. destruct (Unpin_wf r f r' Hwf Hrun) as (? & ? & _). done.
  - intros r fuel out r' Hwf Hrun. by eapply Victim_fuel_wf.
  - intros r Hwf. split; [apply (wf_size r Hwf)|apply (wf_size_bounds r Hwf)].
Qed.

Lemma replacer_invariant_witness :
  wf one_candidate ∧ Size one_candidate = 1%Z ∧
  ∃ r', Unpin one_candidate 2 = Ok r' ∧ wf r'.
Proof.
  split; [exact one_candidate_wf|]. split; [reflexivity|].
  eexists. split; [reflexivity|].
  destruct replacer_invariant as (_ & _ & Hunpin & _).
  exact (proj1 (Hunpin one_candidate 2%Z _ one_candidate_wf eq_refl)).
Defined.

(** *** What [Unpin] and [Pin] do to a frame *)

(** X5.  [Unpin(f)] on a frame of a well-formed replacer makes [f] a
    candidate with its reference bit set; [Size()] grows by one exactly when
    [f] was not a candidate before; the hand and the other slots stay; and a
    second [Unpin(f)] changes nothing. *)
Theorem Unpin_effect (r : t) (f : Z) :
  wf r → (0 ≤ f < Z.of_nat (length (clock r)))%Z →
  ∃ (was ref : bool) r',
    clock r !! Z.to_nat f = Some (was, ref) ∧
    Unpin r f = Ok r' ∧
    clock r' !! Z.to_nat f = Some (true, true) ∧
    (∀ i, i ≠ Z.to_nat f → clock r' !! i = clock r !! i) ∧
    hand r' = hand r ∧
    Size r' = (Size r + (if was then 0 else 1))%Z ∧
    Unpin r' f = Ok r'.
Proof.
  intros Hwf Hf.
  destruct (frame_in_range r f Hwf Hf) as (Hassert & [was ref] & He & Hslot).
  destruct (Unpin_in_range r f Hwf Hf) as (r' & Hrun & Hwf' & Hlen & Hhand & Hclock).
  rewrite Hslot in He. unfold EXISTS, REF in Hclock.
  assert (Hlt : Z.to_nat f < length (clock r)) by (by eapply lookup_lt_Some).
  exists was, ref, r'. split; [done|]. split; [done|].
  assert (Hnew : clock r' !! Z.to_nat f = Some (true, true))
    by (rewrite Hclock; by apply list_lookup_insert_eq).
  split; [done|].
  split; [intros i Hi; rewrite Hclock; by apply list_lookup_insert_ne|].
  split; [done|]. split.
  - unfold Size. rewrite (wf_size r Hwf), (wf_size r' Hwf'), Hclock.
    pose proof (present_count_insert (clock r) _ _ (true, true) He) as Hcount.
    simpl in Hcount. destruct was; simpl in Hcount; lia.
  - destruct (frame_in_range r' f Hwf') as (Hassert' & _); [by rewrite Hlen|].
    unfold Unpin. rewrite Hassert'. unfold slot_of in *. rewrite Hslot, Hnew. simpl.
    f_equal. destruct r' as [c h z]. simpl in *. f_equal.
    rewrite Hclock. unfold EXISTS, REF. by rewrite list_insert_insert_eq.
Qed.

(** X6.  [Pin(f)] on a frame of a well-formed replacer takes [f] out of the
    candidates and clears its reference bit; [Size()] shrinks by one exactly
    when [f] was a candidate; the hand and the other slots stay; a second
    [Pin(f)] changes nothing; and [Pin(f)] undoes an [Unpin(f)] of a frame
    that was no candidate as far as [Size()] goes. *)
Theorem Pin_effect (r : t) (f : Z) :
  wf r → (0 ≤ f < Z.of_nat (length (clock r)))%Z →
  ∃ (was ref : bool) r',
    clock r !! Z.to_nat f = Some (was, ref) ∧
    Pin r f = Ok r' ∧
    clock r' !! Z.to_nat f = Some (false, false) ∧
    (∀ i, i ≠ Z.to_nat f → clock r' !! i = clock r !! i) ∧
    hand r' = hand r ∧
    Size r' = (Size r - (if was then 1 else 0))%Z ∧
    Pin r' f = Ok r' ∧
    (∀ r1, Unpin r f = Ok r1 →
       ∃ r2, Pin r1 f = Ok r2 ∧ Size r2 = Size r' ∧ clock r2 = clock r').
Proof.
  intros Hwf Hf.
  destruct (frame_in_range r f Hwf Hf) as (Hassert & [was ref] & He & Hslot).
  destruct (Pin_in_range r f Hwf Hf) as (r' & Hrun & Hwf' & Hlen & Hhand & Hclock).
  rewrite Hslot in He. unfold NOT_EXISTS, NO_REF in Hclock.
  assert (Hlt : Z.to_nat f < length (clock r)) by (by eapply lookup_lt_Some).
  exists was, ref, r'. split; [done|]. split; [done|].
  assert (Hnew : clock r' !! Z.to_nat f = Some (false, false))
    by (rewrite Hclock; by apply list_lookup_insert_eq).
  split; [done|].
  split; [intros i Hi; rewrite Hclock; by apply list_lookup_insert_ne|].
  split; [done|].
  assert (Hsize : Size r' = (Size r - (if was then 1 else 0))%Z).
  { unfold Size. rewrite (wf_size r Hwf), (wf_size r' Hwf'), Hclock.
    pose proof (present_count_insert (clock r) _ _ (false, false) He) as Hcount.
    simpl in Hcount. destruct was; simpl in Hcount; lia. }
  split; [done|]. split.
  - destruct (frame_in_range r' f Hwf') as (Hassert' & _); [by rewrite Hlen|].
    unfold Pin. rewrite Hassert'. unfold slot_of in *. rewrite Hslot, Hnew. simpl.
    f_equal. destruct r' as [c h z]. simpl in *. f_equal.
    rewrite Hclock. unfold NOT_EXISTS, NO_REF. by rewrite list_insert_insert_eq.
  - intros r1 Hunpin.
    destruct (Unpin_in_range r f Hwf Hf) as (r1' & Hrun1 & Hwf1 & Hlen1 & _ & Hclock1).
    rewrite Hrun1 in Hunpin. injection Hunpin as <-.
    destruct (Pin_in_range r1' f Hwf1) as (r2 & Hrun2 & Hwf2 & _ & _ & Hclock2);
      [by rewrite Hlen1|].
    exists r2. split; [done|].
    assert (Hc : clock r2 = clock r').
    { rewrite Hclock2, Hclock1, Hclock. apply list_insert_insert_eq. }
    split; [|done]. unfold Size. by rewrite (wf_size r2 Hwf2), (wf_size r' Hwf'), Hc.
Qed.

Lemma Unpin_effect_witness :
  wf one_candidate ∧ (0 ≤ 2 < Z.of_nat (length (clock one_candidate)))%Z ∧
  ∃ r', Unpin one_candidate 2 = Ok r' ∧ Size r' = 2%Z.
Proof.
  assert (Hf : (0 ≤ 2 < Z.of_nat (length (clock one_candidate)))%Z) by (simpl; lia).
  split; [exact one_candidate_wf|]. split; [exact Hf|].
  destruct (Unpin_effect one_candidate 2 one_candidate_wf Hf)
    as (was & ref & r' & He & Hrun & _ & _ & _ & Hsize & _).
  exists r'. split; [exact Hrun|].
  rewrite Hsize. simpl in He. injection He as <- _. reflexivity.
Defined.

Lemma Pin_effect_witness :
  wf one_candidate ∧ (0 ≤ 0 < Z.of_nat (length (clock one_candidate)))%Z ∧
  ∃ r', Pin one_candidate 0 = Ok r' ∧ Size r' = 0%Z.
Proof.
  assert (Hf : (0 ≤ 0 < Z.of_nat (length (clock one_candidate)))%Z) by (simpl; lia).
  split; [exact one_candidate_wf|]. split; [exact Hf|].
  destruct (Pin_effect one_candidate 0 one_candidate_wf Hf)
    as (was & ref & r' & He & Hrun & _ & _ & _ & Hsize & _).
  exists r'. split; [exact Hrun|].
  rewrite Hsize. simpl in He. injection He as <- _. reflexivity.
Defined.

(** *** Which frame [Victim] takes *)

Lemma Victim_candidates (fuel : nat) (r : t) (v : Z) (r1 : t) :
  wf r → Victim_fuel fuel r = Ok (Some v, r1) →
  (0 ≤ v < Z.of_nat (length (clock r)))%Z ∧
  wf r1 ∧ length (clock r1) = length (clock r) ∧
  (∃ b, clock r !! Z.to_nat v = Some (true, b)) ∧
  clock r1 = <[Z.to_nat v := (false, false)]> (clock r1) ∧
  clock r1 !! Z.to_nat v = Some (false, false) ∧
  (∀ i b, clock r1 !! i = Some (true, b) →
     i ≠ Z.to_nat v ∧ ∃ b', clock r !! i = Some (true, b')) ∧
  (∀ i b, i ≠ Z.to_nat v → clock r !! i = Some (false, b) →
     clock r1 !! i = Some (false, b)).
Proof.
  intros Hwf Hrun.
  destruct (Victim_fuel_wf _ _ _ _ Hwf Hrun) as [Hwf1 Hlen1].
  unfold Victim_fuel in Hrun.
  destruct (size r =? 0)%Z; [done|].
  destruct (Victim_loop fuel r) as [[f r0]| | |] eqn:Hloop; try done.
  simpl in Hrun. injection Hrun as -> ->.
  destruct (Victim_loop_post _ _ _ _ Hloop) as (k & c_sel & _ & _ & Hsel).
  destruct Hsel as [Hhand Hin Hout Hlen Hentry Horig Hclock Hsize Hcl Hpass Hrest].
  pose proof (wf_bound r Hwf) as Hbound.
  rewrite static_cast_frame_id_t_small in Hout by lia. subst v.
  rewrite Nat2Z.id.
  assert (Hvic : clock r1 !! hand r1 = Some (false, false))
    by (rewrite Hclock; apply list_lookup_insert_eq; by rewrite Hlen).
  split; [lia|]. split; [done|]. split; [done|]. split; [done|].
  split; [by rewrite Hclock, list_insert_insert_eq|]. split; [done|]. split.
  - intros i b Hi. destruct (decide (i = hand r1)) as [->|Hne]; [congruence|].
    split; [done|]. rewrite Hclock, list_lookup_insert_ne in Hi by done.
    destruct (Hcl i) as [Hsame|[Hold _]]; [|eauto].
    rewrite Hsame in Hi. eauto.
  - intros i b Hne Hi. rewrite Hclock, list_lookup_insert_ne by done.
    destruct (Hcl i) as [Hsame|[Hold _]]; congruence.
Qed.

(** X7.  A pinned frame is safe from the sweep.  The frame [Victim] returns
    was a candidate when it was called; so after [Pin(f)], [Victim] does not
    return [f], whatever the other frames are, and [f] is still no candidate
    afterwards. *)
Theorem Victim_spares_pinned (r0 : t) (f : Z) (r : t) (fuel : nat)
    (out : option Z) (r' : t) :
  wf r0 → (0 ≤ f < Z.of_nat (length (clock r0)))%Z →
  Pin r0 f = Ok r → Victim_fuel fuel r = Ok (out, r') →
  out ≠ Some f ∧
  clock r' !! Z.to_nat f = Some (false, false) ∧
  (∀ v, out = Some v → ∃ b, clock r !! Z.to_nat v = Some (true, b)).
Proof.
  intros Hwf0 Hf Hpin Hrun.
  destruct (Pin_in_range r0 f Hwf0 Hf) as (r1 & Hpin1 & Hwf & Hlen & _ & Hclock).
  rewrite Hpin1 in Hpin. injection Hpin as ->.
  assert (Hfree : clock r !! Z.to_nat f = Some (false, false)).
  { rewrite Hclock. apply list_lookup_insert_eq. lia. }
  destruct out as [v|].
  - destruct (Victim_candidates _ _ _ _ Hwf Hrun)
      as (Hv & _ & _ & [b Hcand] & _ & _ & _ & Hkeep).
    assert (Hne : v ≠ f) by (intros ->; congruence).
    split; [congruence|]. split; [|intros v' [= <-]; eauto].
    apply Hkeep; [lia|done].
  - unfold Victim_fuel in Hrun. destruct (size r =? 0)%Z.
    + injection Hrun as <-. done.
    + destruct (Victim_loop fuel r) as [[f0 r0']| | |]; done.
Qed.

Lemma Victim_spares_pinned_witness :
  wf one_candidate ∧ (0 ≤ 0 < Z.of_nat (length (clock one_candidate)))%Z ∧
  Pin one_candidate 0 = Ok (mk (replicate 3 (false, false)) 0 0) ∧
  Victim_fuel 7 (mk (replicate 3 (false, false)) 0 0)
  = Ok (None, mk (replicate 3 (false, false)) 0 0) ∧
  None ≠ Some 0%Z.
Proof.
  assert (Hf : (0 ≤ 0 < Z.of_nat (length (clock one_candidate)))%Z) by (simpl; lia).
  assert (Hpin : Pin one_candidate 0 = Ok (mk (replicate 3 (false, false)) 0 0))
    by reflexivity.
  assert (Hrun : Victim_fuel 7 (mk (replicate 3 (false, false)) 0 0)
                 = Ok (None, mk (replicate 3 (false, false)) 0 0)) by reflexivity.
  split; [exact one_candidate_wf|]. split; [exact Hf|].
  split; [exact Hpin|]. split; [exact Hrun|].
  exact (proj1 (Victim_spares_pinned one_candidate 0 _ 7 None _
                  one_candidate_wf Hf Hpin Hrun)).
Defined.

(** X8.  [Unpin] then [Victim]: on a well-formed replacer without
    candidates, [Unpin(f)] followed by [Victim] gives [f] back and leaves the
    replacer without candidates. *)
Theorem Unpin_Victim_roundtrip (r : t) (f : Z) :
  wf r → Size r = 0%Z → (0 ≤ f < Z.of_nat (length (clock r)))%Z →
  ∃ r1 r2, Unpin r f = Ok r1 ∧ Victim r1 = Ok (Some f, r2) ∧ Size r2 = 0%Z.
Proof.
  intros Hwf Hsize Hf.
  destruct (Unpin_in_range r f Hwf Hf) as (r1 & Hrun1 & Hwf1 & Hlen1 & _ & Hclock1).
  assert (Hcount : present_count (clock r) = 0%nat).
  { unfold Size in Hsize. rewrite (wf_size r Hwf) in Hsize. lia. }
  destruct (frame_in_range r f Hwf Hf) as (_ & e & He & Hslot). rewrite Hslot in He.
  pose proof (present_count_zero _ _ _ Hcount He) as Habsent.
  pose proof (present_count_insert (clock r) _ _ (true, true) He) as Hins.
  rewrite Habsent in Hins. simpl in Hins.
  assert (Hsize1 : size r1 = 1%Z).
  { rewrite (wf_size r1 Hwf1), Hclock1. unfold EXISTS, REF. lia. }
  destruct (Victim_returns r1 Hwf1) as (k & c_sel & v & r2 & Hk & Hrun & Hsel & Hv & Hsz & _);
    [lia|].
  destruct (sel_orig _ _ _ _ _ Hsel) as [b Horig].
  assert (Hhand : hand r2 = Z.to_nat f).
  { destruct (decide (hand r2 = Z.to_nat f)) as [|Hne]; [done|].
    rewrite Hclock1, list_lookup_insert_ne in Horig by done.
    by pose proof (present_count_zero _ _ _ Hcount Horig). }
  exists r1, r2. split; [done|]. split.
  - unfold Victim. rewrite (Hrun _) by lia. do 3 f_equal. lia.
  - unfold Size. lia.
Qed.

Lemma Unpin_Victim_roundtrip_witness :
  wf (new 3) ∧ Size (new 3) = 0%Z ∧
  ∃ r1 r2, Unpin (new 3) 1 = Ok r1 ∧ Victim r1 = Ok (Some 1%Z, r2).
Proof.
  assert (Hwf : wf (new 3)) by (apply wf_new; simpl; lia).
  assert (Hf : (0 ≤ 1 < Z.of_nat (length (clock (new 3))))%Z) by (simpl; lia).
  split; [exact Hwf|]. split; [reflexivity|].
  destruct (Unpin_Victim_roundtrip (new 3) 1 Hwf eq_refl Hf) as (r1 & r2 & H1 & H2 & _).
  exists r1, r2. split; [exact H1|exact H2].
Defined.

(** *** The order of the sweep *)

Lemma offset_distinct (h m n : nat) :
  h < n → 0 < m < n → (h + m) mod n ≠ h.
Proof.
  intros Hh Hm. destruct (decide (h + m < n)) as [Hlt|Hge].
  - rewrite Nat.mod_small by done. lia.
  - replace (h + m) with ((h + m - n) + 1 * n) by lia.
    rewrite Nat.Div0.mod_add, Nat.mod_small by lia. lia.
Qed.

(** The first candidate with a clear reference bit, [k] slots ahead of the
    hand, is the one the loop selects. *)
Lemma Victim_loop_first_clear (k : nat) (r : t) :
  hand r < length (clock r) → k < length (clock r) →
  clock r !! ((hand r + k) mod length (clock r)) = Some (true, false) →
  (∀ j, j < k → clock r !! ((hand r + j) mod length (clock r)) ≠ Some (true, false)) →
  ∃ r', Victim_loop (S k) r
        = Ok (static_cast_frame_id_t ((hand r + k) mod length (clock r)), r').
Proof.
  revert r. induction k as [|k IH]; intros r Hh Hk Ht Hbefore;
    destruct (lookup_lt_is_Some_2 (clock r) (hand r) Hh) as [[p b] He];
    rewrite (Victim_loop_step _ r p b Hh He).
  - rewrite Nat.add_0_r, Nat.mod_small in * by done.
    rewrite He in Ht. injection Ht as -> ->. simpl. by eexists.
  - assert (Hskip : p && negb b = false).
    { specialize (Hbefore 0 ltac:(lia)).
      rewrite Nat.add_0_r, Nat.mod_small, He in Hbefore by done.
      destruct p, b; done. }
    rewrite Hskip.
    destruct (IH (advance r)) as [r' Hrun].
    + by apply advance_hand_lt.
    + rewrite advance_length. lia.
    + rewrite advance_length, advance_hand, offset_shift.
      rewrite advance_other; [done|]. apply offset_distinct; lia.
    + intros j Hj. rewrite advance_length, advance_hand, offset_shift.
      rewrite advance_other by (apply offset_distinct; lia).
      apply Hbefore. lia.
    + rewrite advance_length, advance_hand, offset_shift in Hrun. by exists r'.
Qed.

(** When every candidate has its reference bit set, the first candidate,
    [k] slots ahead of the hand, is selected after one full turn. *)
Lemma Victim_loop_first_present (k : nat) (r : t) :
  hand r < length (clock r) → k < length (clock r) →
  clock r !! ((hand r + k) mod length (clock r)) = Some (true, true) →
  (∀ j b, j < k → clock r !! ((hand r + j) mod length (clock r)) ≠ Some (true, b)) →
  (∀ i b, clock r !! i = Some (true, b) → b = true) →
  ∃ r', Victim_loop (S (k + length (clock r))) r
        = Ok (static_cast_frame_id_t ((hand r + k) mod length (clock r)), r').
Proof.
  revert r. induction k as [|k IH]; intros r Hh Hk Ht Hbefore Hall;
    destruct (lookup_lt_is_Some_2 (clock r) (hand r) Hh) as [[p b] He];
    rewrite (Victim_loop_step _ r p b Hh He).
  - rewrite Nat.add_0_r, Nat.mod_small in * by done.
    rewrite He in Ht. injection Ht as -> ->. simpl.
    pose proof (advance_here r true true He) as Hhere. simpl in Hhere.
    assert (Hback : (hand (advance r) + (length (clock r) - 1))
                    mod length (clock (advance r)) = hand r).
    { rewrite advance_hand, advance_length, Nat.Div0.add_mod_idemp_l.
      replace (hand r + 1 + (length (clock r) - 1))
        with (hand r + 1 * length (clock r)) by lia.
      by rewrite Nat.Div0.mod_add, Nat.mod_small. }
    destruct (Victim_loop_first_clear (length (clock r) - 1) (advance r)) as [r' Hrun].
    + by apply advance_hand_lt.
    + rewrite advance_length. lia.
    + by rewrite Hback.
    + intros j Hj. rewrite advance_length, advance_hand, offset_shift.
      rewrite advance_other by (apply offset_distinct; lia).
      intros Hclear. by pose proof (Hall _ _ Hclear).
    + rewrite Hback in Hrun. exists r'.
      replace (length (clock r)) with (S (length (clock r) - 1)) at 1 by lia.
      done.
  - assert (Habsent : p = false).
    { specialize (Hbefore 0 b ltac:(lia)).
      rewrite Nat.add_0_r, Nat.mod_small, He in Hbefore by done.
      destruct p; done. }
    subst p. simpl.
    pose proof (advance_here r false b He) as Hhere. simpl in Hhere.
    assert (Hsame : ∀ i, clock (advance r) !! i = clock r !! i).
    { intros i. destruct (decide (i = hand r)) as [->|Hne];
        [congruence|by apply advance_other]. }
    destruct (IH (advance r)) as [r' Hrun].
    + by apply advance_hand_lt.
    + rewrite advance_length. lia.
    + by rewrite advance_length, advance_hand, offset_shift, Hsame.
    + intros j b' Hj. rewrite advance_length, advance_hand, offset_shift, Hsame.
      apply Hbefore. lia.
    + intros i b'. rewrite Hsame. apply Hall.
    + rewrite advance_length, advance_hand, offset_shift in Hrun. by exists r'.
Qed.

(** X9.  The clock order.  Let slot [v], [k] slots ahead of the hand, be a
    candidate.  If its reference bit is clear and no candidate nearer to the
    hand has a clear bit, [Victim] returns [v]: a frame whose bit is set is
    not taken while one with a clear bit exists.  If every candidate has its
    bit set and no candidate is nearer to the hand, [Victim] returns [v] as
    well, after a full turn that clears all the bits. *)
Theorem Victim_choice (r : t) (k : nat) :
  wf r → k < length (clock r) →
  let v := (hand r + k) mod length (clock r) in
  (clock r !! v = Some (true, false) →
   (∀ j, j < k →
      clock r !! ((hand r + j) mod length (clock r)) ≠ Some (true, false)) →
   ∃ r', Victim r = Ok (Some (Z.of_nat v), r')) ∧
  (clock r !! v = Some (true, true) →
   (∀ j b, j < k →
      clock r !! ((hand r + j) mod length (clock r)) ≠ Some (true, b)) →
   (∀ i b, clock r !! i = Some (true, b) → b = true) →
   ∃ r', Victim r = Ok (Some (Z.of_nat v), r')).
Proof.
  intros Hwf Hk v.
  assert (Hh : hand r < length (clock r)).
  { apply (wf_hand r Hwf). intros Hnil. rewrite Hnil in Hk. simpl in Hk. lia. }
  assert (Hv : v < length (clock r)) by (apply Nat.mod_upper_bound; lia).
  pose proof (wf_bound r Hwf) as Hbound.
  assert (Hsize : ∀ b, clock r !! v = Some (true, b) → (size r =? 0)%Z = false).
  { intros b Hb. pose proof (present_count_insert (clock r) v _ (false, false) Hb) as Hc.
    simpl in Hc. rewrite (wf_size r Hwf). apply Z.eqb_neq. lia. }
  split.
  - intros Ht Hbefore.
    destruct (Victim_loop_first_clear k r Hh Hk Ht Hbefore) as [r' Hrun].
    exists r'. unfold Victim, Victim_fuel. rewrite (Hsize _ Ht).
    rewrite (Victim_loop_stable (S k)); [|by rewrite Hrun|lia].
    rewrite Hrun. simpl. fold v. by rewrite static_cast_frame_id_t_small by lia.
  - intros Ht Hbefore Hall.
    destruct (Victim_loop_first_present k r Hh Hk Ht Hbefore Hall) as [r' Hrun].
    exists r'. unfold Victim, Victim_fuel. rewrite (Hsize _ Ht).
    rewrite (Victim_loop_stable (S (k + length (clock r)))); [|by rewrite Hrun|lia].
    rewrite Hrun. simpl. fold v. by rewrite static_cast_frame_id_t_small by lia.
Qed.

Lemma two_candidates_wf : wf two_candidates.
Proof. split; [simpl; lia | reflexivity | simpl; lia]. Qed.

Lemma Victim_choice_witness :
  wf two_candidates ∧ 1 < length (clock two_candidates) ∧
  ∃ r', Victim two_candidates = Ok (Some 1%Z, r').
Proof.
  assert (Hk : 1 < length (clock two_candidates)) by (simpl; lia).
  split; [exact two_candidates_wf|]. split; [exact Hk|].
  destruct (Victim_choice two_candidates 1 two_candidates_wf Hk) as [Hclear _].
  apply Hclear.
  - reflexivity.
  - intros j Hj. assert (j = 0) as -> by lia. simpl. discriminate.
Defined.

(** With a single candidate there is no choice. *)
Lemma sole_candidate_victim (fuel : nat) (r : t) (f v : Z) (r' : t) :
  wf r → (0 ≤ f)%Z →
  (∀ i b, clock r !! i = Some (true, b) → i = Z.to_nat f) →
  Victim_fuel fuel r = Ok (Some v, r') → v = f.
Proof.
  intros Hwf Hf Hsole Hrun.
  destruct (Victim_candidates _ _ _ _ Hwf Hrun) as (Hv & _ & _ & [b Hcand] & _).
  pose proof (Hsole _ _ Hcand). lia.
Qed.

End ClockReplacerFacts.

(** ** Buffer pool manager *)

Module BufferPoolManagerFacts.
Import BufferPoolManager Examples.
Local Open Scope Z_scope.

(** *** Frames *)

Lemma frame_Ok (s : t) (f : Z) (page : Page) :
  frame s f = Ok page ↔ 0 ≤ f ∧ pages_ s !! Z.to_nat f = Some page.
Proof.
  unfold frame. destruct (Z.ltb_spec f 0).
  - split; [done|lia].
  - destruct (pages_ s !! Z.to_nat f) as [page'|]; split.
    + intros [= ->]. done.
    + intros [_ [= ->]]. done.
    + done.
    + intros [_ [=]].
Qed.

Lemma frame_Ok_in_pool (s : t) (f : Z) (page : Page) :
  frame s f = Ok page → in_pool s f.
Proof.
  intros [Hf Hl]%frame_Ok. apply lookup_lt_Some in Hl. unfold in_pool. lia.
Qed.

Lemma frame_in_pool (s : t) (f : Z) :
  in_pool s f → ∃ page, frame s f = Ok page.
Proof.
  intros [Hf Hlt].
  destruct (lookup_lt_is_Some_2 (pages_ s) (Z.to_nat f)) as [page Hp]; [lia|].
  exists page. apply frame_Ok. done.
Qed.

(** Reading the frames after one of them was overwritten. *)
Lemma frame_set_frame (s s' : t) (f f' : Z) (page : Page) :
  pages_ s' = set_frame (pages_ s) f page → in_pool s f →
  frame s' f' = if decide (f' = f) then Ok page else frame s f'.
Proof.
  intros Hpages [Hf Hlt]. unfold frame, set_frame in *. rewrite Hpages.
  destruct (decide (f' = f)) as [->|Hne].
  - destruct (Z.ltb_spec f 0); [lia|].
    rewrite list_lookup_insert_eq by lia. done.
  - destruct (Z.ltb_spec f' 0); [done|].
    rewrite list_lookup_insert_ne by lia. done.
Qed.

Lemma in_pool_set_frame (s s' : t) (f f' : Z) (page : Page) :
  pages_ s' = set_frame (pages_ s) f page → in_pool s' f' ↔ in_pool s f'.
Proof.
  intros Hpages. unfold in_pool, set_frame in *. by rewrite Hpages, length_insert.
Qed.

(** *** [FlushPage] *)

(** C7.  [FlushPage(p)] returns false, and changes nothing, when [p] is not
    in the page table.  When [p] is resident in frame [f] it returns true;
    pin count, page id, buffer, the other frames, page table, free list and
    replacer are as before; the dirty flag is cleared and the buffer written
    to disk under the page's id when the frame was dirty and its id valid,
    and nothing is written otherwise. *)
Theorem FlushPageImpl_spec (s : t) (p : Z) :
  (page_table_ s !! p = None → FlushPageImpl s p = Ok (false, s)) ∧
  (∀ f page, resident s p f page →
     ∃ s', FlushPageImpl s p = Ok (true, s') ∧
       let flushed := negb (page_id_ page =? INVALID_PAGE_ID) && is_dirty_ page in
       frame s' f = Ok (mkPage (data_ page) (page_id_ page) (pin_count_ page)
                               (if flushed then false else is_dirty_ page)) ∧
       (∀ f', f' ≠ f → frame s' f' = frame s f') ∧
       replacer_ s' = replacer_ s ∧
       page_table_ s' = page_table_ s ∧
       free_list_ s' = free_list_ s ∧
       disk_manager_ s' =
         (if flushed
          then DiskManager.WritePage (disk_manager_ s) (page_id_ page) (data_ page)
          else disk_manager_ s)) ∧
  (∀ res s', FlushPageImpl s p = Ok (res, s') →
     (res = false ↔ page_table_ s !! p = None)).
Proof.
  split; [|split].
  - intros Hnone. unfold FlushPageImpl. by rewrite Hnone.
  - intros f page [Htable Hframe]. unfold FlushPageImpl. rewrite Htable, Hframe. simpl.
    pose proof (frame_Ok_in_pool _ _ _ Hframe) as Hpool.
    destruct (negb (page_id_ page =? INVALID_PAGE_ID) && is_dirty_ page) eqn:Hflush.
    + eexists. split; [reflexivity|]. simpl.
      split; [|split; [|done]].
      * erewrite frame_set_frame; [|reflexivity|done]. by rewrite decide_True.
      * intros f' Hne. erewrite frame_set_frame; [|reflexivity|done].
        by rewrite decide_False.
    + exists s. split; [done|]. simpl. rewrite Hframe. by destruct page.
  - intros res s' Hrun. unfold FlushPageImpl in Hrun.
    destruct (page_table_ s !! p) as [f|]; [|by injection Hrun as <- _].
    destruct (frame s f) as [page| | |]; try done. simpl in Hrun.
    destruct (negb (page_id_ page =? INVALID_PAGE_ID) && is_dirty_ page);
      injection Hrun as <- _; done.
Qed.

(** *** One frame changes, the page ids stay *)

Lemma bpm_inv_frame_update (s : t) (f : Z) (page page' : Page)
    (r' : ClockReplacer.t) (d' : DiskManager.t) :
  bpm_inv s → frame s f = Ok page →
  page_id_ page' = page_id_ page →
  (f ∈ free_list_ s →
     data_ page' = data_ page ∧ (is_dirty_ page' = true → is_dirty_ page = true)) →
  ClockReplacer.wf r' →
  length (ClockReplacer.clock r') = length (ClockReplacer.clock (replacer_ s)) →
  0 ≤ DiskManager.next_page_id d' →
  bpm_inv (mk (set_frame (pages_ s) f page') (page_table_ s) (free_list_ s) r' d').
Proof.
  intros Hinv Hframe Hid Hdata Hwf Hlen Hdisk.
  pose proof (frame_Ok_in_pool _ _ _ Hframe) as Hpool.
  set (s' := mk _ _ _ _ _).
  assert (Hfr : ∀ f', frame s' f' = if decide (f' = f) then Ok page' else frame s f')
    by (intros f'; by apply frame_set_frame).
  assert (Hin : ∀ f', in_pool s' f' ↔ in_pool s f')
    by (intros f'; by eapply in_pool_set_frame).
  destruct Hinv as [Hr Hc Hnd Hfp Hfz Hfc Htp Htf Hti Hd].
  split; simpl; try done.
  - unfold set_frame. rewrite length_insert. congruence.
  - intros f' Hf'. apply Hin. auto.
  - intros f' pg Hf' Hpg. rewrite Hfr in Hpg. case_decide as Heq.
    + subst f'. injection Hpg as <-. destruct (Hdata Hf') as [-> _]. eauto.
    + eauto.
  - intros f' pg Hf' Hpg. rewrite Hfr in Hpg. case_decide as Heq.
    + subst f'. injection Hpg as <-. destruct (Hdata Hf') as [_ Hdirty].
      destruct (is_dirty_ page') eqn:Hd'; [|done].
      rewrite <- (Hfc f page Hf' Hframe). symmetry. by apply Hdirty.
    + eauto.
  - intros p' f' Hp'. apply Hin. eauto.
  - intros p' f' pg Hp' Hpg. rewrite Hfr in Hpg. case_decide as Heq.
    + subst f'. injection Hpg as <-. rewrite Hid. eauto.
    + eauto.
Qed.

(** *** [UnpinPage] *)

Lemma UnpinPageImpl_pinned (s : t) (p f : Z) (page : Page) (d : bool) :
  bpm_inv s → resident s p f page → 0 < pin_count_ page →
  ∃ r1,
    (if pin_count_ page - 1 =? 0
     then ClockReplacer.Unpin (replacer_ s) f = Ok r1
     else r1 = replacer_ s) ∧
    UnpinPageImpl s p d =
      Ok (true,
          mk (set_frame (pages_ s) f
                (mkPage (data_ page) (page_id_ page) (pin_count_ page - 1)
                        (is_dirty_ page || d)))
             (page_table_ s) (free_list_ s) r1 (disk_manager_ s)) ∧
    bpm_inv (mk (set_frame (pages_ s) f
                   (mkPage (data_ page) (page_id_ page) (pin_count_ page - 1)
                           (is_dirty_ page || d)))
                (page_table_ s) (free_list_ s) r1 (disk_manager_ s)).
Proof.
  intros Hinv [Htable Hframe] Hpin.
  pose proof (inv_table_pool s Hinv p f Htable) as Hpool.
  assert (Hr : ∃ r1, (if pin_count_ page - 1 =? 0
                      then ClockReplacer.Unpin (replacer_ s) f = Ok r1
                      else r1 = replacer_ s) ∧
                     ClockReplacer.wf r1 ∧
                     length (ClockReplacer.clock r1)
                     = length (ClockReplacer.clock (replacer_ s))).
  { destruct (pin_count_ page - 1 =? 0).
    - destruct (ClockReplacerFacts.Unpin_in_range (replacer_ s) f)
        as (r1 & Hr1 & Hwf1 & Hlen1 & _).
      + apply (inv_replacer s Hinv).
      + rewrite (inv_clock s Hinv). apply Hpool.
      + eauto.
    - exists (replacer_ s). split; [done|]. split; [apply (inv_replacer s Hinv)|done]. }
  destruct Hr as (r1 & Hr1 & Hwf1 & Hlen1). exists r1. split; [done|]. split.
  - unfold UnpinPageImpl. rewrite Htable, Hframe. simpl.
    destruct (Z.leb_spec (pin_count_ page) 0); [lia|].
    destruct (pin_count_ page - 1 =? 0); [rewrite Hr1|subst r1]; done.
  - apply (bpm_inv_frame_update s f page _ r1 _ Hinv Hframe); simpl; try done.
    + intros Hfree. exfalso. by eapply inv_table_free.
    + apply (inv_disk s Hinv).
Qed.

(** C6.  For a page [p] resident in frame [f]: with a pin count of zero or
    less, [UnpinPage(p, d)] returns false and the pool is as before; with a
    positive pin count it returns true, the pin count is one less, the dirty
    flag is the old flag or [d] (so a set flag stays set), the replacer is
    the result of [Unpin(f)] when the count reached zero and is untouched
    otherwise, and nothing else changes. *)
Theorem UnpinPageImpl_spec (s : t) (p f : Z) (page : Page) (d : bool) :
  bpm_inv s → resident s p f page →
  (pin_count_ page ≤ 0 → UnpinPageImpl s p d = Ok (false, s)) ∧
  (0 < pin_count_ page →
     ∃ s', UnpinPageImpl s p d = Ok (true, s') ∧
       frame s' f = Ok (mkPage (data_ page) (page_id_ page) (pin_count_ page - 1)
                               (is_dirty_ page || d)) ∧
       (is_dirty_ page = true → is_dirty_ page || d = true) ∧
       (pin_count_ page = 1 →
          ClockReplacer.Unpin (replacer_ s) f = Ok (replacer_ s')) ∧
       (pin_count_ page ≠ 1 → replacer_ s' = replacer_ s) ∧
       (∀ f', f' ≠ f → frame s' f' = frame s f') ∧
       page_table_ s' = page_table_ s ∧
       free_list_ s' = free_list_ s ∧
       disk_manager_ s' = disk_manager_ s).
Proof.
  intros Hinv Hres. split.
  - intros Hpin. destruct Hres as [Htable Hframe].
    unfold UnpinPageImpl. rewrite Htable, Hframe. simpl.
    destruct (Z.leb_spec (pin_count_ page) 0); [done|lia].
  - intros Hpin.
    destruct (UnpinPageImpl_pinned s p f page d Hinv Hres Hpin) as (r1 & Hr1 & Hrun & _).
    destruct Hres as [Htable Hframe].
    pose proof (frame_Ok_in_pool _ _ _ Hframe) as Hpool.
    eexists. split; [exact Hrun|]. simpl.
    split; [erewrite frame_set_frame; [|reflexivity|done]; by rewrite decide_True|].
    split; [by intros ->|].
    split; [intros H1; by rewrite H1 in Hr1|].
    split; [intros H1; destruct (Z.eqb_spec (pin_count_ page - 1) 0); [lia|done]|].
    split; [|done].
    intros f' Hne. erewrite frame_set_frame; [|reflexivity|done]. by rewrite decide_False.
Qed.

(** *** A frame is given to a new page *)

Lemma lookup_emplace (k v k' x : Z) (m : gmap Z Z) :
  emplace k v m !! k' = Some x →
  m !! k' = Some x ∨ (k' = k ∧ x = v ∧ m !! k = None).
Proof.
  unfold emplace. destruct (m !! k) as [y|] eqn:Hk; [by left|].
  destruct (decide (k = k')) as [<-|Hne].
  - rewrite lookup_insert_eq. intros [= <-]. by right.
  - rewrite lookup_insert_ne by done. by left.
Qed.

(** Frame [f], to which no entry of [table0] points and which is not in the
    list [free'], receives page [new_id]. *)
Lemma bpm_inv_install (s : t) (f new_id : Z) (page' : Page)
    (table0 : gmap Z Z) (free' : list Z)
    (r' : ClockReplacer.t) (d' : DiskManager.t) :
  bpm_inv s → in_pool s f →
  page_id_ page' = new_id →
  (∀ p0 f0, table0 !! p0 = Some f0 → page_table_ s !! p0 = Some f0 ∧ f0 ≠ f) →
  NoDup free' → (∀ x, x ∈ free' → x ∈ free_list_ s ∧ x ≠ f) →
  ClockReplacer.wf r' →
  length (ClockReplacer.clock r') = length (ClockReplacer.clock (replacer_ s)) →
  0 ≤ DiskManager.next_page_id d' →
  bpm_inv (mk (set_frame (pages_ s) f page') (emplace new_id f table0) free' r' d').
Proof.
  intros Hinv Hpool Hid Htable0 Hnd' Hfree' Hwf Hlen Hdisk.
  set (s' := mk _ _ _ _ _).
  assert (Hfr : ∀ f', frame s' f' = if decide (f' = f) then Ok page' else frame s f')
    by (intros f'; by apply frame_set_frame).
  assert (Hin : ∀ f', in_pool s' f' ↔ in_pool s f')
    by (intros f'; by eapply in_pool_set_frame).
  destruct Hinv as [Hr Hc Hnd Hfp Hfz Hfc Htp Htf Hti Hd].
  split; simpl; try done.
  - unfold set_frame. rewrite length_insert. congruence.
  - intros x Hx. apply Hin. apply Hfp. by apply Hfree'.
  - intros x pg Hx Hpg. destruct (Hfree' x Hx) as [Hx0 Hne].
    rewrite Hfr, decide_False in Hpg by done. eauto.
  - intros x pg Hx Hpg. destruct (Hfree' x Hx) as [Hx0 Hne].
    rewrite Hfr, decide_False in Hpg by done. eauto.
  - intros p0 f0 [H0|(-> & -> & _)]%lookup_emplace; apply Hin; [|done].
    apply Htable0 in H0 as [H0 _]. eauto.
  - intros p0 f0 [H0|(-> & -> & _)]%lookup_emplace Hx.
    + apply Htable0 in H0 as [H0 _]. apply Hfree' in Hx as [Hx _]. by eapply Htf.
    + by apply Hfree' in Hx as [_ Hx].
  - intros p0 f0 pg [H0|(-> & -> & _)]%lookup_emplace Hpg; rewrite Hfr in Hpg.
    + apply Htable0 in H0 as [H0 Hne]. rewrite decide_False in Hpg by done. eauto.
    + rewrite decide_True in Hpg by done. by injection Hpg as <-.
Qed.

(** The replacement procedure when the free list has a frame. *)
Lemma ReplaceAndUpdate_free (s : t) (new_id : Z) (new_page : bool) (f : Z) (rest : list Z) :
  bpm_inv s → free_list_ s = f :: rest →
  ∃ page,
    frame s f = Ok page ∧ data_ page = zero_bytes ∧
    let rd := DiskManager.ReadPage (disk_manager_ s) new_id in
    let s2 := mk (set_frame (pages_ s) f
                    (mkPage (if new_page then data_ page else rd.1) new_id 1 new_page))
                 (emplace new_id f (page_table_ s)) rest (replacer_ s)
                 (if new_page then disk_manager_ s else rd.2) in
    ReplaceAndUpdate s new_id new_page = Ok (f, s2) ∧ bpm_inv s2.
Proof.
  intros Hinv Hfree.
  assert (Hin : f ∈ free_list_ s) by (rewrite Hfree; left).
  pose proof (inv_free_pool s Hinv f Hin) as Hpool.
  destruct (frame_in_pool s f Hpool) as [page Hframe].
  exists page. split; [done|]. split; [by eapply inv_free_zero|].
  pose proof (inv_free_nodup s Hinv) as Hnd. rewrite Hfree in Hnd.
  apply NoDup_cons in Hnd as [Hnotin Hnd].
  simpl. split.
  - unfold ReplaceAndUpdate, FindReplacement. rewrite Hfree. simpl.
    rewrite Hframe. simpl. destruct new_page; simpl.
    + unfold UpdateMetadata. simpl.
      replace (frame _ f) with (Ok page) by (symmetry; exact Hframe). done.
    + unfold UpdateMetadata. simpl.
      erewrite frame_set_frame; [|reflexivity|done]. rewrite decide_True by done.
      simpl. unfold set_frame. by rewrite list_insert_insert_eq.
  - assert (Hd : 0 ≤ DiskManager.next_page_id
                     (if new_page then disk_manager_ s
                      else (DiskManager.ReadPage (disk_manager_ s) new_id).2))
      by (destruct new_page; apply (inv_disk s Hinv)).
    apply bpm_inv_install; try done.
    + intros p0 f0 H0. split; [done|]. intros ->. by eapply inv_table_free.
    + intros x Hx. rewrite Hfree. split; [by right|]. by intros ->.
    + apply (inv_replacer s Hinv).
Qed.


(** The replacement procedure when the free list is empty and the replacer
    has a candidate: [s1] is the pool before the frame's meta-data is
    overwritten, [s2] the pool on return. *)
Lemma ReplaceAndUpdate_victim (s : t) (new_id : Z) (new_page : bool) :
  bpm_inv s → free_list_ s = [] → ClockReplacer.Size (replacer_ s) ≠ 0 →
  ∃ f r1 r2 page,
    ClockReplacer.Victim (replacer_ s) = Ok (Some f, r1) ∧
    frame s f = Ok page ∧
    ClockReplacer.Pin r1 f = Ok r2 ∧
    let disk1 :=
      if is_dirty_ page
      then DiskManager.WritePage (disk_manager_ s) (page_id_ page) (data_ page)
      else disk_manager_ s in
    let rd := DiskManager.ReadPage disk1 new_id in
    let table := emplace new_id f (delete (page_id_ page) (page_table_ s)) in
    let bytes := if new_page then zero_bytes else rd.1 in
    let disk2 := if new_page then disk1 else rd.2 in
    let s1 := mk (set_frame (pages_ s) f
                    (mkPage bytes (page_id_ page) (pin_count_ page) (is_dirty_ page)))
                 table [] r2 disk2 in
    let s2 := mk (set_frame (pages_ s) f (mkPage bytes new_id 1 new_page))
                 table [] r2 disk2 in
    FindReplacement s new_id new_page = Ok (f, s1) ∧
    UpdateMetadata s1 f new_id new_page = Ok (f, s2) ∧
    ReplaceAndUpdate s new_id new_page = Ok (f, s2) ∧
    bpm_inv s2.
Proof.
  intros Hinv Hfree Hsize.
  pose proof (inv_replacer s Hinv) as Hwf.
  destruct (ClockReplacerFacts.Victim_returns _ Hwf Hsize)
    as (k & c_sel & f & r1 & Hk & Hrun & Hsel & Hf & _ & Hwf1).
  assert (Hlen1 : length (ClockReplacer.clock r1)
                  = length (ClockReplacer.clock (replacer_ s))).
  { rewrite (ClockReplacer.sel_clock _ _ _ _ _ Hsel), length_insert.
    apply (ClockReplacer.sel_len _ _ _ _ _ Hsel). }
  assert (Hpool : in_pool s f).
  { pose proof (ClockReplacer.sel_in _ _ _ _ _ Hsel) as Hin.
    rewrite (inv_clock s Hinv) in Hin. unfold in_pool. lia. }
  destruct (frame_in_pool s f Hpool) as [page Hframe].
  destruct (ClockReplacerFacts.Pin_in_range r1 f Hwf1) as (r2 & Hpin & Hwf2 & Hlen2 & _).
  { rewrite Hlen1, (inv_clock s Hinv). apply Hpool. }
  assert (HVictim : ClockReplacer.Victim (replacer_ s) = Ok (Some f, r1))
    by (apply Hrun; lia).
  exists f, r1, r2, page. split; [done|]. split; [done|]. split; [done|].
  simpl.
  assert (Hfind : FindReplacement s new_id new_page = Ok (f,
            mk (set_frame (pages_ s) f
                  (mkPage (if new_page then zero_bytes
                           else (DiskManager.ReadPage
                                   (if is_dirty_ page
                                    then DiskManager.WritePage (disk_manager_ s)
                                           (page_id_ page) (data_ page)
                                    else disk_manager_ s) new_id).1)
                          (page_id_ page) (pin_count_ page) (is_dirty_ page)))
               (emplace new_id f (delete (page_id_ page) (page_table_ s))) [] r2
               (if new_page
                then (if is_dirty_ page
                      then DiskManager.WritePage (disk_manager_ s)
                             (page_id_ page) (data_ page)
                      else disk_manager_ s)
                else (DiskManager.ReadPage
                        (if is_dirty_ page
                         then DiskManager.WritePage (disk_manager_ s)
                                (page_id_ page) (data_ page)
                         else disk_manager_ s) new_id).2))).
  { unfold FindReplacement. rewrite Hfree, HVictim. simpl.
    rewrite Hframe. simpl. rewrite Hpin. simpl. by destruct new_page. }
  assert (Hupd : ∀ tb fl r d bytes,
            UpdateMetadata
              (mk (set_frame (pages_ s) f
                     (mkPage bytes (page_id_ page) (pin_count_ page) (is_dirty_ page)))
                  tb fl r d) f new_id new_page
            = Ok (f, mk (set_frame (pages_ s) f (mkPage bytes new_id 1 new_page))
                        tb fl r d)).
  { intros. unfold UpdateMetadata.
    erewrite frame_set_frame; [|reflexivity|done]. rewrite decide_True by done.
    simpl. unfold set_frame. by rewrite list_insert_insert_eq. }
  split; [done|]. split; [apply Hupd|]. split.
  - unfold ReplaceAndUpdate. rewrite Hfree, Hfind. simpl.
    destruct (Z.eqb_spec (ClockReplacer.Size (replacer_ s)) 0); [done|].
    simpl. apply Hupd.
  - apply bpm_inv_install; try done.
    + intros p0 f0 [Hne H0]%lookup_delete_Some. split; [done|]. intros ->.
      apply Hne. by eapply inv_table_id.
    + constructor.
    + intros x Hx. by apply elem_of_nil in Hx.
    + by rewrite Hlen2, Hlen1.
    + destruct new_page, (is_dirty_ page); apply (inv_disk s Hinv).
Qed.


(** *** [NewPage] *)

Lemma bpm_inv_disk (s : t) (d' : DiskManager.t) :
  bpm_inv s → 0 ≤ DiskManager.next_page_id d' →
  bpm_inv (mk (pages_ s) (page_table_ s) (free_list_ s) (replacer_ s) d').
Proof. intros [] Hd. split; done. Qed.

Lemma NewPageImpl_exhausted (s : t) :
  free_list_ s = [] → ClockReplacer.Size (replacer_ s) = 0 →
  NewPageImpl s = Ok (None, INVALID_PAGE_ID, s).
Proof. intros Hfree Hsize. unfold NewPageImpl. by rewrite Hfree, Hsize. Qed.

Lemma NewPageImpl_not_exhausted (s : t) :
  ¬ (free_list_ s = [] ∧ ClockReplacer.Size (replacer_ s) = 0) →
  NewPageImpl s =
    let al := DiskManager.AllocatePage (disk_manager_ s) in
    let s1 := mk (pages_ s) (page_table_ s) (free_list_ s) (replacer_ s) al.2 in
    fs ← ReplaceAndUpdate s1 al.1 true; Ok (Some fs.1, al.1, fs.2).
Proof.
  intros Hne. unfold NewPageImpl.
  destruct (free_list_ s) as [|f rest]; [|done].
  destruct (Z.eqb_spec (ClockReplacer.Size (replacer_ s)) 0); [|done].
  by destruct Hne.
Qed.

Lemma NewPageImpl_frame (s : t) :
  bpm_inv s →
  ¬ (free_list_ s = [] ∧ ClockReplacer.Size (replacer_ s) = 0) →
  ∃ f s',
    NewPageImpl s = Ok (Some f, DiskManager.next_page_id (disk_manager_ s), s') ∧
    frame s' f = Ok (mkPage zero_bytes (DiskManager.next_page_id (disk_manager_ s)) 1 true) ∧
    (∀ f0 rest, free_list_ s = f0 :: rest → f = f0 ∧ free_list_ s' = rest) ∧
    DiskManager.AllocatePage_call (DiskManager.next_page_id (disk_manager_ s))
      ∈ DiskManager.calls (disk_manager_ s') ∧
    bpm_inv s'.
Proof.
  intros Hinv Hne. rewrite (NewPageImpl_not_exhausted s Hne). simpl.
  set (id := DiskManager.next_page_id (disk_manager_ s)).
  set (s1 := mk _ _ _ _ _).
  assert (Hinv1 : bpm_inv s1).
  { apply bpm_inv_disk; [done|]. simpl. pose proof (inv_disk s Hinv). fold id. lia. }
  destruct (free_list_ s) as [|f0 rest] eqn:Hfree.
  - assert (Hsize : ClockReplacer.Size (replacer_ s1) ≠ 0) by (intros Hz; by apply Hne).
    destruct (ReplaceAndUpdate_victim s1 id true Hinv1 eq_refl Hsize)
      as (f & r1 & r2 & page & _ & Hframe & _ & _ & _ & Hrun & Hinv2).
    simpl in Hrun, Hinv2. rewrite Hrun. simpl.
    eexists _, _. split; [reflexivity|].
    pose proof (frame_Ok_in_pool _ _ _ Hframe) as Hpool.
    split; [erewrite frame_set_frame; [|reflexivity|done]; by rewrite decide_True|].
    split; [done|]. split; [|done]. simpl.
    destruct (is_dirty_ page); simpl; set_solver.
  - destruct (ReplaceAndUpdate_free s1 id true f0 rest Hinv1 eq_refl)
      as (page & Hframe & Hzero & Hrun & Hinv2).
    simpl in Hrun, Hinv2. rewrite Hrun. simpl.
    eexists _, _. split; [reflexivity|].
    pose proof (frame_Ok_in_pool _ _ _ Hframe) as Hpool.
    split; [erewrite frame_set_frame; [|reflexivity|done];
            by rewrite decide_True, Hzero|].
    split; [by intros ? ? [= <- <-]|]. split; [|done]. simpl. set_solver.
Qed.

(** C4.  On a pool that satisfies the invariant: with an empty free list and
    a replacer of size 0 (no candidate), [NewPage] writes [INVALID_PAGE_ID]
    to the output, returns null and leaves the pool, and with it the disk,
    untouched; otherwise it returns a frame with a zeroed buffer, set dirty
    flag and pin count 1 whose page id is the id [AllocatePage] has just
    returned (which is also the output), and this frame is the head of the
    free list whenever there is one.  So null, and the invalid output, are
    returned in the first case only. *)
Theorem NewPageImpl_spec (s : t) :
  bpm_inv s →
  (ClockReplacer.Size (replacer_ s) = 0 ↔
   ClockReplacer.present_count (ClockReplacer.clock (replacer_ s)) = 0%nat) ∧
  (free_list_ s = [] ∧ ClockReplacer.Size (replacer_ s) = 0 →
     NewPageImpl s = Ok (None, INVALID_PAGE_ID, s)) ∧
  (¬ (free_list_ s = [] ∧ ClockReplacer.Size (replacer_ s) = 0) →
     ∃ f s',
       NewPageImpl s = Ok (Some f, DiskManager.next_page_id (disk_manager_ s), s') ∧
       DiskManager.next_page_id (disk_manager_ s) ≠ INVALID_PAGE_ID ∧
       frame s' f
       = Ok (mkPage zero_bytes (DiskManager.next_page_id (disk_manager_ s)) 1 true) ∧
       (∀ f0 rest, free_list_ s = f0 :: rest → f = f0 ∧ free_list_ s' = rest) ∧
       DiskManager.AllocatePage_call (DiskManager.next_page_id (disk_manager_ s))
         ∈ DiskManager.calls (disk_manager_ s')) ∧
  (∀ res id s', NewPageImpl s = Ok (res, id, s') →
     (res = None ↔ free_list_ s = [] ∧ ClockReplacer.Size (replacer_ s) = 0) ∧
     (id = INVALID_PAGE_ID ↔ free_list_ s = [] ∧ ClockReplacer.Size (replacer_ s) = 0)).
Proof.
  intros Hinv.
  assert (Hid : DiskManager.next_page_id (disk_manager_ s) ≠ INVALID_PAGE_ID).
  { pose proof (inv_disk s Hinv). unfold INVALID_PAGE_ID. lia. }
  split; [|split; [|split]].
  - unfold ClockReplacer.Size.
    rewrite (ClockReplacer.wf_size _ (inv_replacer s Hinv)). lia.
  - intros [Hfree Hsize]. by apply NewPageImpl_exhausted.
  - intros Hne.
    destruct (NewPageImpl_frame s Hinv Hne) as (f & s' & Hrun & Hframe & Hhead & Hcall & _).
    exists f, s'. done.
  - intros res id s' Hrun.
    destruct (decide (free_list_ s = [] ∧ ClockReplacer.Size (replacer_ s) = 0))
      as [[Hfree Hsize]|Hne].
    + rewrite (NewPageImpl_exhausted s Hfree Hsize) in Hrun.
      injection Hrun as <- <- _. done.
    + destruct (NewPageImpl_frame s Hinv Hne) as (f & s'' & Hrun' & _).
      rewrite Hrun' in Hrun. injection Hrun as <- <- _.
      split; split; done.
Qed.


(** *** [FlushAllPages] *)

Lemma flush_frame_spec (s : t) (a : nat) :
  (∀ i, pages_ (flush_frame s a) !! i
        = if decide (i = a) then flushed <$> pages_ s !! a else pages_ s !! i) ∧
  (∀ c, c ∈ DiskManager.calls (disk_manager_ s) →
        c ∈ DiskManager.calls (disk_manager_ (flush_frame s a))) ∧
  (∀ page, pages_ s !! a = Some page → needs_flush page = true →
     DiskManager.WritePage_call (page_id_ page) (data_ page)
       ∈ DiskManager.calls (disk_manager_ (flush_frame s a))) ∧
  page_table_ (flush_frame s a) = page_table_ s ∧
  free_list_ (flush_frame s a) = free_list_ s ∧
  replacer_ (flush_frame s a) = replacer_ s.
Proof.
  unfold flush_frame.
  destruct (pages_ s !! a) as [page|] eqn:Hpage.
  - assert (Hfl : flushed page
                  = if negb (page_id_ page =? INVALID_PAGE_ID) && is_dirty_ page
                    then mkPage (data_ page) (page_id_ page) (pin_count_ page) false
                    else page) by done.
    unfold needs_flush.
    destruct (negb (page_id_ page =? INVALID_PAGE_ID) && is_dirty_ page) eqn:Hflush;
      simpl; rewrite Hfl.
    + split; [|split; [|split]]; try done.
      * intros i. case_decide as Heq.
        -- subst i. rewrite list_lookup_insert_eq; [done|by eapply lookup_lt_Some].
        -- by rewrite list_lookup_insert_ne.
      * intros c Hc. by right.
      * intros page' [= <-] _. left.
    + split; [|split; [|split]]; try done.
      * intros i. case_decide as Heq; [by subst i|done].
      * intros page' [= <-]. by rewrite Hflush.
  - split; [|split; [|split]]; try done.
    intros i. case_decide as Heq; [by subst i; rewrite Hpage|done].
Qed.

Lemma flush_fold_spec (n a : nat) (s : t) :
  let s' := foldl flush_frame s (seq a n) in
  (∀ i, pages_ s' !! i
        = if decide (a ≤ i < a + n)%nat then flushed <$> pages_ s !! i
          else pages_ s !! i) ∧
  (∀ c, c ∈ DiskManager.calls (disk_manager_ s) →
        c ∈ DiskManager.calls (disk_manager_ s')) ∧
  (∀ i page, (a ≤ i < a + n)%nat → pages_ s !! i = Some page →
     needs_flush page = true →
     DiskManager.WritePage_call (page_id_ page) (data_ page)
       ∈ DiskManager.calls (disk_manager_ s')) ∧
  page_table_ s' = page_table_ s ∧
  free_list_ s' = free_list_ s ∧
  replacer_ s' = replacer_ s.
Proof.
  revert a s. induction n as [|n IH]; intros a s; simpl.
  - split; [|split; [|split]]; try done.
    + intros i. by rewrite decide_False by lia.
    + intros i page Hi. lia.
  - destruct (flush_frame_spec s a) as (Hp1 & Hc1 & Hw1 & Ht1 & Hf1 & Hr1).
    destruct (IH (S a) (flush_frame s a)) as (Hp & Hc & Hw & Ht & Hf & Hr).
    split; [|split; [|split; [|split; [|split]]]]; try congruence.
    + intros i. rewrite Hp, !Hp1.
      destruct (decide (i = a)) as [->|Hne].
      * rewrite decide_False, decide_True by lia. done.
      * destruct (decide (S a ≤ i < S a + n)%nat).
        -- by rewrite decide_True by lia.
        -- by rewrite decide_False by lia.
    + intros c Hin. auto.
    + intros i page Hi Hpage Hflush.
      destruct (decide (i = a)) as [->|Hne]; [by apply Hc, Hw1|].
      apply (Hw i); [lia| |done]. rewrite Hp1, decide_False by done. done.
Qed.

Lemma flush_frame_inv (s : t) (i : nat) : bpm_inv s → bpm_inv (flush_frame s i).
Proof.
  intros Hinv. unfold flush_frame.
  destruct (pages_ s !! i) as [page|] eqn:Hpage; [|done].
  destruct (negb (page_id_ page =? INVALID_PAGE_ID) && is_dirty_ page); [|done].
  assert (Hframe : frame s (Z.of_nat i) = Ok page)
    by (apply frame_Ok; rewrite Nat2Z.id; split; [lia|done]).
  pose proof (bpm_inv_frame_update s (Z.of_nat i) page
                (mkPage (data_ page) (page_id_ page) (pin_count_ page) false)
                (replacer_ s)
                (DiskManager.WritePage (disk_manager_ s) (page_id_ page) (data_ page))
                Hinv Hframe) as Hupd.
  unfold set_frame in Hupd. rewrite Nat2Z.id in Hupd.
  apply Hupd; simpl; try done.
  - apply (inv_replacer s Hinv).
  - apply (inv_disk s Hinv).
Qed.

Lemma FlushAllPagesImpl_inv (s : t) : bpm_inv s → bpm_inv (FlushAllPagesImpl s).
Proof.
  unfold FlushAllPagesImpl. generalize (seq 0 (pool_size_ s)) as l.
  intros l. revert s. induction l as [|i l IH]; intros s Hinv; [done|].
  simpl. apply IH. by apply flush_frame_inv.
Qed.

(** C2.  When the replacement procedure takes a victim from the replacer,
    the pool [s1] in which the disk calls of the procedure have been made
    still has the victim's old page id in the frame, and the id is
    overwritten by the step from [s1] to [s2], which makes no disk call; if
    the victim was dirty, its bytes were written under the old id in [s1]
    (followed at most by the read of the new page) and the disk holds them
    there.  A frame that the procedure takes from the free list instead is
    never dirty.  After [FlushAllPages] every frame that held a page and was
    dirty has been written to disk with its bytes under its id, and is
    clean, with id, bytes and pin count unchanged. *)
Theorem dirty_frames_written (s : t) :
  (bpm_inv s → free_list_ s = [] → ClockReplacer.Size (replacer_ s) ≠ 0 →
   ∀ new_id new_page,
     ∃ f r1 page s1 s2,
       ClockReplacer.Victim (replacer_ s) = Ok (Some f, r1) ∧
       frame s f = Ok page ∧
       FindReplacement s new_id new_page = Ok (f, s1) ∧
       UpdateMetadata s1 f new_id new_page = Ok (f, s2) ∧
       ReplaceAndUpdate s new_id new_page = Ok (f, s2) ∧
       (∃ page1, frame s1 f = Ok page1 ∧ page_id_ page1 = page_id_ page) ∧
       (∃ page2, frame s2 f = Ok page2 ∧ page_id_ page2 = new_id) ∧
       disk_manager_ s2 = disk_manager_ s1 ∧
       (is_dirty_ page = true →
          DiskManager.calls (disk_manager_ s1)
          = (if new_page then [] else [DiskManager.ReadPage_call new_id])
            ++ DiskManager.WritePage_call (page_id_ page) (data_ page)
            :: DiskManager.calls (disk_manager_ s) ∧
          DiskManager.store (disk_manager_ s1) !! page_id_ page = Some (data_ page)) ∧
       (is_dirty_ page = false →
          DiskManager.calls (disk_manager_ s1)
          = (if new_page then [] else [DiskManager.ReadPage_call new_id])
            ++ DiskManager.calls (disk_manager_ s))) ∧
  (bpm_inv s → ∀ f rest new_id new_page, free_list_ s = f :: rest →
     ∃ page s2,
       frame s f = Ok page ∧ is_dirty_ page = false ∧
       ReplaceAndUpdate s new_id new_page = Ok (f, s2)) ∧
  (∀ i page, pages_ s !! i = Some page →
     page_id_ page ≠ INVALID_PAGE_ID → is_dirty_ page = true →
     DiskManager.WritePage_call (page_id_ page) (data_ page)
       ∈ DiskManager.calls (disk_manager_ (FlushAllPagesImpl s)) ∧
     pages_ (FlushAllPagesImpl s) !! i
     = Some (mkPage (data_ page) (page_id_ page) (pin_count_ page) false)).
Proof.
  split; [|split].
  - intros Hinv Hfree Hsize new_id new_page.
    destruct (ReplaceAndUpdate_victim s new_id new_page Hinv Hfree Hsize)
      as (f & r1 & r2 & page & HVictim & Hframe & _ & Hfind & Hupd & Hrun & _).
    simpl in Hfind, Hupd, Hrun.
    pose proof (frame_Ok_in_pool _ _ _ Hframe) as Hpool.
    eexists f, r1, page, _, _.
    split; [done|]. split; [done|]. split; [exact Hfind|]. split; [exact Hupd|].
    split; [exact Hrun|]. simpl.
    split; [eexists; split;
            [erewrite frame_set_frame; [|reflexivity|done]; by rewrite decide_True|done]|].
    split; [eexists; split;
            [erewrite frame_set_frame; [|reflexivity|done]; by rewrite decide_True|done]|].
    split; [done|].
    split; intros ->; [|by destruct new_page].
    split; destruct new_page; simpl; try done; apply lookup_insert_eq.
  - intros Hinv f rest new_id new_page Hfree.
    destruct (ReplaceAndUpdate_free s new_id new_page f rest Hinv Hfree)
      as (page & Hframe & _ & Hrun & _).
    simpl in Hrun. eexists page, _. split; [done|]. split; [|exact Hrun].
    apply (inv_free_clean s Hinv f page); [rewrite Hfree; left|done].
  - intros i page Hpage Hid Hdirty.
    assert (Hflush : needs_flush page = true).
    { unfold needs_flush. rewrite Hdirty.
      by destruct (Z.eqb_spec (page_id_ page) INVALID_PAGE_ID). }
    pose proof (lookup_lt_Some _ _ _ Hpage) as Hlt.
    destruct (flush_fold_spec (pool_size_ s) 0 s) as (Hp & _ & Hw & _).
    fold (FlushAllPagesImpl s) in Hp, Hw. split.
    + apply (Hw i); [unfold pool_size_; lia|done|done].
    + rewrite Hp, decide_True by (unfold pool_size_; lia).
      rewrite Hpage. simpl. unfold flushed. by rewrite Hflush.
Qed.

(** *** [DeletePage] *)

Lemma DeletePageImpl_absent (s : t) (p : Z) :
  page_table_ s !! p = None →
  DeletePageImpl s p =
    Ok (true, mk (pages_ s) (page_table_ s) (free_list_ s) (replacer_ s)
                 (DiskManager.DeallocatePage (disk_manager_ s) p)).
Proof. intros Hnone. unfold DeletePageImpl. by rewrite Hnone. Qed.

Lemma DeletePageImpl_pinned (s : t) (p f : Z) (page : Page) :
  resident s p f page → 0 < pin_count_ page → DeletePageImpl s p = Ok (false, s).
Proof.
  intros [Htable Hframe] Hpin. unfold DeletePageImpl. rewrite Htable, Hframe. simpl.
  destruct (Z.gtb_spec (pin_count_ page) 0); [done|lia].
Qed.

(** The branch of [DeletePageImpl] that deletes the page: everything is done
    as the comments of the source announce, and the value returned is
    [false]. *)
Lemma DeletePageImpl_unpinned (s : t) (p f : Z) (page : Page) :
  bpm_inv s → resident s p f page → pin_count_ page ≤ 0 →
  ∃ r1,
    ClockReplacer.Pin (replacer_ s) f = Ok r1 ∧
    let s' := mk (set_frame (pages_ s) f
                    (mkPage zero_bytes INVALID_PAGE_ID (pin_count_ page) false))
                 (delete p (page_table_ s)) (free_list_ s ++ [f]) r1
                 (DiskManager.DeallocatePage (disk_manager_ s) p) in
    DeletePageImpl s p = Ok (false, s') ∧ bpm_inv s'.
Proof.
  intros Hinv [Htable Hframe] Hpin.
  pose proof (inv_table_pool s Hinv p f Htable) as Hpool.
  destruct (ClockReplacerFacts.Pin_in_range (replacer_ s) f (inv_replacer s Hinv))
    as (r1 & Hr1 & Hwf1 & Hlen1 & _).
  { rewrite (inv_clock s Hinv). apply Hpool. }
  exists r1. split; [done|]. simpl. split.
  - unfold DeletePageImpl. rewrite Htable, Hframe. simpl.
    destruct (Z.gtb_spec (pin_count_ page) 0); [lia|]. by rewrite Hr1.
  - set (s' := mk _ _ _ _ _).
    assert (Hfr : ∀ f', frame s' f'
                  = if decide (f' = f)
                    then Ok (mkPage zero_bytes INVALID_PAGE_ID (pin_count_ page) false)
                    else frame s f')
      by (intros f'; by apply frame_set_frame).
    assert (Hin : ∀ f', in_pool s' f' ↔ in_pool s f')
      by (intros f'; by eapply in_pool_set_frame).
    assert (Hother : ∀ p0 f0, delete p (page_table_ s) !! p0 = Some f0 →
                              page_table_ s !! p0 = Some f0 ∧ f0 ≠ f).
    { intros p0 f0 [Hne H0]%lookup_delete_Some. split; [done|]. intros ->.
      apply Hne.
      rewrite <- (inv_table_id s Hinv p f page Htable Hframe).
      apply (inv_table_id s Hinv p0 f page H0 Hframe). }
    destruct Hinv as [Hr Hc Hnd Hfp Hfz Hfc Htp Htf Hti Hd].
    split; simpl; try done.
    + unfold set_frame. rewrite length_insert. congruence.
    + apply NoDup_app. split; [done|]. split; [|apply NoDup_singleton].
      intros x Hx ->%list_elem_of_singleton. by eapply Htf.
    + intros x [Hx| ->%list_elem_of_singleton]%elem_of_app; apply Hin; auto.
    + intros x pg Hx Hpg. rewrite Hfr in Hpg. case_decide as Heq.
      * by injection Hpg as <-.
      * apply elem_of_app in Hx as [Hx|Hx%list_elem_of_singleton]; [eauto|done].
    + intros x pg Hx Hpg. rewrite Hfr in Hpg. case_decide as Heq.
      * by injection Hpg as <-.
      * apply elem_of_app in Hx as [Hx|Hx%list_elem_of_singleton]; [eauto|done].
    + intros p0 f0 [H0 _]%Hother. apply Hin. eauto.
    + intros p0 f0 [H0 Hne]%Hother [Hx|Hx%list_elem_of_singleton]%elem_of_app;
        [by eapply Htf|done].
    + intros p0 f0 pg [H0 Hne]%Hother Hpg.
      rewrite Hfr, decide_False in Hpg by done. eauto.
Qed.

(** *** The invariant holds in every reachable pool *)

Lemma free_list_new (pool_size : nat) :
  Z.of_nat pool_size ≤ 2 ^ 31 →
  ClockReplacer.static_cast_frame_id_t <$> seq 0 pool_size
  = Z.of_nat <$> seq 0 pool_size.
Proof.
  intros Hn. apply list_fmap_ext. intros i x Hx.
  apply lookup_seq in Hx as [-> Hlt].
  apply ClockReplacerFacts.static_cast_frame_id_t_small. lia.
Qed.

Lemma bpm_inv_new (pool_size : nat) (disk : DiskManager.t) :
  Z.of_nat pool_size ≤ 2 ^ 31 → 0 ≤ DiskManager.next_page_id disk →
  bpm_inv (new pool_size disk).
Proof.
  intros Hn Hd. unfold new. rewrite free_list_new by done.
  split; simpl; try done.
  - by apply ClockReplacerFacts.wf_new.
  - by rewrite !length_replicate.
  - apply NoDup_fmap_2; [apply _|apply NoDup_seq].
  - intros f (i & -> & Hi%elem_of_seq)%list_elem_of_fmap.
    unfold in_pool. simpl. rewrite length_replicate. lia.
  - intros f page _ [_ Hl]%frame_Ok. simpl in Hl.
    apply lookup_replicate in Hl as [-> _]. done.
  - intros f page _ [_ Hl]%frame_Ok. simpl in Hl.
    apply lookup_replicate in Hl as [-> _]. done.
Qed.

Lemma FetchPageImpl_inv (s : t) (p : Z) (res : option Z) (s' : t) :
  bpm_inv s → FetchPageImpl s p = Ok (res, s') → bpm_inv s'.
Proof.
  intros Hinv Hrun. unfold FetchPageImpl in Hrun.
  destruct (page_table_ s !! p) as [f|] eqn:Htable.
  - pose proof (inv_table_pool s Hinv p f Htable) as Hpool.
    destruct (frame_in_pool s f Hpool) as [page Hframe].
    rewrite Hframe in Hrun. simpl in Hrun.
    destruct (pin_count_ page =? INT_MAX); [done|].
    assert (Hr : ∃ r1, (if pin_count_ page + 1 >? 0
                        then ClockReplacer.Pin (replacer_ s) f
                        else Ok (replacer_ s)) = Ok r1 ∧
                       ClockReplacer.wf r1 ∧
                       length (ClockReplacer.clock r1)
                       = length (ClockReplacer.clock (replacer_ s))).
    { destruct (pin_count_ page + 1 >? 0).
      - destruct (ClockReplacerFacts.Pin_in_range (replacer_ s) f (inv_replacer s Hinv))
          as (r1 & Hr1 & Hwf1 & Hlen1 & _); [|by eauto].
        rewrite (inv_clock s Hinv). apply Hpool.
      - exists (replacer_ s). split; [done|]. split; [apply (inv_replacer s Hinv)|done]. }
    destruct Hr as (r1 & Hr1 & Hwf1 & Hlen1). rewrite Hr1 in Hrun. simpl in Hrun.
    injection Hrun as _ <-.
    apply (bpm_inv_frame_update s f page _ r1 _ Hinv Hframe); simpl; try done.
    apply (inv_disk s Hinv).
  - destruct (free_list_ s) as [|f rest] eqn:Hfree.
    + simpl in Hrun.
      destruct (Z.eqb_spec (ClockReplacer.Size (replacer_ s)) 0) as [Hz|Hnz];
        [by injection Hrun as _ <-|].
      destruct (ReplaceAndUpdate_victim s p false Hinv Hfree Hnz)
        as (f & r1 & r2 & page & _ & _ & _ & _ & _ & Hrep & Hinv2).
      simpl in Hrep, Hinv2. rewrite Hrep in Hrun. simpl in Hrun.
      by injection Hrun as _ <-.
    + simpl in Hrun.
      destruct (ReplaceAndUpdate_free s p false f rest Hinv Hfree)
        as (page & _ & _ & Hrep & Hinv2).
      simpl in Hrep, Hinv2. rewrite Hrep in Hrun. simpl in Hrun.
      by injection Hrun as _ <-.
Qed.

Lemma UnpinPageImpl_inv (s : t) (p : Z) (d res : bool) (s' : t) :
  bpm_inv s → UnpinPageImpl s p d = Ok (res, s') → bpm_inv s'.
Proof.
  intros Hinv Hrun.
  destruct (page_table_ s !! p) as [f|] eqn:Htable;
    [|by unfold UnpinPageImpl in Hrun; rewrite Htable in Hrun].
  destruct (frame_in_pool s f (inv_table_pool s Hinv p f Htable)) as [page Hframe].
  destruct (Z.le_gt_cases (pin_count_ page) 0) as [Hpin|Hpin].
  - unfold UnpinPageImpl in Hrun. rewrite Htable, Hframe in Hrun. simpl in Hrun.
    destruct (Z.leb_spec (pin_count_ page) 0); [|lia]. by injection Hrun as _ <-.
  - destruct (UnpinPageImpl_pinned s p f page d Hinv) as (r1 & _ & Hrun' & Hinv');
      [done|lia|].
    rewrite Hrun' in Hrun. by injection Hrun as _ <-.
Qed.

Lemma FlushPageImpl_inv (s : t) (p : Z) (res : bool) (s' : t) :
  bpm_inv s → FlushPageImpl s p = Ok (res, s') → bpm_inv s'.
Proof.
  intros Hinv Hrun. unfold FlushPageImpl in Hrun.
  destruct (page_table_ s !! p) as [f|] eqn:Htable; [|by injection Hrun as _ <-].
  destruct (frame s f) as [page| | |] eqn:Hframe; try done. simpl in Hrun.
  destruct (negb (page_id_ page =? INVALID_PAGE_ID) && is_dirty_ page);
    injection Hrun as _ <-; [|done].
  apply (bpm_inv_frame_update s f page _ _ _ Hinv Hframe); simpl; try done.
  - apply (inv_replacer s Hinv).
  - apply (inv_disk s Hinv).
Qed.

Lemma NewPageImpl_inv (s : t) (res : option Z) (id : Z) (s' : t) :
  bpm_inv s → NewPageImpl s = Ok (res, id, s') → bpm_inv s'.
Proof.
  intros Hinv Hrun.
  destruct (decide (free_list_ s = [] ∧ ClockReplacer.Size (replacer_ s) = 0))
    as [[Hfree Hsize]|Hne].
  - rewrite (NewPageImpl_exhausted s Hfree Hsize) in Hrun. by injection Hrun as _ _ <-.
  - destruct (NewPageImpl_frame s Hinv Hne) as (f & s'' & Hrun' & _ & _ & _ & Hinv').
    rewrite Hrun' in Hrun. by injection Hrun as _ _ <-.
Qed.

Lemma DeletePageImpl_inv (s : t) (p : Z) (res : bool) (s' : t) :
  bpm_inv s → DeletePageImpl s p = Ok (res, s') → bpm_inv s'.
Proof.
  intros Hinv Hrun.
  destruct (page_table_ s !! p) as [f|] eqn:Htable.
  - destruct (frame_in_pool s f (inv_table_pool s Hinv p f Htable)) as [page Hframe].
    destruct (Z.le_gt_cases (pin_count_ page) 0) as [Hpin|Hpin].
    + destruct (DeletePageImpl_unpinned s p f page Hinv) as (r1 & _ & Hrun' & Hinv');
        [done|done|].
      simpl in Hrun', Hinv'. rewrite Hrun' in Hrun. by injection Hrun as _ <-.
    + rewrite (DeletePageImpl_pinned s p f page) in Hrun; [|done|lia].
      by injection Hrun as _ <-.
  - rewrite (DeletePageImpl_absent s p Htable) in Hrun. injection Hrun as _ <-.
    apply bpm_inv_disk; [done|]. apply (inv_disk s Hinv).
Qed.

Lemma step_inv (s s' : t) : bpm_inv s → step s s' → bpm_inv s'.
Proof.
  intros Hinv Hstep. destruct Hstep as
    [s p res s' Hrun | s p d res s' Hrun | s p res s' Hrun | s res id s' Hrun
    | s p res s' Hrun | s | s p f page bytes [Htable Hframe] Hpin Hlen].
  - by eapply FetchPageImpl_inv.
  - by eapply UnpinPageImpl_inv.
  - by eapply FlushPageImpl_inv.
  - by eapply NewPageImpl_inv.
  - by eapply DeletePageImpl_inv.
  - by apply FlushAllPagesImpl_inv.
  - unfold client_write.
    apply (bpm_inv_frame_update s f page _ _ _ Hinv Hframe); simpl; try done.
    + intros Hfree. exfalso. by eapply inv_table_free.
    + apply (inv_replacer s Hinv).
    + apply (inv_disk s Hinv).
Qed.

(** Every pool the operations can produce from a new one satisfies the
    invariant. *)
Lemma reachable_inv (s : t) : reachable s → bpm_inv s.
Proof.
  induction 1 as [pool_size disk Hn Hd | s s' _ IH Hstep].
  - by apply bpm_inv_new.
  - by eapply step_inv.
Qed.


(** *** The example pools *)

Lemma pool0_NewPage : NewPageImpl pool0 = Ok (Some 0, 0, pool_pinned).
Proof. vm_compute. reflexivity. Qed.

Lemma pool_pinned_Unpin : UnpinPageImpl pool_pinned 0 false = Ok (true, pool_unpinned).
Proof. vm_compute. reflexivity. Qed.

Lemma pool_full_pinned_NewPage :
  NewPageImpl (new 1 disk0) = Ok (Some 0, 0, pool_full_pinned).
Proof. vm_compute. reflexivity. Qed.

Lemma pool_full_pinned_Unpin :
  UnpinPageImpl pool_full_pinned 0 false = Ok (true, pool_full).
Proof. vm_compute. reflexivity. Qed.

Lemma pool0_reachable : reachable pool0.
Proof. apply reachable_new; [vm_compute; discriminate|simpl; lia]. Qed.

Lemma pool_pinned_reachable : reachable pool_pinned.
Proof.
  eapply reachable_step; [exact pool0_reachable|].
  eapply step_New. exact pool0_NewPage.
Qed.

Lemma pool_unpinned_reachable : reachable pool_unpinned.
Proof.
  eapply reachable_step; [exact pool_pinned_reachable|].
  eapply step_Unpin. exact pool_pinned_Unpin.
Qed.

Lemma pool_full_pinned_reachable : reachable pool_full_pinned.
Proof.
  eapply reachable_step;
    [apply (reachable_new 1 disk0); [vm_compute; discriminate|simpl; lia]|].
  eapply step_New. exact pool_full_pinned_NewPage.
Qed.

Lemma pool_full_reachable : reachable pool_full.
Proof.
  eapply reachable_step; [exact pool_full_pinned_reachable|].
  eapply step_Unpin. exact pool_full_pinned_Unpin.
Qed.

(** C1, on the code.  Page 0 is resident in frame 0 of [pool_unpinned] with
    pin count 0.  [DeletePage(0)] removes it from the page table, takes the
    frame out of the replacer, appends it to the free list, deallocates the
    page on disk, zeroes the buffer, sets the id to [INVALID_PAGE_ID] and
    clears the dirty flag, and then returns [false], where the comments of
    the source and the specification have [true]. *)
Theorem DeletePageImpl_success_returns_false :
  resident pool_unpinned 0 0 (mkPage zero_bytes 0 0 true) ∧
  DeletePageImpl pool_unpinned 0 = Ok (false, pool_deleted) ∧
  page_table_ pool_deleted !! 0 = None ∧
  ClockReplacer.Pin (replacer_ pool_unpinned) 0 = Ok (replacer_ pool_deleted) ∧
  free_list_ pool_deleted = free_list_ pool_unpinned ++ [0] ∧
  frame pool_deleted 0 = Ok (mkPage zero_bytes INVALID_PAGE_ID 0 false) ∧
  disk_manager_ pool_deleted
  = DiskManager.DeallocatePage (disk_manager_ pool_unpinned) 0.
Proof.
  split; [split; vm_compute; reflexivity|].
  split; [vm_compute; reflexivity|].
  repeat split; vm_compute; reflexivity.
Qed.

(** *** The theorems at the example pools *)

Lemma FlushPageImpl_spec_witness :
  resident pool_unpinned 0 0 (mkPage zero_bytes 0 0 true) ∧
  ∃ s', FlushPageImpl pool_unpinned 0 = Ok (true, s') ∧
        frame s' 0 = Ok (mkPage zero_bytes 0 0 false).
Proof.
  assert (Hres : resident pool_unpinned 0 0 (mkPage zero_bytes 0 0 true))
    by (split; vm_compute; reflexivity).
  split; [exact Hres|].
  destruct (FlushPageImpl_spec pool_unpinned 0) as (_ & Hflush & _).
  destruct (Hflush 0 _ Hres) as (s' & Hrun & Hframe & _).
  exists s'. split; [exact Hrun|exact Hframe].
Defined.

Lemma UnpinPageImpl_spec_witness :
  bpm_inv pool_pinned ∧
  resident pool_pinned 0 0 (mkPage zero_bytes 0 1 true) ∧
  ∃ s', UnpinPageImpl pool_pinned 0 false = Ok (true, s') ∧
        frame s' 0 = Ok (mkPage zero_bytes 0 0 true).
Proof.
  assert (Hinv : bpm_inv pool_pinned) by exact (reachable_inv _ pool_pinned_reachable).
  assert (Hres : resident pool_pinned 0 0 (mkPage zero_bytes 0 1 true))
    by (split; vm_compute; reflexivity).
  split; [exact Hinv|]. split; [exact Hres|].
  destruct (UnpinPageImpl_spec pool_pinned 0 0 _ false Hinv Hres) as (_ & Hpinned).
  destruct Hpinned as (s' & Hrun & Hframe & _); [simpl; lia|].
  exists s'. split; [exact Hrun|exact Hframe].
Defined.

Lemma NewPageImpl_spec_witness :
  bpm_inv pool_unpinned ∧
  ∃ s', NewPageImpl pool_unpinned = Ok (Some 1, 1, s') ∧
        frame s' 1 = Ok (mkPage zero_bytes 1 1 true).
Proof.
  assert (Hinv : bpm_inv pool_unpinned)
    by exact (reachable_inv _ pool_unpinned_reachable).
  split; [exact Hinv|].
  destruct (NewPageImpl_spec pool_unpinned Hinv) as (_ & _ & Hnew & _).
  destruct Hnew as (f & s' & Hrun & _ & Hframe & Hhead & _).
  { intros [Hfree _]. vm_compute in Hfree. discriminate. }
  destruct (Hhead 1 [2] eq_refl) as [-> _].
  exists s'. split; [exact Hrun|exact Hframe].
Defined.

Lemma dirty_frames_written_witness :
  bpm_inv pool_full ∧ free_list_ pool_full = [] ∧
  ClockReplacer.Size (replacer_ pool_full) ≠ 0 ∧
  (∃ f s2, ReplaceAndUpdate pool_full 1 true = Ok (f, s2)) ∧
  DiskManager.WritePage_call 0 zero_bytes
    ∈ DiskManager.calls (disk_manager_ (FlushAllPagesImpl pool_full)).
Proof.
  assert (Hinv : bpm_inv pool_full) by exact (reachable_inv _ pool_full_reachable).
  assert (Hfree : free_list_ pool_full = []) by reflexivity.
  assert (Hsize : ClockReplacer.Size (replacer_ pool_full) ≠ 0) by (simpl; lia).
  split; [exact Hinv|]. split; [exact Hfree|]. split; [exact Hsize|].
  destruct (dirty_frames_written pool_full) as (Hrep & _ & Hall). split.
  - destruct (Hrep Hinv Hfree Hsize 1 true)
      as (f & r1 & page & s1 & s2 & _ & _ & _ & _ & Hrun & _).
    exists f, s2. exact Hrun.
  - apply (Hall 0%nat (mkPage zero_bytes 0 0 true)).
    + reflexivity.
    + unfold INVALID_PAGE_ID. simpl. lia.
    + reflexivity.
Defined.

(** *** The candidates of the replacer are unpinned resident frames *)

Lemma emplace_keeps (k v k' x : Z) (m : gmap Z Z) :
  m !! k' = Some x → emplace k v m !! k' = Some x.
Proof.
  intros Hk'. unfold emplace. destruct (m !! k) as [y|] eqn:Hk; [done|].
  rewrite lookup_insert_ne; [done|]. intros ->. congruence.
Qed.

Lemma emplace_ne (k v k' : Z) (m : gmap Z Z) :
  k ≠ k' → emplace k v m !! k' = m !! k'.
Proof.
  intros Hne. unfold emplace. destruct (m !! k); [done|].
  by rewrite lookup_insert_ne.
Qed.

Lemma emplace_new (k v : Z) (m : gmap Z Z) :
  m !! k = None → emplace k v m !! k = Some v.
Proof. intros Hk. unfold emplace. rewrite Hk. apply lookup_insert_eq. Qed.

Lemma cand_inv_frame_update (s : t) (f : Z) (page page' : Page)
    (r' : ClockReplacer.t) (d' : DiskManager.t) :
  cand_inv s → frame s f = Ok page →
  page_id_ page' = page_id_ page →
  (∀ i b, ClockReplacer.clock r' !! i = Some (true, b) → Z.of_nat i ≠ f →
     ∃ b', ClockReplacer.clock (replacer_ s) !! i = Some (true, b')) →
  (∀ b, ClockReplacer.clock r' !! Z.to_nat f = Some (true, b) →
     pin_count_ page' = 0 ∧ page_table_ s !! page_id_ page = Some f) →
  cand_inv (mk (set_frame (pages_ s) f page') (page_table_ s) (free_list_ s) r' d').
Proof.
  intros Hcand Hframe Hid Hothers Hhere i b Hi.
  pose proof (frame_Ok_in_pool _ _ _ Hframe) as Hpool.
  set (s' := mk _ _ _ _ _).
  assert (Hfr : ∀ f', frame s' f' = if decide (f' = f) then Ok page' else frame s f')
    by (intros f'; by apply frame_set_frame).
  simpl in Hi. rewrite Hfr. destruct (decide (Z.of_nat i = f)) as [Heq|Hne].
  - subst f. rewrite Nat2Z.id in Hhere. destruct (Hhere b Hi) as [Hpin Htable].
    exists page'. simpl. by rewrite Hid.
  - destruct (Hothers i b Hi Hne) as [b' Hold]. apply (Hcand i b' Hold).
Qed.

Lemma cand_inv_same_pin (s : t) (f : Z) (page page' : Page) (d' : DiskManager.t) :
  cand_inv s → frame s f = Ok page →
  page_id_ page' = page_id_ page → pin_count_ page' = pin_count_ page →
  cand_inv (mk (set_frame (pages_ s) f page') (page_table_ s) (free_list_ s)
               (replacer_ s) d').
Proof.
  intros Hcand Hframe Hid Hpin.
  apply (cand_inv_frame_update s f page); try done.
  - eauto.
  - intros b Hb. pose proof (frame_Ok_in_pool _ _ _ Hframe) as [Hf _].
    destruct (Hcand _ _ Hb) as (page0 & Hframe0 & Hpin0 & Htable0).
    rewrite Z2Nat.id in Hframe0, Htable0 by done.
    rewrite Hframe in Hframe0. injection Hframe0 as <-. by rewrite Hpin.
Qed.

Lemma cand_inv_install (s : t) (f new_id : Z) (page' : Page)
    (table0 : gmap Z Z) (free' : list Z)
    (r' : ClockReplacer.t) (d' : DiskManager.t) :
  cand_inv s → in_pool s f →
  (∀ i b, ClockReplacer.clock r' !! i = Some (true, b) →
     Z.of_nat i ≠ f ∧ ∃ b', ClockReplacer.clock (replacer_ s) !! i = Some (true, b')) →
  (∀ p0 f0, page_table_ s !! p0 = Some f0 → f0 ≠ f → table0 !! p0 = Some f0) →
  cand_inv (mk (set_frame (pages_ s) f page') (emplace new_id f table0) free' r' d').
Proof.
  intros Hcand Hpool Hcands Htable0 i b Hi.
  set (s' := mk _ _ _ _ _).
  assert (Hfr : ∀ f', frame s' f' = if decide (f' = f) then Ok page' else frame s f')
    by (intros f'; by apply frame_set_frame).
  simpl in Hi. destruct (Hcands i b Hi) as [Hne [b' Hold]].
  destruct (Hcand i b' Hold) as (page & Hframe & Hpin & Htable).
  exists page. rewrite Hfr, decide_False by done.
  split; [done|]. split; [done|]. simpl. apply emplace_keeps. by apply Htable0.
Qed.

(** The candidates after the victim was taken and pinned. *)
Lemma victim_pinned_candidates (r r1 r2 : ClockReplacer.t) (v : Z) :
  ClockReplacer.wf r →
  ClockReplacer.Victim r = Ok (Some v, r1) → ClockReplacer.Pin r1 v = Ok r2 →
  (∃ b, ClockReplacer.clock r !! Z.to_nat v = Some (true, b)) ∧ 0 ≤ v ∧
  ∀ i b, ClockReplacer.clock r2 !! i = Some (true, b) →
    Z.of_nat i ≠ v ∧ ∃ b', ClockReplacer.clock r !! i = Some (true, b').
Proof.
  intros Hwf HVictim Hpin.
  destruct (ClockReplacerFacts.Victim_candidates _ _ _ _ Hwf HVictim)
    as (Hv & Hwf1 & Hlen1 & Hcand & _ & _ & Hsub & _).
  destruct (ClockReplacerFacts.Pin_in_range r1 v Hwf1) as (r2' & Hpin' & _ & _ & _ & Hclock);
    [by rewrite Hlen1|].
  rewrite Hpin' in Hpin. injection Hpin as <-.
  split; [done|]. split; [lia|].
  intros i b Hi. rewrite Hclock in Hi.
  destruct (decide (i = Z.to_nat v)) as [->|Hne].
  - rewrite list_lookup_insert_eq in Hi; [done|]. rewrite Hlen1. lia.
  - rewrite list_lookup_insert_ne in Hi by done.
    destruct (Hsub i b Hi) as [_ Hold]. split; [lia|done].
Qed.

(** What the replacement procedure keeps: the candidates stay unpinned
    resident frames, and a pinned resident page stays where it is. *)
Lemma ReplaceAndUpdate_keeps (s : t) (new_id : Z) (new_page : bool) (f : Z) (s2 : t) :
  bpm_inv s → cand_inv s → ReplaceAndUpdate s new_id new_page = Ok (f, s2) →
  cand_inv s2 ∧
  (∀ p f' page, resident s p f' page → 0 < pin_count_ page → resident s2 p f' page).
Proof.
  intros Hinv Hcand Hrun.
  destruct (free_list_ s) as [|f0 rest] eqn:Hfree.
  - assert (Hsize : ClockReplacer.Size (replacer_ s) ≠ 0).
    { intros Hz. unfold ReplaceAndUpdate in Hrun. by rewrite Hfree, Hz in Hrun. }
    destruct (ReplaceAndUpdate_victim s new_id new_page Hinv Hfree Hsize)
      as (v & r1 & r2 & pagev & HVictim & Hframev & Hpin & _ & _ & Hrun' & _).
    simpl in Hrun'. rewrite Hrun' in Hrun. injection Hrun as <- <-.
    destruct (victim_pinned_candidates _ _ _ _ (inv_replacer s Hinv) HVictim Hpin)
      as ([bv Hv] & Hv0 & Hcands).
    pose proof (frame_Ok_in_pool _ _ _ Hframev) as Hpool.
    destruct (Hcand _ _ Hv) as (pagev' & Hframev' & Hpinv & Htablev).
    rewrite Z2Nat.id in Hframev', Htablev by done.
    rewrite Hframev in Hframev'. injection Hframev' as <-.
    assert (Htable0 : ∀ p0 f0, page_table_ s !! p0 = Some f0 → f0 ≠ v →
                               delete (page_id_ pagev) (page_table_ s) !! p0 = Some f0).
    { intros p0 f0 H0 Hne. rewrite lookup_delete_ne; [done|]. intros Heq.
      rewrite <- Heq in H0. congruence. }
    split.
    + by apply cand_inv_install.
    + intros p f' page [Htable Hframe] Hpinned.
      assert (Hne : f' ≠ v).
      { intros ->. rewrite Hframev in Hframe. injection Hframe as <-. lia. }
      split; simpl.
      * apply emplace_keeps. by apply Htable0.
      * erewrite frame_set_frame; [|reflexivity|done]. by rewrite decide_False.
  - destruct (ReplaceAndUpdate_free s new_id new_page f0 rest Hinv Hfree)
      as (page0 & Hframe0 & _ & Hrun' & _).
    simpl in Hrun'. rewrite Hrun' in Hrun. injection Hrun as <- <-.
    assert (Hin0 : f0 ∈ free_list_ s) by (rewrite Hfree; left).
    pose proof (frame_Ok_in_pool _ _ _ Hframe0) as Hpool.
    split.
    + apply cand_inv_install; try done.
      intros i b Hi. split; [|eauto].
      destruct (Hcand _ _ Hi) as (page & _ & _ & Htable).
      intros Heq. rewrite Heq in Htable. by eapply inv_table_free.
    + intros p f' page [Htable Hframe] _.
      assert (Hne : f' ≠ f0) by (intros ->; by eapply inv_table_free).
      split; simpl.
      * by apply emplace_keeps.
      * erewrite frame_set_frame; [|reflexivity|done]. by rewrite decide_False.
Qed.

Lemma cand_inv_disk (s : t) (d' : DiskManager.t) :
  cand_inv s →
  cand_inv (mk (pages_ s) (page_table_ s) (free_list_ s) (replacer_ s) d').
Proof. intros Hcand i b Hi. apply (Hcand i b Hi). Qed.

Lemma cand_inv_new (pool_size : nat) (disk : DiskManager.t) :
  cand_inv (new pool_size disk).
Proof.
  intros i b Hi. simpl in Hi. by apply lookup_replicate in Hi as [[=] _].
Qed.

Lemma FetchPageImpl_cand (s : t) (p : Z) (res : option Z) (s' : t) :
  bpm_inv s → cand_inv s → FetchPageImpl s p = Ok (res, s') → cand_inv s'.
Proof.
  intros Hinv Hcand Hrun. unfold FetchPageImpl in Hrun.
  destruct (page_table_ s !! p) as [f|] eqn:Htable.
  - pose proof (inv_table_pool s Hinv p f Htable) as Hpool.
    destruct (frame_in_pool s f Hpool) as [page Hframe].
    rewrite Hframe in Hrun. simpl in Hrun.
    destruct (pin_count_ page =? INT_MAX); [done|].
    destruct (Z.gtb_spec (pin_count_ page + 1) 0) as [Hpos|Hneg].
    + destruct (ClockReplacerFacts.Pin_in_range (replacer_ s) f (inv_replacer s Hinv))
        as (r1 & Hr1 & _ & _ & _ & Hclock);
        [rewrite (inv_clock s Hinv); apply Hpool|].
      rewrite Hr1 in Hrun. simpl in Hrun. injection Hrun as _ <-.
      apply (cand_inv_frame_update s f page); try done.
      * intros i b Hi Hne. rewrite Hclock, list_lookup_insert_ne in Hi; [eauto|].
        destruct Hpool. lia.
      * intros b Hb. rewrite Hclock, list_lookup_insert_eq in Hb; [done|].
        rewrite (inv_clock s Hinv). destruct Hpool. lia.
    + simpl in Hrun. injection Hrun as _ <-.
      apply (cand_inv_frame_update s f page); try done.
      * eauto.
      * intros b Hb. destruct (Hcand _ _ Hb) as (page0 & Hframe0 & Hpin0 & _).
        rewrite Z2Nat.id in Hframe0 by apply Hpool.
        rewrite Hframe in Hframe0. injection Hframe0 as <-. simpl in *. lia.
  - destruct (bool_decide (free_list_ s = []) &&
              (ClockReplacer.Size (replacer_ s) =? 0)); [by injection Hrun as _ <-|].
    destruct (ReplaceAndUpdate s p false) as [[f s2]| | |] eqn:Hrep; try done.
    simpl in Hrun. injection Hrun as _ <-.
    by destruct (ReplaceAndUpdate_keeps s p false f s2 Hinv Hcand Hrep).
Qed.

Lemma UnpinPageImpl_cand (s : t) (p : Z) (d res : bool) (s' : t) :
  bpm_inv s → cand_inv s → UnpinPageImpl s p d = Ok (res, s') → cand_inv s'.
Proof.
  intros Hinv Hcand Hrun. unfold UnpinPageImpl in Hrun.
  destruct (page_table_ s !! p) as [f|] eqn:Htable; [|done].
  pose proof (inv_table_pool s Hinv p f Htable) as Hpool.
  destruct (frame_in_pool s f Hpool) as [page Hframe].
  rewrite Hframe in Hrun. simpl in Hrun.
  destruct (Z.leb_spec (pin_count_ page) 0) as [Hle|Hpin];
    [by injection Hrun as _ <-|].
  destruct (Z.eqb_spec (pin_count_ page - 1) 0) as [Hzero|Hnz].
  - destruct (ClockReplacerFacts.Unpin_in_range (replacer_ s) f (inv_replacer s Hinv))
      as (r1 & Hr1 & _ & _ & _ & Hclock);
      [rewrite (inv_clock s Hinv); apply Hpool|].
    rewrite Hr1 in Hrun. simpl in Hrun. injection Hrun as _ <-.
    apply (cand_inv_frame_update s f page); try done.
    + intros i b Hi Hne. rewrite Hclock, list_lookup_insert_ne in Hi; [eauto|].
      destruct Hpool. lia.
    + intros b _. simpl. split; [done|].
      by rewrite (inv_table_id s Hinv p f page Htable Hframe).
  - simpl in Hrun. injection Hrun as _ <-.
    apply (cand_inv_frame_update s f page); try done.
    + eauto.
    + intros b Hb. destruct (Hcand _ _ Hb) as (page0 & Hframe0 & Hpin0 & _).
      rewrite Z2Nat.id in Hframe0 by apply Hpool.
      rewrite Hframe in Hframe0. injection Hframe0 as <-. lia.
Qed.

Lemma FlushPageImpl_cand (s : t) (p : Z) (res : bool) (s' : t) :
  cand_inv s → FlushPageImpl s p = Ok (res, s') → cand_inv s'.
Proof.
  intros Hcand Hrun. unfold FlushPageImpl in Hrun.
  destruct (page_table_ s !! p) as [f|] eqn:Htable; [|by injection Hrun as _ <-].
  destruct (frame s f) as [page| | |] eqn:Hframe; try done. simpl in Hrun.
  destruct (negb (page_id_ page =? INVALID_PAGE_ID) && is_dirty_ page);
    injection Hrun as _ <-; [|done].
  by apply (cand_inv_same_pin s f page).
Qed.

Lemma NewPageImpl_cand (s : t) (res : option Z) (id : Z) (s' : t) :
  bpm_inv s → cand_inv s → NewPageImpl s = Ok (res, id, s') → cand_inv s'.
Proof.
  intros Hinv Hcand Hrun. unfold NewPageImpl in Hrun.
  destruct (bool_decide (free_list_ s = []) &&
            (ClockReplacer.Size (replacer_ s) =? 0)); [by injection Hrun as _ _ <-|].
  simpl in Hrun.
  set (s1 := mk _ _ _ _ _) in Hrun.
  destruct (ReplaceAndUpdate s1 _ true) as [[f s2]| | |] eqn:Hrep; try done.
  simpl in Hrun. injection Hrun as _ _ <-.
  assert (Hinv1 : bpm_inv s1).
  { apply bpm_inv_disk; [done|]. simpl. pose proof (inv_disk s Hinv). lia. }
  assert (Hcand1 : cand_inv s1) by (by apply cand_inv_disk).
  by destruct (ReplaceAndUpdate_keeps s1 _ true f s2 Hinv1 Hcand1 Hrep).
Qed.

Lemma DeletePageImpl_cand (s : t) (p : Z) (res : bool) (s' : t) :
  bpm_inv s → cand_inv s → DeletePageImpl s p = Ok (res, s') → cand_inv s'.
Proof.
  intros Hinv Hcand Hrun.
  destruct (page_table_ s !! p) as [f|] eqn:Htable.
  - pose proof (inv_table_pool s Hinv p f Htable) as Hpool.
    destruct (frame_in_pool s f Hpool) as [page Hframe].
    destruct (Z.le_gt_cases (pin_count_ page) 0) as [Hpin|Hpin].
    + destruct (DeletePageImpl_unpinned s p f page Hinv) as (r1 & Hr1 & Hrun' & _);
        [done|done|].
      simpl in Hrun'. rewrite Hrun' in Hrun. injection Hrun as _ <-.
      destruct (ClockReplacerFacts.Pin_in_range (replacer_ s) f (inv_replacer s Hinv))
        as (r1' & Hr1' & _ & _ & _ & Hclock);
        [rewrite (inv_clock s Hinv); apply Hpool|].
      rewrite Hr1' in Hr1. injection Hr1 as ->.
      intros i b Hi. simpl in Hi. rewrite Hclock in Hi.
      destruct (decide (i = Z.to_nat f)) as [->|Hne].
      { rewrite list_lookup_insert_eq in Hi; [done|].
        rewrite (inv_clock s Hinv). destruct Hpool. lia. }
      rewrite list_lookup_insert_ne in Hi by done.
      destruct (Hcand _ _ Hi) as (page0 & Hframe0 & Hpin0 & Htable0).
      assert (Hnef : Z.of_nat i ≠ f) by (destruct Hpool; lia).
      exists page0. split; [|split; [done|]].
      * erewrite frame_set_frame; [|reflexivity|done]. by rewrite decide_False.
      * simpl. rewrite lookup_delete_ne; [done|]. intros Heq.
        rewrite <- Heq in Htable0. congruence.
    + rewrite (DeletePageImpl_pinned s p f page) in Hrun; [|done|lia].
      by injection Hrun as _ <-.
  - rewrite (DeletePageImpl_absent s p Htable) in Hrun. injection Hrun as _ <-.
    by apply cand_inv_disk.
Qed.

Lemma flush_frame_cand (s : t) (i : nat) : cand_inv s → cand_inv (flush_frame s i).
Proof.
  intros Hcand. unfold flush_frame.
  destruct (pages_ s !! i) as [page|] eqn:Hpage; [|done].
  destruct (negb (page_id_ page =? INVALID_PAGE_ID) && is_dirty_ page); [|done].
  assert (Hframe : frame s (Z.of_nat i) = Ok page)
    by (apply frame_Ok; rewrite Nat2Z.id; split; [lia|done]).
  pose proof (cand_inv_same_pin s (Z.of_nat i) page
                (mkPage (data_ page) (page_id_ page) (pin_count_ page) false)
                (DiskManager.WritePage (disk_manager_ s) (page_id_ page) (data_ page))
                Hcand Hframe eq_refl eq_refl) as Hupd.
  unfold set_frame in Hupd. by rewrite Nat2Z.id in Hupd.
Qed.

Lemma FlushAllPagesImpl_cand (s : t) : cand_inv s → cand_inv (FlushAllPagesImpl s).
Proof.
  unfold FlushAllPagesImpl. generalize (seq 0 (pool_size_ s)) as l.
  intros l. revert s. induction l as [|i l IH]; intros s Hcand; [done|].
  simpl. apply IH. by apply flush_frame_cand.
Qed.

Lemma step_cand_inv (s s' : t) : bpm_inv s → cand_inv s → step s s' → cand_inv s'.
Proof.
  intros Hinv Hcand Hstep. destruct Hstep as
    [s p res s' Hrun | s p d res s' Hrun | s p res s' Hrun | s res id s' Hrun
    | s p res s' Hrun | s | s p f page bytes [Htable Hframe] Hpin Hlen].
  - by eapply FetchPageImpl_cand.
  - by eapply UnpinPageImpl_cand.
  - by eapply FlushPageImpl_cand.
  - by eapply NewPageImpl_cand.
  - by eapply DeletePageImpl_cand.
  - by apply FlushAllPagesImpl_cand.
  - unfold client_write. by apply (cand_inv_same_pin s f page).
Qed.

Lemma reachable_cand (s : t) : reachable s → cand_inv s.
Proof.
  induction 1 as [pool_size disk Hn Hd | s s' Hreach IH Hstep].
  - apply cand_inv_new.
  - eapply step_cand_inv; [by apply reachable_inv|done|done].
Qed.

(** *** What holds in every reachable pool *)

Lemma table_injective (s : t) (p1 p2 f : Z) :
  bpm_inv s → page_table_ s !! p1 = Some f → page_table_ s !! p2 = Some f → p1 = p2.
Proof.
  intros Hinv H1 H2.
  destruct (frame_in_pool s f (inv_table_pool s Hinv p1 f H1)) as [page Hframe].
  rewrite <- (inv_table_id s Hinv p1 f page H1 Hframe).
  apply (inv_table_id s Hinv p2 f page H2 Hframe).
Qed.

Lemma table_frames_NoDup (s : t) :
  bpm_inv s → NoDup ((map_to_list (page_table_ s)).*2).
Proof.
  intros Hinv. apply NoDup_fmap_2_strong; [|apply NoDup_map_to_list].
  intros [p1 f1] [p2 f2] H1%elem_of_map_to_list H2%elem_of_map_to_list Heq.
  simpl in Heq. subst f2. f_equal. by eapply table_injective.
Qed.

Lemma pool_capacity (s : t) :
  bpm_inv s → (size (page_table_ s) + length (free_list_ s) ≤ pool_size_ s)%nat.
Proof.
  intros Hinv.
  set (l := (map_to_list (page_table_ s)).*2 ++ free_list_ s).
  assert (Hlen : length l = (size (page_table_ s) + length (free_list_ s))%nat).
  { unfold l. by rewrite length_app, length_fmap, length_map_to_list. }
  assert (Hnd : NoDup l).
  { apply NoDup_app. split; [by apply table_frames_NoDup|].
    split; [|apply (inv_free_nodup s Hinv)].
    intros f ([p f'] & -> & Hin%elem_of_map_to_list)%list_elem_of_fmap. simpl.
    by eapply inv_table_free. }
  assert (Hsub : ∀ f, f ∈ l → f ∈ seqZ 0 (Z.of_nat (pool_size_ s))).
  { intros f Hf. apply elem_of_seqZ.
    apply elem_of_app in Hf as [([p f'] & -> & Hin%elem_of_map_to_list)%list_elem_of_fmap|Hf].
    - pose proof (inv_table_pool s Hinv p f' Hin) as Hpool.
      unfold in_pool, pool_size_ in *. simpl. lia.
    - pose proof (inv_free_pool s Hinv f Hf) as Hpool.
      unfold in_pool, pool_size_ in *. lia. }
  pose proof (submseteq_length _ _ (NoDup_submseteq _ _ Hnd Hsub)) as Hle.
  rewrite length_seqZ, Hlen in Hle. lia.
Qed.

(** X10.  In every pool the operations can reach from a new one: a page in
    the page table is in a frame of the pool that carries its id; no two
    pages share a frame; a frame of the free list is in no page-table entry,
    is clean and holds a zeroed buffer, and is listed once; and the resident
    pages and the free frames together never exceed [pool_size]. *)
Theorem reachable_page_table (s : t) :
  reachable s →
  (∀ p f, page_table_ s !! p = Some f →
     ∃ page, frame s f = Ok page ∧ page_id_ page = p) ∧
  (∀ p1 p2 f, page_table_ s !! p1 = Some f → page_table_ s !! p2 = Some f → p1 = p2) ∧
  (∀ f, f ∈ free_list_ s →
     ∃ page, frame s f = Ok page ∧ data_ page = zero_bytes ∧ is_dirty_ page = false ∧
             ∀ p, page_table_ s !! p ≠ Some f) ∧
  NoDup (free_list_ s) ∧
  (size (page_table_ s) + length (free_list_ s) ≤ pool_size_ s)%nat.
Proof.
  intros Hinv%reachable_inv. split; [|split; [|split; [|split]]].
  - intros p f Htable.
    destruct (frame_in_pool s f (inv_table_pool s Hinv p f Htable)) as [page Hframe].
    exists page. split; [done|]. by eapply inv_table_id.
  - intros p1 p2 f. by apply table_injective.
  - intros f Hf.
    destruct (frame_in_pool s f (inv_free_pool s Hinv f Hf)) as [page Hframe].
    exists page. split; [done|].
    split; [by eapply inv_free_zero|]. split; [by eapply inv_free_clean|].
    intros p Hp. by eapply inv_table_free.
  - apply (inv_free_nodup s Hinv).
  - by apply pool_capacity.
Qed.

(** X11.  In every reachable pool a candidate of the replacer is the frame
    of a resident page with pin count 0, and it is not in the free list: the
    replacer never holds a pinned frame. *)
Theorem reachable_candidates (s : t) (i : nat) (b : bool) :
  reachable s →
  ClockReplacer.clock (replacer_ s) !! i = Some (true, b) →
  ∃ page, frame s (Z.of_nat i) = Ok page ∧ pin_count_ page = 0 ∧
          resident s (page_id_ page) (Z.of_nat i) page ∧
          Z.of_nat i ∉ free_list_ s.
Proof.
  intros Hreach Hi.
  pose proof (reachable_inv s Hreach) as Hinv.
  destruct (reachable_cand s Hreach i b Hi) as (page & Hframe & Hpin & Htable).
  exists page. split; [done|]. split; [done|]. split; [by split|].
  by eapply inv_table_free.
Qed.

Lemma reachable_page_table_witness :
  reachable pool_unpinned ∧
  (size (page_table_ pool_unpinned) + length (free_list_ pool_unpinned)
   ≤ pool_size_ pool_unpinned)%nat.
Proof.
  split; [exact pool_unpinned_reachable|].
  exact (proj2 (proj2 (proj2 (proj2
           (reachable_page_table pool_unpinned pool_unpinned_reachable))))).
Defined.

Lemma reachable_candidates_witness :
  reachable pool_unpinned ∧
  ClockReplacer.clock (replacer_ pool_unpinned) !! 0%nat = Some (true, true) ∧
  ∃ page, frame pool_unpinned 0 = Ok page ∧ pin_count_ page = 0.
Proof.
  assert (H0 : ClockReplacer.clock (replacer_ pool_unpinned) !! 0%nat
               = Some (true, true)) by reflexivity.
  split; [exact pool_unpinned_reachable|]. split; [exact H0|].
  destruct (reachable_candidates pool_unpinned 0 true pool_unpinned_reachable H0)
    as (page & Hframe & Hpin & _).
  exists page. split; [exact Hframe|exact Hpin].
Defined.

(** *** [FetchPage] *)

(** X12.  [FetchPage(p)] of a resident page: the call returns the frame the
    page is in, with the pin count one higher and buffer, id and dirty flag
    as they were; it makes no disk call and leaves the other frames, the page
    table and the free list alone; the frame is taken out of the replacer by
    [Pin] (the count being positive afterwards).  At the largest [int] the
    increment overflows and the call is undefined. *)
Theorem FetchPageImpl_hit (s : t) (p f : Z) (page : Page) :
  bpm_inv s → resident s p f page →
  (pin_count_ page = INT_MAX → FetchPageImpl s p = Undefined) ∧
  (0 ≤ pin_count_ page < INT_MAX →
     ∃ s', FetchPageImpl s p = Ok (Some f, s') ∧
       frame s' f = Ok (mkPage (data_ page) (page_id_ page) (pin_count_ page + 1)
                               (is_dirty_ page)) ∧
       (∀ f', f' ≠ f → frame s' f' = frame s f') ∧
       ClockReplacer.Pin (replacer_ s) f = Ok (replacer_ s') ∧
       ClockReplacer.clock (replacer_ s') !! Z.to_nat f = Some (false, false) ∧
       page_table_ s' = page_table_ s ∧
       free_list_ s' = free_list_ s ∧
       disk_manager_ s' = disk_manager_ s).
Proof.
  intros Hinv [Htable Hframe].
  pose proof (inv_table_pool s Hinv p f Htable) as Hpool. split.
  - intros Hmax. unfold FetchPageImpl. rewrite Htable, Hframe. simpl.
    by rewrite Hmax.
  - intros Hpin.
    destruct (ClockReplacerFacts.Pin_in_range (replacer_ s) f (inv_replacer s Hinv))
      as (r1 & Hr1 & _ & _ & _ & Hclock);
      [rewrite (inv_clock s Hinv); apply Hpool|].
    eexists. split.
    + unfold FetchPageImpl. rewrite Htable, Hframe. simpl.
      destruct (Z.eqb_spec (pin_count_ page) INT_MAX); [lia|].
      destruct (Z.gtb_spec (pin_count_ page + 1) 0); [|lia].
      rewrite Hr1. simpl. reflexivity.
    + simpl.
      split; [erewrite frame_set_frame; [|reflexivity|done]; by rewrite decide_True|].
      split; [intros f' Hne; erewrite frame_set_frame; [|reflexivity|done];
              by rewrite decide_False|].
      split; [done|]. split; [|done].
      rewrite Hclock. apply list_lookup_insert_eq.
      rewrite (inv_clock s Hinv). destruct Hpool. lia.
Qed.

(** X13.  [FetchPage(p)] of a page that is not resident: with an empty free
    list and no candidate in the replacer it returns null and changes
    nothing; otherwise it returns a frame that holds what the disk stores
    under [p], with pin count 1 and a clear dirty flag, the page table files
    [p] under that frame, and the last call made to the disk is the read of
    [p]. *)
Theorem FetchPageImpl_miss (s : t) (p : Z) :
  bpm_inv s → page_table_ s !! p = None →
  (free_list_ s = [] ∧ ClockReplacer.Size (replacer_ s) = 0 →
     FetchPageImpl s p = Ok (None, s)) ∧
  (¬ (free_list_ s = [] ∧ ClockReplacer.Size (replacer_ s) = 0) →
     ∃ f s' earlier,
       FetchPageImpl s p = Ok (Some f, s') ∧
       resident s' p f
         (mkPage (default zero_bytes (DiskManager.store (disk_manager_ s') !! p))
                 p 1 false) ∧
       DiskManager.calls (disk_manager_ s') = DiskManager.ReadPage_call p :: earlier ∧
       (∀ f0 rest, free_list_ s = f0 :: rest →
          f = f0 ∧ free_list_ s' = rest ∧
          earlier = DiskManager.calls (disk_manager_ s)) ∧
       bpm_inv s').
Proof.
  intros Hinv Htable. split.
  - intros [Hfree Hsize]. unfold FetchPageImpl. by rewrite Htable, Hfree, Hsize.
  - intros Hne.
    assert (Hrun : FetchPageImpl s p
                   = (fs ← ReplaceAndUpdate s p false; Ok (Some fs.1, fs.2))).
    { unfold FetchPageImpl. rewrite Htable.
      destruct (free_list_ s) as [|f0 rest]; [|done].
      destruct (Z.eqb_spec (ClockReplacer.Size (replacer_ s)) 0); [|done].
      by destruct Hne. }
    rewrite Hrun. clear Hrun.
    destruct (free_list_ s) as [|f0 rest] eqn:Hfree.
    + assert (Hsize : ClockReplacer.Size (replacer_ s) ≠ 0)
        by (intros Hz; by apply Hne).
      destruct (ReplaceAndUpdate_victim s p false Hinv Hfree Hsize)
        as (f & r1 & r2 & page & _ & Hframe & _ & _ & _ & Hrep & Hinv2).
      simpl in Hrep, Hinv2. rewrite Hrep. simpl.
      pose proof (frame_Ok_in_pool _ _ _ Hframe) as Hpool.
      eexists f, _, _. split; [reflexivity|]. split; [split|]; simpl.
      * apply emplace_new. apply lookup_delete_None. by right.
      * erewrite frame_set_frame; [|reflexivity|done]. by rewrite decide_True.
      * split; [reflexivity|]. split; [by intros ? ? [=]|done].
    + destruct (ReplaceAndUpdate_free s p false f0 rest Hinv Hfree)
        as (page & Hframe & _ & Hrep & Hinv2).
      simpl in Hrep, Hinv2. rewrite Hrep. simpl.
      pose proof (frame_Ok_in_pool _ _ _ Hframe) as Hpool.
      eexists f0, _, _. split; [reflexivity|]. split; [split|]; simpl.
      * by apply emplace_new.
      * erewrite frame_set_frame; [|reflexivity|done]. by rewrite decide_True.
      * split; [reflexivity|]. split; [by intros ? ? [= <- <-]|done].
Qed.

Lemma FetchPageImpl_hit_witness :
  bpm_inv pool_unpinned ∧ resident pool_unpinned 0 0 (mkPage zero_bytes 0 0 true) ∧
  ∃ s', FetchPageImpl pool_unpinned 0 = Ok (Some 0, s') ∧
        frame s' 0 = Ok (mkPage zero_bytes 0 1 true).
Proof.
  assert (Hinv : bpm_inv pool_unpinned)
    by exact (reachable_inv _ pool_unpinned_reachable).
  assert (Hres : resident pool_unpinned 0 0 (mkPage zero_bytes 0 0 true))
    by (split; vm_compute; reflexivity).
  split; [exact Hinv|]. split; [exact Hres|].
  destruct (FetchPageImpl_hit pool_unpinned 0 0 _ Hinv Hres) as [_ Hhit].
  destruct Hhit as (s' & Hrun & Hframe & _); [simpl; unfold INT_MAX; lia|].
  exists s'. split; [exact Hrun|exact Hframe].
Defined.

Lemma FetchPageImpl_miss_witness :
  bpm_inv pool_unpinned ∧ page_table_ pool_unpinned !! 5 = None ∧
  ∃ s', FetchPageImpl pool_unpinned 5 = Ok (Some 1, s') ∧
        page_table_ s' !! 5 = Some 1.
Proof.
  assert (Hinv : bpm_inv pool_unpinned)
    by exact (reachable_inv _ pool_unpinned_reachable).
  assert (Htable : page_table_ pool_unpinned !! 5 = None) by (vm_compute; reflexivity).
  split; [exact Hinv|]. split; [exact Htable|].
  destruct (FetchPageImpl_miss pool_unpinned 5 Hinv Htable) as [_ Hmiss].
  destruct Hmiss as (f & s' & earlier & Hrun & [Hres _] & _ & Hhead & _).
  { intros [Hfree _]. vm_compute in Hfree. discriminate. }
  destruct (Hhead 1 [2] eq_refl) as (-> & _).
  exists s'. split; [exact Hrun|exact Hres].
Defined.

(** *** Pages that a call does not name *)

Lemma other_frame (s : t) (p q f f' : Z) (page : Page) :
  bpm_inv s → resident s p f page → q ≠ p → page_table_ s !! q = Some f' → f' ≠ f.
Proof.
  intros Hinv [Htable Hframe] Hne Hq ->. apply Hne.
  by eapply table_injective.
Qed.

(** X14.  A resident page [p] stays in its frame, with the same bytes, id,
    pin count and dirty flag, whatever is done to another page [q]:
    [UnpinPage(q)], [FlushPage(q)] and [DeletePage(q)] never touch it, and
    when [p] is pinned neither [FetchPage(q)] nor [NewPage] evicts it, also
    when they have to take a victim from the replacer. *)
Theorem other_pages_stay (s : t) (p f : Z) (page : Page) :
  bpm_inv s → cand_inv s → resident s p f page →
  (∀ q res s', q ≠ p → 0 < pin_count_ page →
     FetchPageImpl s q = Ok (res, s') → resident s' p f page) ∧
  (∀ res id s', 0 < pin_count_ page →
     NewPageImpl s = Ok (res, id, s') → resident s' p f page) ∧
  (∀ q d res s', q ≠ p →
     UnpinPageImpl s q d = Ok (res, s') → resident s' p f page) ∧
  (∀ q res s', q ≠ p →
     FlushPageImpl s q = Ok (res, s') → resident s' p f page) ∧
  (∀ q res s', q ≠ p →
     DeletePageImpl s q = Ok (res, s') → resident s' p f page).
Proof.
  intros Hinv Hcand Hres. pose proof Hres as [Htable Hframe].
  pose proof (frame_Ok_in_pool _ _ _ Hframe) as Hpool.
  assert (Hset : ∀ f' page' tb fl r d,
            f' ≠ f → in_pool s f' → tb !! p = Some f →
            resident (mk (set_frame (pages_ s) f' page') tb fl r d) p f page).
  { intros f' page' tb fl r d Hne Hpool' Htb. split; [done|].
    erewrite frame_set_frame; [|reflexivity|done]. by rewrite decide_False. }
  split; [|split; [|split; [|split]]].
  - intros q res s' Hne Hpin Hrun. unfold FetchPageImpl in Hrun.
    destruct (page_table_ s !! q) as [f'|] eqn:Hq.
    + pose proof (other_frame s p q f f' page Hinv Hres Hne Hq) as Hnef.
      pose proof (inv_table_pool s Hinv q f' Hq) as Hpool'.
      destruct (frame s f') as [page'| | |]; try done. simpl in Hrun.
      destruct (pin_count_ page' =? INT_MAX); [done|].
      destruct (if pin_count_ page' + 1 >? 0
                then ClockReplacer.Pin (replacer_ s) f' else Ok (replacer_ s))
        as [r1| | |]; try done.
      simpl in Hrun. injection Hrun as _ <-. by apply Hset.
    + destruct (bool_decide (free_list_ s = []) &&
                (ClockReplacer.Size (replacer_ s) =? 0)); [by injection Hrun as _ <-|].
      destruct (ReplaceAndUpdate s q false) as [[f' s2]| | |] eqn:Hrep; try done.
      simpl in Hrun. injection Hrun as _ <-.
      destruct (ReplaceAndUpdate_keeps s q false f' s2 Hinv Hcand Hrep) as [_ Hkeep].
      by apply Hkeep.
  - intros res id s' Hpin Hrun. unfold NewPageImpl in Hrun.
    destruct (bool_decide (free_list_ s = []) &&
              (ClockReplacer.Size (replacer_ s) =? 0)); [by injection Hrun as _ _ <-|].
    simpl in Hrun. set (s1 := mk _ _ _ _ _) in Hrun.
    destruct (ReplaceAndUpdate s1 _ true) as [[f' s2]| | |] eqn:Hrep; try done.
    simpl in Hrun. injection Hrun as _ _ <-.
    assert (Hinv1 : bpm_inv s1).
    { apply bpm_inv_disk; [done|]. simpl. pose proof (inv_disk s Hinv). lia. }
    destruct (ReplaceAndUpdate_keeps s1 _ true f' s2 Hinv1 (cand_inv_disk s _ Hcand) Hrep)
      as [_ Hkeep].
    by apply (Hkeep p f page).
  - intros q d res s' Hne Hrun. unfold UnpinPageImpl in Hrun.
    destruct (page_table_ s !! q) as [f'|] eqn:Hq; [|done].
    pose proof (other_frame s p q f f' page Hinv Hres Hne Hq) as Hnef.
    pose proof (inv_table_pool s Hinv q f' Hq) as Hpool'.
    destruct (frame s f') as [page'| | |]; try done. simpl in Hrun.
    destruct (pin_count_ page' <=? 0); [by injection Hrun as _ <-|].
    destruct (if pin_count_ page' - 1 =? 0
              then ClockReplacer.Unpin (replacer_ s) f' else Ok (replacer_ s))
      as [r1| | |]; try done.
    simpl in Hrun. injection Hrun as _ <-. by apply Hset.
  - intros q res s' Hne Hrun. unfold FlushPageImpl in Hrun.
    destruct (page_table_ s !! q) as [f'|] eqn:Hq; [|by injection Hrun as _ <-].
    pose proof (other_frame s p q f f' page Hinv Hres Hne Hq) as Hnef.
    pose proof (inv_table_pool s Hinv q f' Hq) as Hpool'.
    destruct (frame s f') as [page'| | |]; try done. simpl in Hrun.
    destruct (negb (page_id_ page' =? INVALID_PAGE_ID) && is_dirty_ page');
      injection Hrun as _ <-; [|done].
    by apply Hset.
  - intros q res s' Hne Hrun. unfold DeletePageImpl in Hrun.
    destruct (page_table_ s !! q) as [f'|] eqn:Hq; [|by injection Hrun as _ <-].
    pose proof (other_frame s p q f f' page Hinv Hres Hne Hq) as Hnef.
    pose proof (inv_table_pool s Hinv q f' Hq) as Hpool'.
    destruct (frame s f') as [page'| | |]; try done. simpl in Hrun.
    destruct (pin_count_ page' >? 0); [by injection Hrun as _ <-|].
    destruct (ClockReplacer.Pin (replacer_ s) f') as [r1| | |]; try done.
    simpl in Hrun. injection Hrun as _ <-.
    apply Hset; [done|done|]. by rewrite lookup_delete_ne.
Qed.

Lemma FetchPageImpl_hit_run (s : t) (p f : Z) (page : Page) :
  bpm_inv s → resident s p f page → 0 ≤ pin_count_ page < INT_MAX →
  ∃ r1,
    ClockReplacer.Pin (replacer_ s) f = Ok r1 ∧
    ClockReplacer.clock r1
    = <[Z.to_nat f := (false, false)]> (ClockReplacer.clock (replacer_ s)) ∧
    FetchPageImpl s p =
      Ok (Some f,
          mk (set_frame (pages_ s) f
                (mkPage (data_ page) (page_id_ page) (pin_count_ page + 1)
                        (is_dirty_ page)))
             (page_table_ s) (free_list_ s) r1 (disk_manager_ s)).
Proof.
  intros Hinv [Htable Hframe] Hpin.
  pose proof (inv_table_pool s Hinv p f Htable) as Hpool.
  destruct (ClockReplacerFacts.Pin_in_range (replacer_ s) f (inv_replacer s Hinv))
    as (r1 & Hr1 & _ & _ & _ & Hclock);
    [rewrite (inv_clock s Hinv); apply Hpool|].
  exists r1. split; [done|]. split; [done|].
  unfold FetchPageImpl. rewrite Htable, Hframe. simpl.
  destruct (Z.eqb_spec (pin_count_ page) INT_MAX); [lia|].
  destruct (Z.gtb_spec (pin_count_ page + 1) 0); [|lia].
  by rewrite Hr1.
Qed.

(** *** [NewPage] and the page table *)

(** X15.  [NewPage] then [FetchPage].  When the id the disk hands out is not
    in the page table, the page [NewPage] returns is resident in the frame
    it returns, and [FetchPage] of that id gives the same frame, zeroed and
    dirty, now with pin count 2.  When the id is in the page table already,
    under another frame (a page fetched before it was allocated), [emplace]
    leaves the entry alone: the table still files the id under the old
    frame, not under the frame [NewPage] returns. *)
Theorem NewPageImpl_then_Fetch (s : t) :
  bpm_inv s → cand_inv s →
  ¬ (free_list_ s = [] ∧ ClockReplacer.Size (replacer_ s) = 0) →
  ∃ f s',
    NewPageImpl s = Ok (Some f, DiskManager.next_page_id (disk_manager_ s), s') ∧
    (page_table_ s !! DiskManager.next_page_id (disk_manager_ s) = None →
       page_table_ s' !! DiskManager.next_page_id (disk_manager_ s) = Some f ∧
       ∃ s'', FetchPageImpl s' (DiskManager.next_page_id (disk_manager_ s))
              = Ok (Some f, s'') ∧
              frame s'' f
              = Ok (mkPage zero_bytes (DiskManager.next_page_id (disk_manager_ s))
                           2 true)) ∧
    (∀ f0, page_table_ s !! DiskManager.next_page_id (disk_manager_ s) = Some f0 →
       f0 ≠ f →
       page_table_ s' !! DiskManager.next_page_id (disk_manager_ s) = Some f0).
Proof.
  intros Hinv Hcand Hne.
  destruct (NewPageImpl_frame s Hinv Hne) as (f & s' & Hrun & Hframe & _ & _ & Hinv').
  exists f, s'. split; [done|].
  set (id := DiskManager.next_page_id (disk_manager_ s)) in *.
  (* the page table after the call *)
  assert (Htable' : ∃ table0,
            page_table_ s' = emplace id f table0 ∧
            (∀ p0 f0, table0 !! p0 = Some f0 → page_table_ s !! p0 = Some f0) ∧
            (∀ p0 f0, page_table_ s !! p0 = Some f0 → f0 ≠ f → table0 !! p0 = Some f0)).
  { rewrite (NewPageImpl_not_exhausted s Hne) in Hrun. simpl in Hrun.
    fold id in Hrun. set (s1 := mk _ _ _ _ _) in Hrun.
    assert (Hinv1 : bpm_inv s1).
    { apply bpm_inv_disk; [done|]. simpl. pose proof (inv_disk s Hinv). fold id. lia. }
    destruct (free_list_ s) as [|f0 rest] eqn:Hfree.
    - assert (Hsize : ClockReplacer.Size (replacer_ s1) ≠ 0) by (intros Hz; by apply Hne).
      destruct (ReplaceAndUpdate_victim s1 id true Hinv1 eq_refl Hsize)
        as (v & r1 & r2 & pagev & HVictim & Hframev & Hpin & _ & _ & Hrep & _).
      simpl in Hrep. rewrite Hrep in Hrun. simpl in Hrun. injection Hrun as <- <-.
      destruct (victim_pinned_candidates _ _ _ _ (inv_replacer s Hinv) HVictim Hpin)
        as ([bv Hv] & Hv0 & _).
      destruct (Hcand _ _ Hv) as (pagev' & Hframev' & _ & Htablev).
      rewrite Z2Nat.id in Hframev', Htablev by done.
      assert (pagev' = pagev) as -> by (unfold frame in *; simpl in *; congruence).
      exists (delete (page_id_ pagev) (page_table_ s)). split; [done|]. split.
      + by intros p0 f0 [_ H0]%lookup_delete_Some.
      + intros p0 f0 H0 Hnef. rewrite lookup_delete_ne; [done|]. intros Heq.
        apply Hnef. rewrite <- Heq in H0. congruence.
    - destruct (ReplaceAndUpdate_free s1 id true f0 rest Hinv1 eq_refl)
        as (page0 & _ & _ & Hrep & _).
      simpl in Hrep. rewrite Hrep in Hrun. simpl in Hrun. injection Hrun as <- <-.
      exists (page_table_ s). split; [done|]. split; done. }
  destruct Htable' as (table0 & Htab & Hsub & Hsup).
  split.
  - intros Hnone.
    assert (Hnew : page_table_ s' !! id = Some f).
    { rewrite Htab. apply emplace_new.
      destruct (table0 !! id) as [f0|] eqn:H0; [|done].
      apply Hsub in H0. congruence. }
    split; [done|].
    destruct (FetchPageImpl_hit_run s' id f _ Hinv' (conj Hnew Hframe))
      as (r1 & _ & _ & Hrun''); [simpl; unfold INT_MAX; lia|].
    eexists. split; [exact Hrun''|].
    pose proof (frame_Ok_in_pool _ _ _ Hframe) as Hpool.
    erewrite frame_set_frame; [|reflexivity|done]. by rewrite decide_True.
  - intros f0 H0 Hnef. rewrite Htab. apply emplace_keeps. by apply Hsup.
Qed.

Lemma pool0_Fetch : FetchPageImpl pool0 0 = Ok (Some 0, pool_stale).
Proof. vm_compute. reflexivity. Qed.

Lemma pool_stale_reachable : reachable pool_stale.
Proof.
  eapply reachable_step; [exact pool0_reachable|].
  eapply step_Fetch. exact pool0_Fetch.
Qed.

Lemma other_pages_stay_witness :
  bpm_inv pool_pinned ∧ cand_inv pool_pinned ∧
  resident pool_pinned 0 0 (mkPage zero_bytes 0 1 true) ∧
  ∃ s', NewPageImpl pool_pinned = Ok (Some 1, 1, s') ∧
        resident s' 0 0 (mkPage zero_bytes 0 1 true).
Proof.
  assert (Hinv : bpm_inv pool_pinned) by exact (reachable_inv _ pool_pinned_reachable).
  assert (Hcand : cand_inv pool_pinned) by exact (reachable_cand _ pool_pinned_reachable).
  assert (Hres : resident pool_pinned 0 0 (mkPage zero_bytes 0 1 true))
    by (split; vm_compute; reflexivity).
  split; [exact Hinv|]. split; [exact Hcand|]. split; [exact Hres|].
  destruct (NewPageImpl_frame pool_pinned Hinv) as (f & s' & Hrun & _ & Hhead & _).
  { intros [Hfree _]. vm_compute in Hfree. discriminate. }
  destruct (Hhead 1 [2] eq_refl) as [-> _].
  exists s'. split; [exact Hrun|].
  destruct (other_pages_stay pool_pinned 0 0 _ Hinv Hcand Hres) as (_ & Hnew & _).
  apply (Hnew _ _ _ ltac:(simpl; lia) Hrun).
Defined.

Lemma NewPageImpl_then_Fetch_witness :
  bpm_inv pool_stale ∧ cand_inv pool_stale ∧
  ∃ s', NewPageImpl pool_stale = Ok (Some 1, 0, s') ∧
        page_table_ s' !! 0 = Some 0.
Proof.
  assert (Hinv : bpm_inv pool_stale) by exact (reachable_inv _ pool_stale_reachable).
  assert (Hcand : cand_inv pool_stale) by exact (reachable_cand _ pool_stale_reachable).
  split; [exact Hinv|]. split; [exact Hcand|].
  assert (Hne : ¬ (free_list_ pool_stale = [] ∧
                   ClockReplacer.Size (replacer_ pool_stale) = 0)).
  { intros [Hfree _]. vm_compute in Hfree. discriminate. }
  destruct (NewPageImpl_then_Fetch pool_stale Hinv Hcand Hne)
    as (f & s' & Hrun & _ & Hstale).
  destruct (NewPageImpl_frame pool_stale Hinv Hne) as (f0 & s0 & Hrun0 & _ & Hhead & _).
  destruct (Hhead 1 [2] eq_refl) as [-> _].
  rewrite Hrun0 in Hrun. injection Hrun as <- <-.
  exists s0. split; [exact Hrun0|].
  apply (Hstale 0); [vm_compute; reflexivity|lia].
Defined.

(** *** [FlushAllPages], the whole effect *)

Lemma needs_flush_flushed (page : Page) : needs_flush (flushed page) = false.
Proof.
  unfold flushed. destruct (needs_flush page) eqn:Hn; [|done].
  unfold needs_flush. simpl. apply andb_false_r.
Qed.

Lemma needs_flush_true (page : Page) :
  needs_flush page = true ↔ page_id_ page ≠ INVALID_PAGE_ID ∧ is_dirty_ page = true.
Proof.
  unfold needs_flush. rewrite andb_true_iff, negb_true_iff, Z.eqb_neq. done.
Qed.

Lemma flush_frame_calls (s : t) (i : nat) :
  ∃ writes,
    DiskManager.calls (disk_manager_ (flush_frame s i))
    = writes ++ DiskManager.calls (disk_manager_ s) ∧
    ∀ c, c ∈ writes →
      ∃ page, pages_ s !! i = Some page ∧ needs_flush page = true ∧
              c = DiskManager.WritePage_call (page_id_ page) (data_ page).
Proof.
  unfold flush_frame. destruct (pages_ s !! i) as [page|] eqn:Hpage.
  - destruct (negb (page_id_ page =? INVALID_PAGE_ID) && is_dirty_ page) eqn:Hflush.
    + exists [DiskManager.WritePage_call (page_id_ page) (data_ page)].
      split; [done|]. intros c ->%list_elem_of_singleton. by exists page.
    + exists []. split; [done|]. intros c Hc. by apply elem_of_nil in Hc.
  - exists []. split; [done|]. intros c Hc. by apply elem_of_nil in Hc.
Qed.

Lemma flush_fold_calls (n a : nat) (s : t) :
  ∃ writes,
    DiskManager.calls (disk_manager_ (foldl flush_frame s (seq a n)))
    = writes ++ DiskManager.calls (disk_manager_ s) ∧
    ∀ c, c ∈ writes →
      ∃ i page, pages_ s !! i = Some page ∧ needs_flush page = true ∧
                c = DiskManager.WritePage_call (page_id_ page) (data_ page).
Proof.
  revert a s. induction n as [|n IH]; intros a s; simpl.
  - exists []. split; [done|]. intros c Hc. by apply elem_of_nil in Hc.
  - destruct (flush_frame_calls s a) as (w1 & Hc1 & Hw1).
    destruct (IH (S a) (flush_frame s a)) as (w2 & Hc2 & Hw2).
    destruct (flush_frame_spec s a) as (Hp1 & _).
    exists (w2 ++ w1). split; [by rewrite Hc2, Hc1, app_assoc|].
    intros c [Hc|Hc]%elem_of_app.
    + destruct (Hw2 c Hc) as (i & page & Hpage & Hflush & ->).
      rewrite Hp1 in Hpage. case_decide as Heq; [|by exists i, page].
      destruct (pages_ s !! a) as [page0|]; [|done].
      simpl in Hpage. injection Hpage as <-.
      by rewrite needs_flush_flushed in Hflush.
    + destruct (Hw1 c Hc) as (page & Hpage & Hflush & ->). by exists a, page.
Qed.

Lemma flush_frame_nothing (s : t) (i : nat) :
  (∀ j page, pages_ s !! j = Some page → needs_flush page = false) →
  flush_frame s i = s.
Proof.
  intros Hclean. unfold flush_frame.
  destruct (pages_ s !! i) as [page|] eqn:Hpage; [|done].
  pose proof (Hclean i page Hpage) as Hn. unfold needs_flush in Hn. by rewrite Hn.
Qed.

Lemma flush_fold_nothing (l : list nat) (s : t) :
  (∀ j page, pages_ s !! j = Some page → needs_flush page = false) →
  foldl flush_frame s l = s.
Proof.
  intros Hclean. induction l as [|i l IH]; [done|].
  simpl. by rewrite (flush_frame_nothing s i Hclean).
Qed.

(** X16.  [FlushAllPages] as a whole: every frame that held a page and was
    dirty is clean afterwards and nothing else in the frames changed; page
    table, free list and replacer are as before; the calls it makes to the
    disk are writes only, each of them of a frame that held a page and was
    dirty, with that frame's id and bytes; no frame is left that would need a
    flush, so that a second [FlushAllPages] does nothing. *)
Theorem FlushAllPagesImpl_effect (s : t) :
  pages_ (FlushAllPagesImpl s) = flushed <$> pages_ s ∧
  (∀ i page, pages_ (FlushAllPagesImpl s) !! i = Some page →
     ¬ (page_id_ page ≠ INVALID_PAGE_ID ∧ is_dirty_ page = true)) ∧
  page_table_ (FlushAllPagesImpl s) = page_table_ s ∧
  free_list_ (FlushAllPagesImpl s) = free_list_ s ∧
  replacer_ (FlushAllPagesImpl s) = replacer_ s ∧
  (∃ writes,
     DiskManager.calls (disk_manager_ (FlushAllPagesImpl s))
     = writes ++ DiskManager.calls (disk_manager_ s) ∧
     ∀ c, c ∈ writes →
       ∃ i page, pages_ s !! i = Some page ∧
                 page_id_ page ≠ INVALID_PAGE_ID ∧ is_dirty_ page = true ∧
                 c = DiskManager.WritePage_call (page_id_ page) (data_ page)) ∧
  FlushAllPagesImpl (FlushAllPagesImpl s) = FlushAllPagesImpl s.
Proof.
  destruct (flush_fold_spec (pool_size_ s) 0 s) as (Hp & _ & _ & Ht & Hf & Hr).
  fold (FlushAllPagesImpl s) in Hp, Ht, Hf, Hr.
  assert (Hpages : pages_ (FlushAllPagesImpl s) = flushed <$> pages_ s).
  { apply list_eq. intros i. rewrite Hp, list_lookup_fmap.
    case_decide as Hi; [done|].
    rewrite (lookup_ge_None_2 (pages_ s) i) by (unfold pool_size_ in Hi; lia). done. }
  assert (Hclean : ∀ i page, pages_ (FlushAllPagesImpl s) !! i = Some page →
                             needs_flush page = false).
  { intros i page. rewrite Hpages, list_lookup_fmap.
    destruct (pages_ s !! i) as [page0|]; [|done]. simpl. intros [= <-].
    apply needs_flush_flushed. }
  split; [done|]. split.
  { intros i page Hpage Hn%needs_flush_true. by rewrite (Hclean i page Hpage) in Hn. }
  split; [done|]. split; [done|]. split; [done|]. split.
  - destruct (flush_fold_calls (pool_size_ s) 0 s) as (writes & Hc & Hw).
    exists writes. split; [done|]. intros c Hin.
    destruct (Hw c Hin) as (i & page & Hpage & [Hid Hd]%needs_flush_true & ->).
    by exists i, page.
  - unfold FlushAllPagesImpl at 1. by apply flush_fold_nothing.
Qed.

(** *** [FetchPage] then [UnpinPage] *)

(** X17.  [FetchPage(p)] followed by [UnpinPage(p, false)], for a resident
    page with pin count 0: both calls succeed, and frames, page table, free
    list and disk are as before them; the replacer has the frame as a
    candidate again, now with its reference bit set (the page counts as
    recently used), the same hand, and the same [Size()] if the frame was a
    candidate before. *)
Theorem Fetch_then_Unpin (s : t) (p f : Z) (page : Page) :
  bpm_inv s → resident s p f page → pin_count_ page = 0 →
  ∃ s1 s2,
    FetchPageImpl s p = Ok (Some f, s1) ∧
    UnpinPageImpl s1 p false = Ok (true, s2) ∧
    pages_ s2 = pages_ s ∧ page_table_ s2 = page_table_ s ∧
    free_list_ s2 = free_list_ s ∧ disk_manager_ s2 = disk_manager_ s ∧
    ClockReplacer.clock (replacer_ s2)
    = <[Z.to_nat f := (true, true)]> (ClockReplacer.clock (replacer_ s)) ∧
    ClockReplacer.hand (replacer_ s2) = ClockReplacer.hand (replacer_ s) ∧
    (∀ b, ClockReplacer.clock (replacer_ s) !! Z.to_nat f = Some (true, b) →
       ClockReplacer.Size (replacer_ s2) = ClockReplacer.Size (replacer_ s)).
Proof.
  intros Hinv Hres Hpin0. pose proof Hres as [Htable Hframe].
  pose proof (inv_table_pool s Hinv p f Htable) as Hpool.
  pose proof (inv_replacer s Hinv) as Hwf.
  assert (Hrange : (0 ≤ f < Z.of_nat (length (ClockReplacer.clock (replacer_ s))))%Z)
    by (rewrite (inv_clock s Hinv); apply Hpool).
  destruct (FetchPageImpl_hit_run s p f page Hinv Hres) as (r1 & Hr1 & _ & Hrun1);
    [unfold INT_MAX; lia|].
  destruct (ClockReplacerFacts.Pin_in_range (replacer_ s) f Hwf Hrange)
    as (r1' & Hr1' & Hwf1 & Hlen1 & Hhand1 & Hclock1).
  rewrite Hr1 in Hr1'. injection Hr1' as <-.
  set (page1 := mkPage (data_ page) (page_id_ page) (pin_count_ page + 1)
                       (is_dirty_ page)) in *.
  set (s1 := mk _ _ _ _ _) in Hrun1.
  assert (Hinv1 : bpm_inv s1) by (by eapply FetchPageImpl_inv).
  assert (Hres1 : resident s1 p f page1).
  { split; [done|]. unfold s1.
    erewrite frame_set_frame; [|reflexivity|done]. by rewrite decide_True. }
  destruct (UnpinPageImpl_pinned s1 p f page1 false Hinv1 Hres1)
    as (r2 & Hr2 & Hrun2 & _); [simpl; lia|].
  assert (Hone : (pin_count_ page1 - 1 =? 0) = true) by (simpl; apply Z.eqb_eq; lia).
  rewrite Hone in Hr2. simpl in Hr2.
  destruct (ClockReplacerFacts.Unpin_in_range r1 f Hwf1)
    as (r2' & Hr2' & Hwf2 & Hlen2 & Hhand2 & Hclock2); [by rewrite Hlen1|].
  rewrite Hr2 in Hr2'. injection Hr2' as <-.
  assert (Hclock : ClockReplacer.clock r2
                   = <[Z.to_nat f := (true, true)]> (ClockReplacer.clock (replacer_ s))).
  { rewrite Hclock2, Hclock1. apply list_insert_insert_eq. }
  eexists s1, _. split; [done|]. split; [exact Hrun2|]. simpl.
  split.
  { unfold set_frame. rewrite list_insert_insert_eq.
    apply list_insert_id. apply frame_Ok in Hframe as [_ Hl]. rewrite Hl.
    f_equal. destruct page as [dt pid pc dr]. simpl in *. subst pc.
    by rewrite orb_false_r. }
  split; [done|]. split; [done|]. split; [done|]. split; [done|].
  split; [congruence|].
  intros b Hb. unfold ClockReplacer.Size.
  rewrite (ClockReplacer.wf_size _ Hwf2), (ClockReplacer.wf_size _ Hwf), Hclock.
  pose proof (ClockReplacerFacts.present_count_insert _ _ _ (true, true) Hb) as Hcount.
  simpl in Hcount. lia.
Qed.

Lemma Fetch_then_Unpin_witness :
  bpm_inv pool_unpinned ∧ resident pool_unpinned 0 0 (mkPage zero_bytes 0 0 true) ∧
  ∃ s1 s2, FetchPageImpl pool_unpinned 0 = Ok (Some 0, s1) ∧
           UnpinPageImpl s1 0 false = Ok (true, s2) ∧
           pages_ s2 = pages_ pool_unpinned.
Proof.
  assert (Hinv : bpm_inv pool_unpinned)
    by exact (reachable_inv _ pool_unpinned_reachable).
  assert (Hres : resident pool_unpinned 0 0 (mkPage zero_bytes 0 0 true))
    by (split; vm_compute; reflexivity).
  split; [exact Hinv|]. split; [exact Hres|].
  destruct (Fetch_then_Unpin pool_unpinned 0 0 _ Hinv Hres eq_refl)
    as (s1 & s2 & H1 & H2 & H3 & _).
  exists s1, s2. split; [exact H1|]. split; [exact H2|exact H3].
Defined.

(** *** [DeletePage] and the disk *)

(** X18.  [DeletePage(p)] on a pool that satisfies the invariant always
    returns, and it never writes: the bytes on disk are as before, also when
    the deleted page was dirty.  Either [p] is in no page-table entry
    afterwards and the one call made to the disk is [DeallocatePage(p)], or
    [p] is resident and pinned, and then nothing at all has changed.  The
    entries of the other pages stay. *)
Theorem DeletePageImpl_effect (s : t) (p : Z) :
  bpm_inv s →
  ∃ res s',
    DeletePageImpl s p = Ok (res, s') ∧
    DiskManager.store (disk_manager_ s') = DiskManager.store (disk_manager_ s) ∧
    ((page_table_ s' !! p = None ∧
      DiskManager.calls (disk_manager_ s')
      = DiskManager.DeallocatePage_call p :: DiskManager.calls (disk_manager_ s)) ∨
     (∃ f page, resident s p f page ∧ 0 < pin_count_ page ∧ s' = s ∧ res = false)) ∧
    (∀ q, q ≠ p → page_table_ s' !! q = page_table_ s !! q) ∧
    bpm_inv s'.
Proof.
  intros Hinv.
  destruct (page_table_ s !! p) as [f|] eqn:Htable.
  - destruct (frame_in_pool s f (inv_table_pool s Hinv p f Htable)) as [page Hframe].
    destruct (Z.le_gt_cases (pin_count_ page) 0) as [Hpin|Hpin].
    + destruct (DeletePageImpl_unpinned s p f page Hinv) as (r1 & _ & Hrun & Hinv');
        [done|done|].
      simpl in Hrun, Hinv'. eexists _, _. split; [exact Hrun|]. simpl.
      split; [done|]. split; [left; split; [apply lookup_delete_eq|done]|].
      split; [|done]. intros q Hne. by apply lookup_delete_ne.
    + exists false, s. split; [apply (DeletePageImpl_pinned s p f page); [done|lia]|].
      split; [done|]. split; [|done].
      right. exists f, page. split; [done|]. split; [lia|done].
  - eexists _, _. split; [by apply DeletePageImpl_absent|]. simpl.
    split; [done|]. split; [by left|]. split; [done|].
    apply bpm_inv_disk; [done|]. apply (inv_disk s Hinv).
Qed.

Lemma DeletePageImpl_effect_witness :
  bpm_inv pool_unpinned ∧
  ∃ res s', DeletePageImpl pool_unpinned 0 = Ok (res, s') ∧
            DiskManager.store (disk_manager_ s')
            = DiskManager.store (disk_manager_ pool_unpinned).
Proof.
  assert (Hinv : bpm_inv pool_unpinned)
    by exact (reachable_inv _ pool_unpinned_reachable).
  split; [exact Hinv|].
  destruct (DeletePageImpl_effect pool_unpinned 0 Hinv) as (res & s' & Hrun & Hstore & _).
  exists res, s'. split; [exact Hrun|exact Hstore].
Defined.

(** *** Eviction of the page that was just released *)

(** X19.  Release and evict.  In a pool without a free frame and without a
    candidate, let [p] be resident with pin count 1.  After
    [UnpinPage(p, true)], [NewPage] takes the frame of [p]: the bytes of [p]
    are written to disk under [p] (the page was marked dirty) before the
    frame is zeroed, the frame holds the new page with pin count 1, and [p]
    is not resident any more (unless the disk hands out the id [p] itself). *)
Theorem Unpin_then_NewPage_evicts (s : t) (p f : Z) (page : Page) :
  bpm_inv s → free_list_ s = [] → ClockReplacer.Size (replacer_ s) = 0 →
  resident s p f page → pin_count_ page = 1 →
  ∃ s1 s2,
    UnpinPageImpl s p true = Ok (true, s1) ∧
    NewPageImpl s1 = Ok (Some f, DiskManager.next_page_id (disk_manager_ s), s2) ∧
    frame s2 f
    = Ok (mkPage zero_bytes (DiskManager.next_page_id (disk_manager_ s)) 1 true) ∧
    DiskManager.calls (disk_manager_ s2)
    = DiskManager.WritePage_call p (data_ page)
      :: DiskManager.AllocatePage_call (DiskManager.next_page_id (disk_manager_ s))
      :: DiskManager.calls (disk_manager_ s) ∧
    DiskManager.store (disk_manager_ s2) !! p = Some (data_ page) ∧
    (DiskManager.next_page_id (disk_manager_ s) ≠ p → page_table_ s2 !! p = None).
Proof.
  intros Hinv Hfree Hsize Hres Hpin1. pose proof Hres as [Htable Hframe].
  pose proof (inv_table_pool s Hinv p f Htable) as Hpool.
  pose proof (inv_replacer s Hinv) as Hwf.
  pose proof (inv_table_id s Hinv p f page Htable Hframe) as Hid.
  assert (Hrange : (0 ≤ f < Z.of_nat (length (ClockReplacer.clock (replacer_ s))))%Z)
    by (rewrite (inv_clock s Hinv); apply Hpool).
  destruct (UnpinPageImpl_pinned s p f page true Hinv Hres) as (r1 & Hr1 & Hrun1 & Hinv1);
    [lia|].
  assert (Hone : (pin_count_ page - 1 =? 0) = true) by (apply Z.eqb_eq; lia).
  rewrite Hone in Hr1.
  destruct (ClockReplacerFacts.Unpin_in_range (replacer_ s) f Hwf Hrange)
    as (r1' & Hr1' & Hwf1 & Hlen1 & _ & Hclock1).
  rewrite Hr1 in Hr1'. injection Hr1' as <-.
  set (page1 := mkPage (data_ page) (page_id_ page) (pin_count_ page - 1)
                       (is_dirty_ page || true)) in *.
  set (s1 := mk _ _ _ _ _) in *.
  (* frame [f] is the only candidate *)
  assert (Hcount : ClockReplacer.present_count (ClockReplacer.clock (replacer_ s)) = 0%nat).
  { unfold ClockReplacer.Size in Hsize. rewrite (ClockReplacer.wf_size _ Hwf) in Hsize. lia. }
  assert (Hsole : ∀ i b, ClockReplacer.clock r1 !! i = Some (true, b) → i = Z.to_nat f).
  { intros i b Hi. destruct (decide (i = Z.to_nat f)) as [|Hne]; [done|].
    rewrite Hclock1, list_lookup_insert_ne in Hi by done.
    by pose proof (ClockReplacerFacts.present_count_zero _ _ _ Hcount Hi). }
  assert (Hsize1 : ClockReplacer.Size r1 ≠ 0).
  { destruct (ClockReplacerFacts.frame_in_range _ f Hwf Hrange) as (_ & e & He & Hslot).
    rewrite Hslot in He.
    pose proof (ClockReplacerFacts.present_count_zero _ _ _ Hcount He) as Habs.
    pose proof (ClockReplacerFacts.present_count_insert _ _ _ (true, true) He) as Hins.
    rewrite Habs in Hins. simpl in Hins.
    unfold ClockReplacer.Size. rewrite (ClockReplacer.wf_size _ Hwf1), Hclock1.
    unfold ClockReplacer.EXISTS, ClockReplacer.REF. lia. }
  assert (Hne : ¬ (free_list_ s1 = [] ∧ ClockReplacer.Size (replacer_ s1) = 0))
    by (intros [_ Hz]; by apply Hsize1).
  exists s1. rewrite (NewPageImpl_not_exhausted s1 Hne). simpl.
  set (id := DiskManager.next_page_id (disk_manager_ s)).
  set (s1a := mk _ _ _ _ _).
  assert (Hinv1a : bpm_inv s1a).
  { apply (bpm_inv_disk s1); [done|]. simpl. pose proof (inv_disk s Hinv). fold id. lia. }
  destruct (ReplaceAndUpdate_victim s1a id true Hinv1a Hfree Hsize1)
    as (v & r1v & r2 & pagev & HVictim & Hframev & _ & _ & _ & Hrep & _).
  assert (v = f) as ->
    by (eapply (ClockReplacerFacts.sole_candidate_victim _ r1); [done|apply Hpool|done|done]).
  assert (pagev = page1) as ->.
  { unfold s1a, s1 in Hframev. erewrite frame_set_frame in Hframev; [|reflexivity|done].
    rewrite decide_True in Hframev by done. by injection Hframev as <-. }
  cbn -[set_frame emplace zero_bytes] in Hrep. rewrite Hrep.
  cbn -[set_frame emplace zero_bytes].
  eexists. split; [exact Hrun1|]. split; [reflexivity|].
  cbn -[set_frame emplace zero_bytes].
  pose proof (orb_true_r (is_dirty_ page)) as Hdirty.
  assert (Hpool1 : in_pool s1a f) by (by apply (in_pool_set_frame s s1a f f page1)).
  split.
  { erewrite (frame_set_frame s1a); [|reflexivity|done]. by rewrite decide_True. }
  rewrite Hdirty, Hid. cbn -[set_frame emplace zero_bytes].
  split; [done|]. split; [apply lookup_insert_eq|].
  intros Hnp. rewrite emplace_ne by done. apply lookup_delete_None. by left.
Qed.

Lemma Unpin_then_NewPage_evicts_witness :
  bpm_inv pool_full_pinned ∧ free_list_ pool_full_pinned = [] ∧
  ClockReplacer.Size (replacer_ pool_full_pinned) = 0 ∧
  resident pool_full_pinned 0 0 (mkPage zero_bytes 0 1 true) ∧
  ∃ s1 s2, UnpinPageImpl pool_full_pinned 0 true = Ok (true, s1) ∧
           NewPageImpl s1 = Ok (Some 0, 1, s2) ∧
           DiskManager.store (disk_manager_ s2) !! 0 = Some zero_bytes.
Proof.
  assert (Hinv : bpm_inv pool_full_pinned)
    by exact (reachable_inv _ pool_full_pinned_reachable).
  assert (Hres : resident pool_full_pinned 0 0 (mkPage zero_bytes 0 1 true))
    by (split; vm_compute; reflexivity).
  split; [exact Hinv|]. split; [reflexivity|]. split; [reflexivity|].
  split; [exact Hres|].
  destruct (Unpin_then_NewPage_evicts pool_full_pinned 0 0 _ Hinv eq_refl eq_refl
              Hres eq_refl) as (s1 & s2 & H1 & H2 & _ & _ & H3 & _).
  exists s1, s2. split; [exact H1|]. split; [exact H2|exact H3].
Defined.

(** *** A held pin and the page table *)

Lemma step_allocated_step (s s' : t) : step_allocated s s' → step s s'.
Proof.
  intros Hstep. destruct Hstep as
    [s p res s' Hp Hrun | s p d res s' Hrun | s p res s' Hrun | s res id s' Hrun
    | s p res s' Hrun | s | s p f page bytes Hres Hpin Hlen].
  - by eapply step_Fetch.
  - by eapply step_Unpin.
  - by eapply step_Flush.
  - by eapply step_New.
  - by eapply step_Delete.
  - apply step_FlushAll.
  - by eapply step_write.
Qed.

Lemma reachable_allocated_reachable (s : t) : reachable_allocated s → reachable s.
Proof.
  induction 1 as [pool_size disk Hn Hd | s s' Hreach IH Hstep].
  - by apply reachable_new.
  - eapply reachable_step; [done|]. by apply step_allocated_step.
Qed.

Lemma pin_inv_new (pool_size : nat) (disk : DiskManager.t) :
  pin_inv (new pool_size disk).
Proof.
  split.
  - intros f page [_ Hl]%frame_Ok Hpin. simpl in Hl.
    apply lookup_replicate in Hl as [-> _]. simpl in Hpin. lia.
  - intros p f Hl. simpl in Hl. by rewrite lookup_empty in Hl.
Qed.

(** A frame keeps its id; if it is pinned afterwards, the table has it. *)
Lemma pin_inv_frame_update (s : t) (f : Z) (page page' : Page)
    (r' : ClockReplacer.t) (d' : DiskManager.t) :
  pin_inv s → frame s f = Ok page →
  page_id_ page' = page_id_ page →
  (0 < pin_count_ page' → page_table_ s !! page_id_ page = Some f) →
  DiskManager.next_page_id (disk_manager_ s) ≤ DiskManager.next_page_id d' →
  pin_inv (mk (set_frame (pages_ s) f page') (page_table_ s) (free_list_ s) r' d').
Proof.
  intros Hpins Hframe Hid Hhere Hnext.
  pose proof (frame_Ok_in_pool _ _ _ Hframe) as Hpool.
  set (s' := mk _ _ _ _ _).
  assert (Hfr : ∀ f', frame s' f' = if decide (f' = f) then Ok page' else frame s f')
    by (intros f'; by apply frame_set_frame).
  split.
  - intros f' pg Hpg Hpin. rewrite Hfr in Hpg. simpl.
    destruct (decide (f' = f)) as [->|Hne].
    + injection Hpg as <-. rewrite Hid. by apply Hhere.
    + by apply (pin_filed s Hpins).
  - intros p0 f0 H0. simpl in *. pose proof (pin_below s Hpins p0 f0 H0). lia.
Qed.

Lemma pin_inv_disk (s : t) (d' : DiskManager.t) :
  pin_inv s →
  DiskManager.next_page_id (disk_manager_ s) ≤ DiskManager.next_page_id d' →
  pin_inv (mk (pages_ s) (page_table_ s) (free_list_ s) (replacer_ s) d').
Proof.
  intros Hpins Hnext. split.
  - intros f page Hframe Hpin. by apply (pin_filed s Hpins).
  - intros p0 f0 H0. simpl in *. pose proof (pin_below s Hpins p0 f0 H0). lia.
Qed.

(** Frame [f] receives page [new_id], which the table [table0] does not
    have; [table0] is the page table without, at most, the entry of [f]. *)
Lemma pin_inv_install (s : t) (f new_id : Z) (page' : Page)
    (table0 : gmap Z Z) (free' : list Z)
    (r' : ClockReplacer.t) (d' : DiskManager.t) :
  pin_inv s → in_pool s f → page_id_ page' = new_id →
  table0 !! new_id = None →
  (∀ p0 f0, table0 !! p0 = Some f0 → page_table_ s !! p0 = Some f0) →
  (∀ p0 f0, page_table_ s !! p0 = Some f0 → f0 ≠ f → table0 !! p0 = Some f0) →
  new_id < DiskManager.next_page_id d' →
  DiskManager.next_page_id (disk_manager_ s) ≤ DiskManager.next_page_id d' →
  pin_inv (mk (set_frame (pages_ s) f page') (emplace new_id f table0) free' r' d').
Proof.
  intros Hpins Hpool Hid Hnew Hsub Hkeep Hlt Hnext.
  set (s' := mk _ _ _ _ _).
  assert (Hfr : ∀ f', frame s' f' = if decide (f' = f) then Ok page' else frame s f')
    by (intros f'; by apply frame_set_frame).
  split.
  - intros f' pg Hpg Hpin. rewrite Hfr in Hpg. simpl.
    destruct (decide (f' = f)) as [->|Hne].
    + injection Hpg as <-. rewrite Hid. by apply emplace_new.
    + apply emplace_keeps, Hkeep; [|done]. by apply (pin_filed s Hpins).
  - intros p0 f0 H0. simpl in H0 |- *.
    apply lookup_emplace in H0 as [H0|(-> & _ & _)]; [|done].
    pose proof (pin_below s Hpins p0 f0 (Hsub _ _ H0)). lia.
Qed.

(** The replacement procedure for an id that the page table does not have. *)
Lemma ReplaceAndUpdate_pins (s : t) (new_id : Z) (new_page : bool) (f : Z) (s2 : t) :
  bpm_inv s → cand_inv s → pin_inv s →
  page_table_ s !! new_id = None →
  new_id < DiskManager.next_page_id (disk_manager_ s) →
  ReplaceAndUpdate s new_id new_page = Ok (f, s2) →
  pin_inv s2 ∧ page_table_ s2 !! new_id = Some f.
Proof.
  intros Hinv Hcand Hpins Hnew Hlt Hrun.
  destruct (free_list_ s) as [|f0 rest] eqn:Hfree.
  - assert (Hsize : ClockReplacer.Size (replacer_ s) ≠ 0).
    { intros Hz. unfold ReplaceAndUpdate in Hrun. by rewrite Hfree, Hz in Hrun. }
    destruct (ReplaceAndUpdate_victim s new_id new_page Hinv Hfree Hsize)
      as (v & r1 & r2 & pagev & HVictim & Hframev & Hpin & _ & _ & Hrun' & _).
    simpl in Hrun'. rewrite Hrun' in Hrun. injection Hrun as <- <-.
    destruct (victim_pinned_candidates _ _ _ _ (inv_replacer s Hinv) HVictim Hpin)
      as ([bv Hv] & Hv0 & _).
    pose proof (frame_Ok_in_pool _ _ _ Hframev) as Hpool.
    destruct (Hcand _ _ Hv) as (pagev' & Hframev' & Hpinv & Htablev).
    rewrite Z2Nat.id in Hframev', Htablev by done.
    rewrite Hframev in Hframev'. injection Hframev' as <-.
    assert (Hnew0 : delete (page_id_ pagev) (page_table_ s) !! new_id = None)
      by (apply lookup_delete_None; by right).
    split; [|simpl; by apply emplace_new].
    apply pin_inv_install; try done.
    + by intros p0 f0 [_ H0]%lookup_delete_Some.
    + intros p0 f0 H0 Hne. rewrite lookup_delete_ne; [done|]. intros Heq.
      rewrite <- Heq in H0. congruence.
    + by destruct new_page, (is_dirty_ pagev).
    + by destruct new_page, (is_dirty_ pagev).
  - destruct (ReplaceAndUpdate_free s new_id new_page f0 rest Hinv Hfree)
      as (page0 & Hframe0 & _ & Hrun' & _).
    simpl in Hrun'. rewrite Hrun' in Hrun. injection Hrun as <- <-.
    pose proof (frame_Ok_in_pool _ _ _ Hframe0) as Hpool.
    split; [|simpl; by apply emplace_new].
    apply pin_inv_install; try done.
    + by destruct new_page.
    + by destruct new_page.
Qed.

Lemma FetchPageImpl_pins (s : t) (p : Z) (res : option Z) (s' : t) :
  bpm_inv s → cand_inv s → pin_inv s →
  p < DiskManager.next_page_id (disk_manager_ s) →
  FetchPageImpl s p = Ok (res, s') → pin_inv s'.
Proof.
  intros Hinv Hcand Hpins Hp Hrun. unfold FetchPageImpl in Hrun.
  destruct (page_table_ s !! p) as [f|] eqn:Htable.
  - pose proof (inv_table_pool s Hinv p f Htable) as Hpool.
    destruct (frame_in_pool s f Hpool) as [page Hframe].
    rewrite Hframe in Hrun. simpl in Hrun.
    destruct (pin_count_ page =? INT_MAX); [done|].
    assert (Hhere : page_table_ s !! page_id_ page = Some f)
      by (by rewrite (inv_table_id s Hinv p f page Htable Hframe)).
    destruct (Z.gtb_spec (pin_count_ page + 1) 0) as [Hpos|Hneg].
    + destruct (ClockReplacer.Pin (replacer_ s) f) as [r1| | |]; try done.
      simpl in Hrun. injection Hrun as _ <-.
      by apply (pin_inv_frame_update s f page).
    + simpl in Hrun. injection Hrun as _ <-.
      by apply (pin_inv_frame_update s f page).
  - destruct (bool_decide (free_list_ s = []) &&
              (ClockReplacer.Size (replacer_ s) =? 0)); [by injection Hrun as _ <-|].
    destruct (ReplaceAndUpdate s p false) as [[f s2]| | |] eqn:Hrep; try done.
    simpl in Hrun. injection Hrun as _ <-.
    by destruct (ReplaceAndUpdate_pins s p false f s2 Hinv Hcand Hpins Htable Hp Hrep).
Qed.

Lemma UnpinPageImpl_pins (s : t) (p : Z) (d res : bool) (s' : t) :
  bpm_inv s → pin_inv s → UnpinPageImpl s p d = Ok (res, s') → pin_inv s'.
Proof.
  intros Hinv Hpins Hrun. unfold UnpinPageImpl in Hrun.
  destruct (page_table_ s !! p) as [f|] eqn:Htable; [|done].
  destruct (frame s f) as [page| | |] eqn:Hframe; try done. simpl in Hrun.
  destruct (pin_count_ page <=? 0); [by injection Hrun as _ <-|].
  destruct (if pin_count_ page - 1 =? 0
            then ClockReplacer.Unpin (replacer_ s) f
            else Ok (replacer_ s)) as [r1| | |]; try done.
  simpl in Hrun. injection Hrun as _ <-.
  apply (pin_inv_frame_update s f page); try done.
  intros _. by rewrite (inv_table_id s Hinv p f page Htable Hframe).
Qed.

Lemma FlushPageImpl_pins (s : t) (p : Z) (res : bool) (s' : t) :
  bpm_inv s → pin_inv s → FlushPageImpl s p = Ok (res, s') → pin_inv s'.
Proof.
  intros Hinv Hpins Hrun. unfold FlushPageImpl in Hrun.
  destruct (page_table_ s !! p) as [f|] eqn:Htable; [|by injection Hrun as _ <-].
  destruct (frame s f) as [page| | |] eqn:Hframe; try done. simpl in Hrun.
  destruct (negb (page_id_ page =? INVALID_PAGE_ID) && is_dirty_ page);
    injection Hrun as _ <-; [|done].
  apply (pin_inv_frame_update s f page); try done.
  intros _. by rewrite (inv_table_id s Hinv p f page Htable Hframe).
Qed.

Lemma NewPageImpl_pins (s : t) (res : option Z) (id : Z) (s' : t) :
  bpm_inv s → cand_inv s → pin_inv s → NewPageImpl s = Ok (res, id, s') → pin_inv s'.
Proof.
  intros Hinv Hcand Hpins Hrun. unfold NewPageImpl in Hrun.
  destruct (bool_decide (free_list_ s = []) &&
            (ClockReplacer.Size (replacer_ s) =? 0)); [by injection Hrun as _ _ <-|].
  simpl in Hrun.
  set (s1 := mk _ _ _ _ _) in Hrun.
  destruct (ReplaceAndUpdate s1 _ true) as [[f s2]| | |] eqn:Hrep; try done.
  simpl in Hrun. injection Hrun as _ _ <-.
  assert (Hinv1 : bpm_inv s1).
  { apply bpm_inv_disk; [done|]. simpl. pose proof (inv_disk s Hinv). lia. }
  assert (Hcand1 : cand_inv s1) by (by apply cand_inv_disk).
  assert (Hpins1 : pin_inv s1) by (apply pin_inv_disk; [done|simpl; lia]).
  assert (Hnew : page_table_ s1 !! DiskManager.next_page_id (disk_manager_ s) = None).
  { simpl. destruct (page_table_ s !! _) as [f0|] eqn:H0; [|done].
    pose proof (pin_below s Hpins _ _ H0). lia. }
  destruct (ReplaceAndUpdate_pins s1 _ true f s2 Hinv1 Hcand1 Hpins1 Hnew) as [H2 _];
    [simpl; lia|done|done].
Qed.

Lemma DeletePageImpl_pins (s : t) (p : Z) (res : bool) (s' : t) :
  bpm_inv s → pin_inv s → DeletePageImpl s p = Ok (res, s') → pin_inv s'.
Proof.
  intros Hinv Hpins Hrun.
  destruct (page_table_ s !! p) as [f|] eqn:Htable.
  - pose proof (inv_table_pool s Hinv p f Htable) as Hpool.
    destruct (frame_in_pool s f Hpool) as [page Hframe].
    destruct (Z.le_gt_cases (pin_count_ page) 0) as [Hpin|Hpin].
    + destruct (DeletePageImpl_unpinned s p f page Hinv) as (r1 & Hr1 & Hrun' & _);
        [done|done|].
      simpl in Hrun'. rewrite Hrun' in Hrun. injection Hrun as _ <-.
      set (s' := mk _ _ _ _ _).
      assert (Hfr : ∀ f', frame s' f'
                = if decide (f' = f)
                  then Ok (mkPage zero_bytes INVALID_PAGE_ID (pin_count_ page) false)
                  else frame s f')
        by (intros f'; by apply frame_set_frame).
      split.
      * intros f' pg Hpg Hpinned. rewrite Hfr in Hpg. simpl.
        destruct (decide (f' = f)) as [->|Hne].
        { injection Hpg as <-. simpl in Hpinned. lia. }
        pose proof (pin_filed s Hpins f' pg Hpg Hpinned) as Hfiled.
        rewrite lookup_delete_ne; [done|]. intros Heq.
        rewrite <- Heq in Hfiled. congruence.
      * intros p0 f0 H0. simpl in H0 |- *.
        apply lookup_delete_Some in H0 as [_ H0].
        apply (pin_below s Hpins p0 f0 H0).
    + rewrite (DeletePageImpl_pinned s p f page) in Hrun; [|done|lia].
      by injection Hrun as _ <-.
  - rewrite (DeletePageImpl_absent s p Htable) in Hrun. injection Hrun as _ <-.
    by apply pin_inv_disk.
Qed.

Lemma flush_frame_pins (s : t) (i : nat) : pin_inv s → pin_inv (flush_frame s i).
Proof.
  intros Hpins. unfold flush_frame.
  destruct (pages_ s !! i) as [page|] eqn:Hpage; [|done].
  destruct (negb (page_id_ page =? INVALID_PAGE_ID) && is_dirty_ page); [|done].
  assert (Hframe : frame s (Z.of_nat i) = Ok page)
    by (apply frame_Ok; rewrite Nat2Z.id; split; [lia|done]).
  pose proof (pin_inv_frame_update s (Z.of_nat i) page
                (mkPage (data_ page) (page_id_ page) (pin_count_ page) false)
                (replacer_ s)
                (DiskManager.WritePage (disk_manager_ s) (page_id_ page) (data_ page))
                Hpins Hframe eq_refl (pin_filed s Hpins _ _ Hframe)
                (Z.le_refl _)) as Hupd.
  unfold set_frame in Hupd. by rewrite Nat2Z.id in Hupd.
Qed.

Lemma FlushAllPagesImpl_pins (s : t) : pin_inv s → pin_inv (FlushAllPagesImpl s).
Proof.
  unfold FlushAllPagesImpl. generalize (seq 0 (pool_size_ s)) as l.
  intros l. revert s. induction l as [|i l IH]; intros s Hpins; [done|].
  simpl. apply IH. by apply flush_frame_pins.
Qed.

Lemma step_allocated_pins (s s' : t) :
  bpm_inv s → cand_inv s → pin_inv s → step_allocated s s' → pin_inv s'.
Proof.
  intros Hinv Hcand Hpins Hstep. destruct Hstep as
    [s p res s' Hp Hrun | s p d res s' Hrun | s p res s' Hrun | s res id s' Hrun
    | s p res s' Hrun | s | s p f page bytes [Htable Hframe] Hpin Hlen].
  - by eapply FetchPageImpl_pins.
  - by eapply UnpinPageImpl_pins.
  - by eapply FlushPageImpl_pins.
  - by eapply NewPageImpl_pins.
  - by eapply DeletePageImpl_pins.
  - by apply FlushAllPagesImpl_pins.
  - unfold client_write. apply (pin_inv_frame_update s f page); try done.
    intros _. by rewrite (inv_table_id s Hinv p f page Htable Hframe).
Qed.

Lemma reachable_allocated_pins (s : t) : reachable_allocated s → pin_inv s.
Proof.
  induction 1 as [pool_size disk Hn Hd | s s' Hreach IH Hstep].
  - apply pin_inv_new.
  - pose proof (reachable_allocated_reachable s Hreach) as Hr.
    eapply step_allocated_pins; [by apply reachable_inv|by apply reachable_cand|done|done].
Qed.

(** The four calls that lead to [pool_lost_entry]. *)
Lemma pool_two_Fetch : FetchPageImpl (new 2 disk0) 0 = Ok (Some 0, pool_two_fetched).
Proof. vm_compute. reflexivity. Qed.

Lemma pool_two_NewPage : NewPageImpl pool_two_fetched = Ok (Some 1, 0, pool_two_twice).
Proof. vm_compute. reflexivity. Qed.

Lemma pool_two_Unpin : UnpinPageImpl pool_two_twice 0 false = Ok (true, pool_two_released).
Proof. vm_compute. reflexivity. Qed.

Lemma pool_two_evicts : NewPageImpl pool_two_released = Ok (Some 0, 1, pool_lost_entry).
Proof. vm_compute. reflexivity. Qed.

Lemma pool_lost_entry_reachable : reachable pool_lost_entry.
Proof.
  eapply reachable_step; [|eapply step_New; exact pool_two_evicts].
  eapply reachable_step; [|eapply step_Unpin; exact pool_two_Unpin].
  eapply reachable_step; [|eapply step_New; exact pool_two_NewPage].
  eapply reachable_step; [|eapply step_Fetch; exact pool_two_Fetch].
  apply reachable_new; [vm_compute; discriminate|simpl; lia].
Qed.

Lemma pool_pinned_allocated : reachable_allocated pool_pinned.
Proof.
  eapply reachable_allocated_step; [|eapply allocated_New; exact pool0_NewPage].
  apply (reachable_allocated_new 3 disk0); [vm_compute; discriminate|simpl; lia].
Qed.

(** C9 as the specification words it does not hold.  [pool_lost_entry] is
    reached by [FetchPage(0)], [NewPage] (which returns the id 0 in frame
    1), [UnpinPage(0, false)] and [NewPage] on a new pool of two frames.
    The caller of the first [NewPage] holds a pin on page 0: frame 1 carries
    the id 0 with pin count 1.  Yet page 0 has no entry in the page table,
    and [UnpinPage(0, d)] dereferences [end()]. *)
Lemma UnpinPageImpl_pin_without_entry :
  reachable pool_lost_entry ∧
  holds_pin pool_lost_entry 0 1 (mkPage zero_bytes 0 1 true) ∧
  page_table_ pool_lost_entry !! 0 = None ∧
  (∀ d, UnpinPageImpl pool_lost_entry 0 d = Undefined) ∧
  ¬ (∀ s p f page d, reachable s → holds_pin s p f page →
       returns (UnpinPageImpl s p d)).
Proof.
  assert (Hheld : holds_pin pool_lost_entry 0 1 (mkPage zero_bytes 0 1 true)).
  { split; [vm_compute; reflexivity|]. split; [reflexivity|simpl; lia]. }
  assert (Hrun : ∀ d, UnpinPageImpl pool_lost_entry 0 d = Undefined)
    by (intros d; reflexivity).
  split; [exact pool_lost_entry_reachable|]. split; [exact Hheld|].
  split; [reflexivity|]. split; [exact Hrun|].
  intros Hall.
  destruct (Hall pool_lost_entry 0 1 _ false pool_lost_entry_reachable Hheld) as [x Hx].
  by rewrite Hrun in Hx.
Qed.

(** C9, amended.  [UnpinPage(p, d)] dereferences the result of the
    page-table lookup unchecked: when [p] is not in the table the call is
    undefined.  In every pool that the operations build from a new pool
    while [FetchPage] is asked only for ids that the disk manager has handed
    out, a caller that holds a pin on [p] (frame [f] carries [p] with a
    positive pin count) has [p] in the page table, filed under [f]: the
    lookup succeeds, and the call returns true and takes one pin off
    frame [f]. *)
Theorem UnpinPageImpl_lookup (s : t) (p : Z) (d : bool) :
  (page_table_ s !! p = None → UnpinPageImpl s p d = Undefined) ∧
  (reachable_allocated s → ∀ f page, holds_pin s p f page →
     page_table_ s !! p = Some f ∧
     ∃ s', UnpinPageImpl s p d = Ok (true, s') ∧
           frame s' f = Ok (mkPage (data_ page) p (pin_count_ page - 1)
                                   (is_dirty_ page || d))).
Proof.
  split.
  - intros Hnone. unfold UnpinPageImpl. by rewrite Hnone.
  - intros Hreach f page (Hframe & Hid & Hpin).
    pose proof (reachable_inv s (reachable_allocated_reachable s Hreach)) as Hinv.
    pose proof (pin_filed s (reachable_allocated_pins s Hreach) f page Hframe Hpin)
      as Htable.
    rewrite Hid in Htable. split; [done|].
    destruct (UnpinPageImpl_pinned s p f page d Hinv (conj Htable Hframe) Hpin)
      as (r1 & _ & Hrun & _).
    eexists. split; [exact Hrun|]. rewrite <- Hid.
    erewrite frame_set_frame; [|reflexivity|by eapply frame_Ok_in_pool].
    by rewrite decide_True.
Qed.

Lemma UnpinPageImpl_lookup_witness :
  reachable_allocated pool_pinned ∧
  holds_pin pool_pinned 0 0 (mkPage zero_bytes 0 1 true) ∧
  page_table_ pool_pinned !! 0 = Some 0 ∧
  (∃ s', UnpinPageImpl pool_pinned 0 true = Ok (true, s') ∧
         frame s' 0 = Ok (mkPage zero_bytes 0 0 true)) ∧
  UnpinPageImpl pool_pinned 7 true = Undefined.
Proof.
  assert (Hheld : holds_pin pool_pinned 0 0 (mkPage zero_bytes 0 1 true)).
  { split; [vm_compute; reflexivity|]. split; [reflexivity|simpl; lia]. }
  split; [exact pool_pinned_allocated|]. split; [exact Hheld|].
  destruct (UnpinPageImpl_lookup pool_pinned 0 true) as (_ & Hin).
  destruct (Hin pool_pinned_allocated 0 _ Hheld) as [Htable Hrun].
  split; [exact Htable|]. split; [exact Hrun|].
  destruct (UnpinPageImpl_lookup pool_pinned 7 true) as (Hout & _).
  apply Hout. vm_compute. reflexivity.
Defined.

End BufferPoolManagerFacts.
